(** * regionmask.core.utils: a shallow embedding and its verified properties

    The module under study is a collection of numpy / shapely / xarray
    helpers.  Array elements are embedded as exact rationals ([Q]) for
    coordinates and as integers ([Z]) for bit flags and region numbers:
    the embedding follows the real-number meaning of every numpy
    primitive ([np.mod], [np.round], [np.isclose], [np.diff], ...), which
    is also their meaning on integer arrays.  The region numbers of a
    mask are [int64] numbers and the flattened mask is a [float64]
    array: the wrap-around of the one and the rounding of the other are
    written out.  The non-finite values (NaN, infinities) are outside
    the model, but for the missing cells of the flattened mask.
    Rounding of binary64 arithmetic on coordinates matters for the range
    of the wrapping functions only; module [Binary64] gives [np.mod] on
    the primitive binary64 numbers for that. *)

From Stdlib Require Import ZArith QArith Qround Qabs Lqa.
From Stdlib Require Import List Bool String DecimalString Lia.
From Stdlib Require Import SetoidList Sorted.
From Stdlib Require PrimFloat FloatOps SpecFloat.
From Stdlib Require DecimalZ DecimalPos.
Import ListNotations.

Local Open Scope Q_scope.

(* ================================================================== *)
(** * Part I: definitions                                              *)
(* ================================================================== *)

(** ** Python exceptions and fallible results *)

Inductive exn : Type :=
| ValueError (msg : string)
| TypeError (msg : string)
| IndexError (msg : string)
| KeyError (msg : string).

Inductive result (A : Type) : Type :=
| Ok (a : A)
| Raise (e : exn).

Arguments Ok {A} a.
Arguments Raise {A} e.

Definition bind {A B : Type} (r : result A) (k : A -> result B) : result B :=
  match r with
  | Ok a => k a
  | Raise e => Raise e
  end.

Notation "x <- r ;; k" := (bind r (fun x => k))
  (at level 61, r at next level, right associativity).

(** Elementwise combination of two sequences of equal length. *)
Fixpoint zip_with {A B C : Type} (f : A -> B -> C)
    (a : list A) (b : list B) : list C :=
  match a, b with
  | x :: a', y :: b' => f x y :: zip_with f a' b'
  | _, _ => []
  end.

(** ** The numpy primitives used by the module *)

Module Np.

Definition Qltb (x y : Q) : bool := negb (Qle_bool y x).

(** [np.mod(x, m)]: remainder with the sign of the divisor,
    [x - m * floor (x / m)]. *)
Definition mod_ (x m : Q) : Q := x - m * inject_Z (Qfloor (x / m)).

(** [np.rint]: nearest integer, ties to the even one. *)
Definition rint (x : Q) : Z :=
  let f := Qfloor x in
  match Qcompare (x - inject_Z f) (1 # 2) with
  | Lt => f
  | Gt => (f + 1)%Z
  | Eq => if Z.even f then f else (f + 1)%Z
  end.

(** [np.round(x, decimals)] for [decimals >= 0]: scale, [rint], unscale. *)
Definition round (x : Q) (decimals : nat) : Q :=
  let s := inject_Z (10 ^ Z.of_nat decimals) in
  inject_Z (rint (x * s)) / s.

Definition default_rtol : Q := 1 # 100000.
Definition default_atol : Q := 1 # 100000000.

(** [np.isclose(a, b, rtol, atol)]: [|a - b| <= atol + rtol * |b|]. *)
Definition isclose (a b rtol atol : Q) : bool :=
  Qle_bool (Qabs (a - b)) (atol + rtol * Qabs b).

(** [np.diff] along a 1-d array. *)
Fixpoint diff (l : list Q) : list Q :=
  match l with
  | x :: ((y :: _) as t) => (y - x) :: diff t
  | _ => []
  end.

(** Boolean-mask indexing [a[sel]]. *)
Fixpoint select {A : Type} (sel : list bool) (a : list A) : list A :=
  match sel, a with
  | b :: sel', x :: a' => if b then x :: select sel' a' else select sel' a'
  | _, _ => []
  end.

(** Boolean-mask assignment [a[sel] = vals], [vals] holding one value
    per selected position. *)
Fixpoint assign {A : Type} (sel : list bool) (a vals : list A) : list A :=
  match sel, a with
  | b :: sel', x :: a' =>
      if b then
        match vals with
        | v :: vals' => v :: assign sel' a' vals'
        | [] => x :: assign sel' a' []
        end
      else x :: assign sel' a' vals
  | _, _ => a
  end.

(** Boolean-mask assignment of a scalar, [a[sel] = v]. *)
Fixpoint assign_scalar {A : Type} (sel : list bool) (a : list A) (v : A)
  : list A :=
  match sel, a with
  | b :: sel', x :: a' => (if b then v else x) :: assign_scalar sel' a' v
  | _, _ => a
  end.

Definition Qmin (x y : Q) : Q := if Qle_bool x y then x else y.
Definition Qmax (x y : Q) : Q := if Qle_bool x y then y else x.

Definition zero_size (op : string) : exn :=
  ValueError ("zero-size array to reduction operation " ++ op
              ++ " which has no identity").

(** [np.nanmin] / [np.nanmax] over all elements (no NaN in the model). *)
Definition nanmin (l : list Q) : result Q :=
  match l with
  | [] => Raise (zero_size "fmin")
  | x :: t => Ok (fold_left Qmin t x)
  end.

Definition nanmax (l : list Q) : result Q :=
  match l with
  | [] => Raise (zero_size "fmax")
  | x :: t => Ok (fold_left Qmax t x)
  end.

(** [np.unique]: the sorted distinct values. *)
Fixpoint insert_unique (x : Q) (l : list Q) : list Q :=
  match l with
  | [] => [x]
  | y :: t =>
      if Qeq_bool x y then l
      else if Qle_bool x y then x :: l
      else y :: insert_unique x t
  end.

Definition unique (l : list Q) : list Q := fold_right insert_unique [] l.

(** What python hands to [np.array] / [np.asarray]: a number, a flat
    sequence or a sequence of rows.  The rows are meant to have one
    length: numpy refuses rows of different lengths, which the
    conversion below does not tell apart. *)
Inductive array_like : Type :=
| Scalar (x : Q)
| Seq (l : list Q)
| Nested (rows : list (list Q)).

(** An array of numbers: number of axes and the elements in row-major
    order. *)
Record ndarray : Type := mk_ndarray { ndim : nat; flat : list Q }.

Definition size (a : ndarray) : nat := List.length (flat a).

Definition asarray (v : array_like) : ndarray :=
  match v with
  | Scalar x => mk_ndarray 0 [x]
  | Seq l => mk_ndarray 1 l
  | Nested rows => mk_ndarray 2 (concat rows)
  end.

End Np.

(** ** Longitude normalizer *)

(** [_wrapAngle360]: wrap angle to [[0, 360[]. *)
Definition _wrapAngle360 (lon : list Q) : list Q :=
  map (fun x => Np.mod_ x 360) lon.

(** [_wrapAngle180]: wrap angle to [[-180, 180[]. *)
Definition _wrapAngle180 (lon : list Q) : list Q :=
  let sel := map (fun x => Np.Qltb x (-180) || Qle_bool 180 x) lon in
  Np.assign sel lon
    (map (fun v => v - 180)
       (_wrapAngle360 (map (fun x => x + 180) (Np.select sel lon)))).

Definition cannot_infer : string := "Cannot infer the transformation.".

(** [_is_180 lon_min lon_max msg_add] *)
Definition _is_180 (lon_min lon_max : Q) (msg_add : string) : result bool :=
  let lon_min := Np.round lon_min 6 in
  let lon_max := Np.round lon_max 6 in
  if Np.Qltb lon_min 0 && Np.Qltb 180 lon_max then
    Raise (ValueError
             ("lon has data that is larger than 180 and smaller than 0. "
              ++ msg_add))
  else Ok (Qle_bool lon_max 180).

(** The [wrap_lon] argument: [True], or a number ([False] is the number 0). *)
Inductive wrap_arg : Type :=
| WTrue
| WNum (n : Z).

(** The first half of [_wrapAngle]: the [if wrap_lon is True] block, which
    replaces [True] by the inferred base. *)
Definition infer_wrap_lon (lon : list Q) (wrap_lon : wrap_arg) : result Z :=
  match wrap_lon with
  | WTrue =>
      mn <- Np.nanmin lon ;;
      mx <- Np.nanmax lon ;;
      is180 <- _is_180 mn mx cannot_infer ;;
      Ok (if is180 then 360 else 180)%Z
  | WNum n => Ok n
  end.

(** The two [if wrap_lon == ...] statements of [_wrapAngle]. *)
Definition wrap_to (wrap_lon : Z) (lon : list Q) : list Q :=
  let lon := if (wrap_lon =? 180)%Z then _wrapAngle180 lon else lon in
  if (wrap_lon =? 360)%Z then _wrapAngle360 lon else lon.

Definition equal_longitudes : exn :=
  ValueError "There are equal longitude coordinates (when wrapped)!".

(** The last block of [_wrapAngle]: check if they are still unique. *)
Definition check_unique (nd : nat) (is_unstructured : bool) (lon : list Q)
  : result unit :=
  if (nd =? 1)%nat && negb is_unstructured then
    if negb (List.length lon =? List.length (Np.unique lon))%nat
    then Raise equal_longitudes
    else Ok tt
  else Ok tt.

(** [_wrapAngle lon wrap_lon is_unstructured] *)
Definition _wrapAngle (lon : Np.array_like) (wrap_lon : wrap_arg)
    (is_unstructured : bool) : result Np.ndarray :=
  (* if np.isscalar(lon): lon = [lon] *)
  let lon := match lon with
             | Np.Scalar x => Np.Seq [x]
             | other => other
             end in
  let lon := Np.asarray lon in
  wrap_lon <- infer_wrap_lon (Np.flat lon) wrap_lon ;;
  let wrapped := wrap_to wrap_lon (Np.flat lon) in
  _ <- check_unique (Np.ndim lon) is_unstructured wrapped ;;
  Ok (Np.mk_ndarray (Np.ndim lon) wrapped).

(** ** The wrapping functions on binary64 numbers

    [np.mod] on [float64] arrays is the C function [fmod], which is exact,
    followed by one rounded addition of the divisor when the remainder
    and the divisor differ in sign.  This module follows that definition
    on the primitive binary64 numbers, for finite arguments and a
    non-zero finite divisor. *)

Module Binary64.

Import PrimFloat.

(** The value of a finite number as mantissa times a power of two. *)
Definition decode (x : float) : option (Z * Z) :=
  match FloatOps.Prim2SF x with
  | SpecFloat.S754_zero _ => Some (0, 0)%Z
  | SpecFloat.S754_finite s m e =>
      Some (if s then Z.neg m else Z.pos m, e)
  | _ => None
  end.

(** The binary64 number nearest to [m * 2 ^ e]. *)
Definition encode (m e : Z) : float :=
  FloatOps.SF2Prim
    (SpecFloat.binary_normalize FloatOps.prec FloatOps.emax m e false).

Definition nan : float := (0 / 0)%float.

(** C [fmod]: the exact remainder of the truncated division, with the
    sign of the dividend. *)
Definition fmod (a b : float) : float :=
  match decode a, decode b with
  | Some (ma, ea), Some (mb, eb) =>
      if (mb =? 0)%Z then nan
      else
        let e := Z.min ea eb in
        let r := encode (Z.rem (ma * 2 ^ (ea - e)) (mb * 2 ^ (eb - e))) e in
        if (ma <? 0)%Z then (- abs r)%float else r
  | _, _ => nan
  end.

(** [np.mod] on [float64]. *)
Definition mod_ (a b : float) : float :=
  let m := fmod a b in
  if (b =? 0)%float then m
  else if negb (m =? 0)%float then
    if xorb (b <? 0)%float (m <? 0)%float then (m + b)%float else m
  else if (b <? 0)%float then (- 0)%float else 0%float.

(** [_wrapAngle360] and [_wrapAngle180] on [float64] arrays. *)
Definition _wrapAngle360 (lon : list float) : list float :=
  map (fun x => mod_ x 360) lon.

Definition _wrapAngle180 (lon : list float) : list float :=
  let sel := map (fun x => (x <? -180)%float || (180 <=? x)%float) lon in
  Np.assign sel lon
    (map (fun v => (v - 180)%float)
       (_wrapAngle360 (map (fun x => (x + 180)%float) (Np.select sel lon)))).

(** Membership in [[0, 360[] and in [[-180, 180[]. *)
Definition in_0_360 (v : float) : bool := (0 <=? v)%float && (v <? 360)%float.
Definition in_180_180 (v : float) : bool :=
  (-180 <=? v)%float && (v <? 180)%float.

(** The binary64 number of an integer, and two numbers next to the
    ends of the ranges: [-2^-70], and the number just below -180. *)
Definition of_Z (z : Z) : float := encode z 0.
Definition tiny_negative : float := (-0x1p-70)%float.
Definition below_minus_180 : float := (-0x1.6800000000001p+7)%float.

End Binary64.

(** ** Equal-spacing analyzer *)

(** [a[0]] and [a[-1]] on a 1-d array. *)
Definition getitem_first {A : Type} (a : list A) : result A :=
  match a with
  | [] => Raise (IndexError "index 0 is out of bounds for axis 0 with size 0")
  | x :: _ => Ok x
  end.

Definition getitem_last {A : Type} (a : list A) : result A :=
  match rev a with
  | [] => Raise (IndexError "index -1 is out of bounds for axis 0 with size 0")
  | x :: _ => Ok x
  end.

(** [~np.isclose(d_lon[0], d_lon)] *)
Definition not_isclose_to_first (d_lon : list Q) : result (list bool) :=
  d0 <- getitem_first d_lon ;;
  Ok (map (fun d => negb (Np.isclose d0 d Np.default_rtol Np.default_atol))
        d_lon).

(** [.sum()] of a boolean array. *)
Definition sum_bool (l : list bool) : nat := count_occ bool_dec l true.

(** [_equally_spaced_on_split_lon lon] *)
Definition _equally_spaced_on_split_lon (lon : Np.array_like) : result bool :=
  let lon := Np.asarray lon in
  if (1 <? Np.ndim lon)%nat || (Np.size lon <? 2)%nat then Ok false
  else
    let d_lon := Np.diff (Np.flat lon) in
    d_lon_not_isclose <- not_isclose_to_first d_lon ;;
    (* there can only be one breakpoint *)
    if (sum_bool d_lon_not_isclose =? 1)%nat then
      last_ <- getitem_last d_lon_not_isclose ;;
      Ok (negb last_)
    else Ok false.

(** [np.argwhere] on a 1-d boolean array: the indices of the true entries. *)
Fixpoint argwhere_from (i : nat) (l : list bool) : list nat :=
  match l with
  | [] => []
  | b :: t => if b then i :: argwhere_from (S i) t else argwhere_from (S i) t
  end.

Definition argwhere (l : list bool) : list nat := argwhere_from 0 l.

Definition split_point_error : exn :=
  ValueError "more or less than one split point found".

(** [_find_splitpoint lon], for a 1-d [lon]. *)
Definition _find_splitpoint (lon : list Q) : result nat :=
  let d_lon := Np.diff lon in
  d_lon_not_isclose <- not_isclose_to_first d_lon ;;
  let split_point := argwhere d_lon_not_isclose in
  match split_point with
  | [i] => Ok (i + 1)%nat
  | _ => Raise split_point_error
  end.

(** ** Bit unpacker *)

(** Element types: [intN] / [uintN] and [floatN]. *)
Inductive dtype : Type :=
| IntDtype (signed : bool) (bits : Z)
| FloatDtype (bits : Z).

Definition is_floating (dt : dtype) : bool :=
  match dt with FloatDtype _ => true | IntDtype _ _ => false end.

Definition dtype_bits (dt : dtype) : Z :=
  match dt with IntDtype _ w => w | FloatDtype w => w end.

(** Conversion of an integer to the element type (C wrap-around). *)
Definition cast (dt : dtype) (z : Z) : Z :=
  match dt with
  | IntDtype false w => z mod 2 ^ w
  | IntDtype true w => (z + 2 ^ (w - 1)) mod 2 ^ w - 2 ^ (w - 1)
  | FloatDtype _ => z
  end%Z.

(** An array of integers (or of floats holding integral values) with its
    shape and its elements in row-major order. *)
Record int_ndarray : Type :=
  mk_int_ndarray { dt : dtype; shape : list nat; data : list Z }.

Record bool_ndarray : Type :=
  mk_bool_ndarray { bshape : list nat; bdata : list bool }.

(** [np.arange(n, dtype=dt)] *)
Definition arange (n : nat) (d : dtype) : list Z :=
  map (fun k => cast d (Z.of_nat k)) (seq 0 n).

(** [2 ** e] on an integer array of type [d]. *)
Definition pow2 (d : dtype) (e : Z) : result Z :=
  if (e <? 0)%Z then
    Raise (ValueError "Integers to negative integer powers are not allowed.")
  else Ok (cast d (2 ^ e)).

Fixpoint mapM {A B : Type} (f : A -> result B) (l : list A)
  : result (list B) :=
  match l with
  | [] => Ok []
  | x :: t => y <- f x ;; ys <- mapM f t ;; Ok (y :: ys)
  end.

(** [unpackbits numbers num_bits] *)
Definition unpackbits (numbers : int_ndarray) (num_bits : nat)
  : result bool_ndarray :=
  if is_floating (dt numbers) then
    Raise (ValueError "numpy data type needs to be int-like")
  else
    let shape_ := (shape numbers ++ [num_bits])%list in
    (* numbers.reshape([-1, 1]) *)
    let column := data numbers in
    (* 2 ** np.arange(num_bits, dtype=numbers.dtype).reshape([1, num_bits]) *)
    mask <- mapM (pow2 (dt numbers)) (arange num_bits (dt numbers)) ;;
    (* np.bitwise_and(numbers, mask, out=<bool>, casting="unsafe") *)
    let out :=
      map (fun n => map (fun m => negb (Z.land n m =? 0)%Z) mask) column in
    Ok (mk_bool_ndarray shape_ (concat out)).

(** ** 3D-to-2D mask flattener *)

Module Xr.

(** A two-dimensional array over the grid, [a[y][x]]. *)
Definition grid (A : Type) : Type := list (list A).

Definition full {A : Type} (ny nx : nat) (v : A) : grid A :=
  repeat (repeat v nx) ny.

Definition grid_map {A B : Type} (f : A -> B) (a : grid A) : grid B :=
  map (map f) a.

Definition grid_zip {A B C : Type} (f : A -> B -> C)
    (a : grid A) (b : grid B) : grid C :=
  zip_with (zip_with f) a b.

Definition get {A : Type} (a : grid A) (y x : nat) (d : A) : A :=
  nth x (nth y a []) d.

(** A [xr.DataArray] holding a boolean mask.  When it has three axes they
    are (region, y, x): [layers] lists one [ny] x [nx] grid per entry of
    the region axis, and [region] is the coordinate of that axis when the
    array carries one.  [region_elsewhere] tells whether the array
    carries a coordinate named region that is not the coordinate of an
    axis (a scalar coordinate, or a coordinate along an axis of another
    name); an array has at most one coordinate of a name, so the flag
    only matters when [region] is [None]. *)
Record DataArray : Type := mk_DataArray {
  da_ndim : nat;
  ny : nat;
  nx : nat;
  region : option (list Z);
  layers : list (grid bool);
  region_elsewhere : bool
}.

(** ["region" in mask_3D.coords] *)
Definition has_region_coord (m : DataArray) : bool :=
  match region m with
  | Some _ => true
  | None => region_elsewhere m
  end.

(** Reduction of a list of grids along the region axis. *)
Definition reduce {A : Type} (f : A -> A -> A) (zero : A)
    (ny nx : nat) (ls : list (grid A)) : grid A :=
  fold_right (grid_zip f) (full ny nx zero) ls.

Definition b2z (b : bool) : Z := if b then 1%Z else 0%Z.

(** [mask_3D.sum("region")] *)
Definition sum_region (m : DataArray) : grid Z :=
  reduce Z.add 0%Z (ny m) (nx m) (map (grid_map b2z) (layers m)).

(** [mask_3D.any("region")] *)
Definition any_region (m : DataArray) : grid bool :=
  reduce orb false (ny m) (nx m) (layers m).

(** [mask_3D * mask_3D.region], the region numbers broadcast along
    the region axis. *)
Definition times_region (m : DataArray) (ids : list Z) : list (grid Z) :=
  zip_with (fun layer id => grid_map (fun b => (b2z b * id)%Z) layer)
    (layers m) ids.

(** [.any()] of a boolean grid. *)
Definition grid_any (a : grid bool) : bool :=
  existsb (existsb (fun b => b)) a.

(** [a.where(cond)]: keep [a] where [cond] holds, NaN ([None]) elsewhere. *)
Definition where_ {A : Type} (a : grid A) (cond : grid bool)
  : grid (option A) :=
  grid_zip (fun v (c : bool) => if c then Some v else None) a cond.

End Xr.

(** The argument of [flatten_3D_mask]: any python object. *)
Inductive mask_arg : Type :=
| NotDataArray
| IsDataArray (m : Xr.DataArray).

Inductive warning : Type :=
| RuntimeWarning (msg : string).

Definition overlap_warning : warning :=
  RuntimeWarning
    "Found overlapping regions which cannot correctly be reduced to a 2D mask".

Definition nat_to_string (n : nat) : string :=
  NilEmpty.string_of_uint (Nat.to_uint n).

(** The region numbers are an [int64] array, as [Regions.mask_3D]
    builds them; products and sums of such arrays are [int64] again and
    wrap around. *)
Definition int64 : dtype := IntDtype true 64.

(** The multiple of [2 ^ e] nearest to [a >= 0], ties going to the even
    multiple. *)
Definition round_to_even (a e : Z) : Z :=
  let q := (a / 2 ^ e)%Z in
  let r := (a mod 2 ^ e)%Z in
  let half := (2 ^ (e - 1))%Z in
  ((if (r <? half)%Z then q
    else if (half <? r)%Z then q + 1
    else if Z.even q then q else q + 1) * 2 ^ e)%Z.

(** Conversion of an [int64] to [float64]: the nearest number with a
    significand of 53 bits, ties to even.  Such a number is an integer
    again, and is given as one. *)
Definition float64_of_int64 (z : Z) : Z :=
  let a := Z.abs z in
  if (a <=? 2 ^ 53)%Z then z
  else (Z.sgn z * round_to_even a (Z.log2 a - 52))%Z.

(** What [mask_3D.sum("region")] raises when no axis is named region
    (the wording of the message depends on the version of xarray). *)
Definition region_not_a_dimension : exn :=
  ValueError "'region' not found in array dimensions".

(** [flatten_3D_mask mask_3D]: the warnings issued and the returned
    array.  The returned array is a [float64] array: its cells hold the
    integer value of the number, or [None] for NaN. *)
Definition flatten_3D_mask (mask_3D : mask_arg)
  : result (list warning * Xr.grid (option Z)) :=
  match mask_3D with
  | NotDataArray => Raise (ValueError "expected a xarray.DataArray")
  | IsDataArray m =>
      if negb (Xr.da_ndim m =? 3)%nat then
        Raise (ValueError ("``mask_3D`` must have 3 dimensions, found "
                           ++ nat_to_string (Xr.da_ndim m)))
      else if negb (Xr.has_region_coord m) then
        Raise (ValueError "``mask_3D`` must contain the dimension 'region'")
      else
        (* mask_3D.sum("region") needs an axis of that name *)
        match Xr.region m with
        | None => Raise region_not_a_dimension
        | Some ids =>
            let warnings :=
              if Xr.grid_any
                   (Xr.grid_map (fun c => (1 <? c)%Z) (Xr.sum_region m))
              then [overlap_warning] else [] in
            (* flatten the mask: an int64 sum of int64 products *)
            let mask_2D :=
              Xr.grid_map (cast int64)
                (Xr.reduce Z.add 0%Z (Xr.ny m) (Xr.nx m)
                   (Xr.times_region m ids)) in
            (* mask all gridpoints not belonging to any region: NaN
               makes the result a float64 array *)
            Ok (warnings,
                Xr.where_ (Xr.grid_map float64_of_int64 mask_2D)
                  (Xr.any_region m))
        end
  end.

(** ** Geometries *)

Module Shapely.

Definition Coord : Type := (Q * Q)%type.
Definition Ring : Type := list Coord.

Record Polygon : Type := mk_Polygon {
  exterior : Ring;
  interiors : list Ring
}.

(** A geometry: a polygon, a multi-polygon, or a geometry of another
    type (a point, a line string) with its coordinate sequence. *)
Inductive Geometry : Type :=
| GPolygon (p : Polygon)
| GMultiPolygon (geoms : list Polygon)
| GOther (type_name : string) (coords : list Coord).

Definition polygon_coordinates (p : Polygon) : list Coord :=
  (exterior p ++ concat (interiors p))%list.

(** [shapely.get_coordinates]: all vertices as an N x 2 array. *)
Definition get_coordinates (g : Geometry) : list Coord :=
  match g with
  | GPolygon p => polygon_coordinates p
  | GMultiPolygon ps => flat_map polygon_coordinates ps
  | GOther _ cs => cs
  end.

(** Refill the rings of a geometry from a coordinate array, returning
    the rows left over. *)
Definition fill_ring (r : Ring) (arr : list Coord) : Ring * list Coord :=
  (firstn (List.length r) arr, skipn (List.length r) arr).

Fixpoint fill_rings (rs : list Ring) (arr : list Coord)
  : list Ring * list Coord :=
  match rs with
  | [] => ([], arr)
  | r :: rs' =>
      let (r', arr') := fill_ring r arr in
      let (rs'', arr'') := fill_rings rs' arr' in
      (r' :: rs'', arr'')
  end.

Definition fill_polygon (p : Polygon) (arr : list Coord)
  : Polygon * list Coord :=
  let (e, arr') := fill_ring (exterior p) arr in
  let (is_, arr'') := fill_rings (interiors p) arr' in
  (mk_Polygon e is_, arr'').

Fixpoint fill_polygons (ps : list Polygon) (arr : list Coord)
  : list Polygon * list Coord :=
  match ps with
  | [] => ([], arr)
  | p :: ps' =>
      let (p', arr') := fill_polygon p arr in
      let (ps'', arr'') := fill_polygons ps' arr' in
      (p' :: ps'', arr'')
  end.

(** [shapely.set_coordinates]: the same geometry with its vertices
    replaced, in order, by the rows of the array. *)
Definition set_coordinates (g : Geometry) (arr : list Coord)
  : result Geometry :=
  if negb (List.length arr =? List.length (get_coordinates g))%nat then
    Raise (ValueError
             "The coordinate array has an invalid number of coordinates")
  else
    Ok match g with
       | GPolygon p => GPolygon (fst (fill_polygon p arr))
       | GMultiPolygon ps => GMultiPolygon (fst (fill_polygons ps arr))
       | GOther t _ => GOther t arr
       end.

(** GEOS refuses holes in an empty shell: a geometry is empty when it
    has no vertex. *)
Definition is_empty (g : Geometry) : bool :=
  match get_coordinates g with [] => true | _ => false end.

(** One coordinate sequence under [shapely.ops.transform]: the sequence
    is unzipped, the callback is applied to the sequences of x and of y
    values, and its results are zipped again. *)
Definition transform_coords
    (func : list Q -> list Q -> list Q * list Q) (cs : list Coord)
  : list Coord :=
  let (xs, ys) := split cs in
  let (xs', ys') := func xs ys in
  combine xs' ys'.

Definition transform_polygon
    (func : list Q -> list Q -> list Q * list Q) (p : Polygon) : Polygon :=
  if is_empty (GPolygon p) then p
  else mk_Polygon (transform_coords func (exterior p))
                  (map (transform_coords func) (interiors p)).

(** [shapely.ops.transform] *)
Definition transform
    (func : list Q -> list Q -> list Q * list Q) (g : Geometry) : Geometry :=
  if is_empty g then g
  else match g with
       | GPolygon p => GPolygon (transform_polygon func p)
       | GMultiPolygon ps => GMultiPolygon (map (transform_polygon func) ps)
       | GOther t cs => GOther t (transform_coords func cs)
       end.

End Shapely.

(** ** Geometry flattening *)

(** The [for p in polygons] loop of [_flatten_polygons]: [polys] is the
    list built so far, [rest] what remains to be visited. *)
Fixpoint flatten_loop (error : string) (polys : list Shapely.Polygon)
    (rest : list Shapely.Geometry) : result (list Shapely.Polygon) :=
  match rest with
  | [] => Ok polys
  | p :: rest' =>
      match p with
      | Shapely.GMultiPolygon geoms =>
          flatten_loop error (polys ++ geoms)%list rest'
      | Shapely.GPolygon q => flatten_loop error (polys ++ [q])%list rest'
      | Shapely.GOther type_name _ =>
          if String.eqb error "raise" then
            Raise (TypeError
                     ("Expected 'Polygon' or 'MultiPolygon', found "
                      ++ type_name))
          else flatten_loop error polys rest'
      end
  end.

(** [_flatten_polygons polygons error] *)
Definition _flatten_polygons (polygons : list Shapely.Geometry)
    (error : string) : result (list Shapely.Polygon) :=
  if negb (existsb (String.eqb error) ["raise"; "skip"]%string) then
    Raise (ValueError "'error' must be one of 'raise' and 'skip'")
  else flatten_loop error [] polygons.

(** ** Geometry coordinate snapper *)

(** Column [xy_col] of an N x 2 array, [arr[:, xy_col]]: negative indices
    count from the end. *)
Definition column_index (xy_col : Z) : result bool :=
  if ((xy_col =? 0) || (xy_col =? -2))%Z then Ok false
  else if ((xy_col =? 1) || (xy_col =? -1))%Z then Ok true
  else Raise (IndexError "index is out of bounds for axis 1 with size 2").

Definition get_column (is_y : bool) (c : Shapely.Coord) : Q :=
  if is_y then snd c else fst c.

Definition set_column (is_y : bool) (c : Shapely.Coord) (v : Q)
  : Shapely.Coord :=
  if is_y then (fst c, v) else (v, snd c).

(** [_snap_polygon polygon to atol xy_col] *)
Definition _snap_polygon (polygon : Shapely.Geometry) (to atol : Q)
    (xy_col : Z) : result Shapely.Geometry :=
  let arr := Shapely.get_coordinates polygon in
  col <- column_index xy_col ;;
  let sel := map (fun c => Np.isclose (get_column col c) to
                             Np.default_rtol atol) arr in
  (* arr[sel, xy_col] = to *)
  let arr := zip_with (fun (b : bool) c => if b then set_column col c to else c)
               sel arr in
  Shapely.set_coordinates polygon arr.

(** [_snap_polygon_shapely_18 polygon to atol xy_col] *)
Definition _snap_polygon_shapely_18 (polygon : Shapely.Geometry) (to atol : Q)
    (xy_col : Z) : Shapely.Geometry :=
  let _snap_x (x y : list Q) :=
    let sel := map (fun v => Np.isclose v to Np.default_rtol atol) x in
    let x := Np.assign_scalar sel x to in
    (x, y) in
  let _snap_y (x y : list Q) :=
    let sel := map (fun v => Np.isclose v to Np.default_rtol atol) y in
    let y := Np.assign_scalar sel y to in
    (x, y) in
  let _snap_func := if (xy_col =? 0)%Z then _snap_x else _snap_y in
  Shapely.transform _snap_func polygon.

(** The geometry column of a data frame: the rows in order, each with
    its index label (labels are taken to be distinct). *)
Definition DataFrame : Type := list (Z * Shapely.Geometry).

(** [df.loc[i].geometry] *)
Fixpoint loc (df : DataFrame) (i : Z) : result Shapely.Geometry :=
  match df with
  | [] => Raise (KeyError "label not found in the index")
  | (j, g) :: df' => if (i =? j)%Z then Ok g else loc df' i
  end.

(** [df.at[i, "geometry"] = g] on an existing label. *)
Fixpoint set_geometry (df : DataFrame) (i : Z) (g : Shapely.Geometry)
  : DataFrame :=
  match df with
  | [] => []
  | (j, h) :: df' =>
      if (i =? j)%Z then (j, g) :: df' else (j, h) :: set_geometry df' i g
  end.

(** Assignment of one geometry per label, [df.loc[idx, "geometry"] =
    polygons] as well as the loop over [zip(idx, polygons)]. *)
Definition set_geometries (df : DataFrame) (idx : list Z)
    (polygons : list Shapely.Geometry) : DataFrame :=
  fold_left (fun d ip => set_geometry d (fst ip) (snd ip))
    (combine idx polygons) df.

(** [_snap df idx to atol xy_col]; [shapely_gt_2_0_0] is the outcome of
    the version test. *)
Definition _snap (shapely_gt_2_0_0 : bool) (df : DataFrame) (idx : list Z)
    (to atol : Q) (xy_col : Z) : result DataFrame :=
  polygons <- mapM (loc df) idx ;;
  if shapely_gt_2_0_0 then
    polygons <- mapM (fun poly => _snap_polygon poly to atol xy_col)
                  polygons ;;
    Ok (set_geometries df idx polygons)
  else
    let polygons :=
      map (fun poly => _snap_polygon_shapely_18 poly to atol xy_col)
        polygons in
    Ok (set_geometries df idx polygons).

(** [_snap_to_90S] and [_snap_to_180E] *)
Definition _snap_to_90S (v : bool) (df : DataFrame) (idx : list Z) (atol : Q)
  : result DataFrame :=
  _snap v df idx (-90) atol 1.

Definition _snap_to_180E (v : bool) (df : DataFrame) (idx : list Z) (atol : Q)
  : result DataFrame :=
  _snap v df idx 180 atol 0.

(** ** Vocabulary of the statements *)

(** What [_wrapAngle180] does to one element. *)
Definition wrap180_elt (x : Q) : Q :=
  if Np.Qltb x (-180) || Qle_bool 180 x
  then Np.mod_ (x + 180) 360 - 180
  else x.

(** Two angles are congruent modulo 360 when they differ by a whole
    number of turns. *)
Definition congruent360 (a b : Q) : Prop :=
  exists k : Z, a - b == 360 * inject_Z k.

Definition in_0_360 (v : Q) : Prop := 0 <= v /\ v < 360.
Definition in_180_180 (v : Q) : Prop := -180 <= v /\ v < 180.

(** [r] is [x] rounded to [decimals] places: a whole number of units of
    the last place, at most half a unit away from [x]. *)
Definition rounded_to (decimals : nat) (x r : Q) : Prop :=
  (exists k : Z, r == inject_Z k / inject_Z (10 ^ Z.of_nat decimals))
  /\ Qabs (r - x) <= (1 # 2) / inject_Z (10 ^ Z.of_nat decimals).

(** A consecutive difference deviates from the first one when the two
    are not close in the sense of [np.isclose]. *)
Definition deviates (d0 d : Q) : bool :=
  negb (Np.isclose d0 d Np.default_rtol Np.default_atol).

(** For each consecutive difference of [lon], whether it deviates from
    the first difference. *)
Definition deviations (lon : list Q) : list bool :=
  match Np.diff lon with
  | [] => []
  | (d0 :: _) as d => map (deviates d0) d
  end.

Definition deviating_count (lon : list Q) : nat :=
  List.length (filter (fun b : bool => b) (deviations lon)).

(** Position [i] holds the only [true] of [l]. *)
Definition only_true_at (l : list bool) (i : nat) : Prop :=
  (i < List.length l)%nat /\ nth i l false = true
  /\ forall j, (j < List.length l)%nat -> j <> i -> nth j l false = false.

Definition all_false (l : list bool) : Prop :=
  forall j, (j < List.length l)%nat -> nth j l false = false.

(** The failure condition of [_find_splitpoint] in the words of the
    specification. *)
Definition spec_find_splitpoint_failure (lon : list Q) : Prop :=
  _find_splitpoint lon = Raise split_point_error
  <-> deviating_count lon <> 1%nat.

(** An integer is representable in an element type when conversion to
    the type leaves it unchanged. *)
Definition in_range (d : dtype) (z : Z) : Prop := cast d z = z.

(** Number of elements of an array of the given shape. *)
Definition shape_size (sh : list nat) : nat := fold_right Nat.mul 1%nat sh.

(** A numpy array: a positive element width, every element representable
    in the element type, and as many elements as the shape says. *)
Definition wf_int_ndarray (a : int_ndarray) : Prop :=
  (0 < dtype_bits (dt a))%Z
  /\ Forall (in_range (dt a)) (data a)
  /\ List.length (data a) = shape_size (shape a).

(** The exponents [0 .. num_bits - 1] of [np.arange(num_bits, dtype)] are
    representable in the element type. *)
Definition exponents_representable (d : dtype) (num_bits : nat) : Prop :=
  forall k, (k < num_bits)%nat -> in_range d (Z.of_nat k).

(** The result of [unpackbits] in the words of the specification, for
    every bit width: the shape gains a trailing axis, and entry [i, k] is
    bit [k] of element [i]. *)
Definition spec_unpackbits (numbers : int_ndarray) (num_bits : nat) : Prop :=
  exists out,
    unpackbits numbers num_bits = Ok out
    /\ bshape out = (shape numbers ++ [num_bits])%list
    /\ forall i k, (i < List.length (data numbers))%nat ->
         (k < num_bits)%nat ->
         nth (i * num_bits + k) (bdata out) false
         = Z.testbit (nth i (data numbers) 0%Z) (Z.of_nat k).

(** A grid of [ny] rows of [nx] cells. *)
Definition grid_shape {A : Type} (ny nx : nat) (g : Xr.grid A) : Prop :=
  List.length g = ny /\ Forall (fun r => List.length r = nx) g.

(** A three-dimensional mask with region numbers [ids]: the numbers are
    the coordinate of the region axis and are [int64] numbers, with one
    number and one [ny] x [nx] layer per region. *)
Definition wf_mask (m : Xr.DataArray) (ids : list Z) : Prop :=
  Xr.da_ndim m = 3%nat
  /\ Xr.region m = Some ids
  /\ List.length ids = List.length (Xr.layers m)
  /\ Forall (grid_shape (Xr.ny m) (Xr.nx m)) (Xr.layers m)
  /\ Forall (in_range int64) ids.

(** The values of grid cell (y, x) along the region axis. *)
Definition cell (m : Xr.DataArray) (y x : nat) : list bool :=
  map (fun layer => Xr.get layer y x false) (Xr.layers m).

(** Sum over the regions of layer value times region number. *)
Definition weighted_sum (c : list bool) (ids : list Z) : Z :=
  fold_right Z.add 0%Z (zip_with (fun b id => Xr.b2z b * id)%Z c ids).

(** Number of layers in which a cell is true. *)
Definition count_true (c : list bool) : Z :=
  fold_right Z.add 0%Z (map Xr.b2z c).

(** Positions [i] and [j] hold the only two [true] of [l]. *)
Definition only_true_at2 (l : list bool) (i j : nat) : Prop :=
  i <> j /\ (i < List.length l)%nat /\ (j < List.length l)%nat
  /\ nth i l false = true /\ nth j l false = true
  /\ forall k, (k < List.length l)%nat -> k <> i -> k <> j ->
       nth k l false = false.

(** The flattening in the words of the specification: on a
    three-dimensional mask with a region coordinate the call completes,
    and a cell that is true in exactly one layer receives the region
    number of that layer. *)
Definition spec_flatten_3D_mask (m : Xr.DataArray) : Prop :=
  Xr.da_ndim m = 3%nat ->
  Xr.has_region_coord m = true ->
  exists warnings out,
    flatten_3D_mask (IsDataArray m) = Ok (warnings, out)
    /\ forall ids y x r,
         Xr.region m = Some ids ->
         (y < Xr.ny m)%nat -> (x < Xr.nx m)%nat ->
         only_true_at (cell m y x) r ->
         Xr.get out y x None = Some (nth r ids 0%Z).

(** What the snapper does to one vertex: the selected coordinate becomes
    [to] when [np.isclose] holds, and the vertex is kept otherwise. *)
Definition snap_coord (to atol : Q) (is_y : bool) (c : Shapely.Coord)
  : Shapely.Coord :=
  if Np.isclose (get_column is_y c) to Np.default_rtol atol
  then set_column is_y c to
  else c.

(** The snapping rule in the words of the specification: the tolerance
    is the absolute tolerance [atol] alone. *)
Definition spec_snap_coord (to atol : Q) (is_y : bool) (c : Shapely.Coord)
  : Shapely.Coord :=
  if Qle_bool (Qabs (get_column is_y c - to)) atol
  then set_column is_y c to
  else c.

(** The same geometry, ring by ring, with a function applied to every
    vertex. *)
Definition map_polygon (f : Shapely.Coord -> Shapely.Coord)
    (p : Shapely.Polygon) : Shapely.Polygon :=
  Shapely.mk_Polygon (map f (Shapely.exterior p))
                     (map (map f) (Shapely.interiors p)).

Definition map_geometry (f : Shapely.Coord -> Shapely.Coord)
    (g : Shapely.Geometry) : Shapely.Geometry :=
  match g with
  | Shapely.GPolygon p => Shapely.GPolygon (map_polygon f p)
  | Shapely.GMultiPolygon ps => Shapely.GMultiPolygon (map (map_polygon f) ps)
  | Shapely.GOther t cs => Shapely.GOther t (map f cs)
  end.

Definition spec_snap_polygon (g : Shapely.Geometry) (to atol : Q)
    (xy_col : Z) (is_y : bool) : Prop :=
  _snap_polygon g to atol xy_col
  = Ok (map_geometry (spec_snap_coord to atol is_y) g).

(** The polygons and member polygons a geometry contributes to
    [_flatten_polygons]. *)
Definition members (g : Shapely.Geometry) : list Shapely.Polygon :=
  match g with
  | Shapely.GPolygon p => [p]
  | Shapely.GMultiPolygon ps => ps
  | Shapely.GOther _ _ => []
  end.

Definition is_polygonal (g : Shapely.Geometry) : Prop :=
  match g with Shapely.GOther _ _ => False | _ => True end.

Definition is_minimum (m : Q) (l : list Q) : Prop :=
  In m l /\ Forall (fun v => m <= v) l.

Definition is_maximum (m : Q) (l : list Q) : Prop :=
  In m l /\ Forall (fun v => v <= m) l.

Definition cannot_infer_error : exn :=
  ValueError ("lon has data that is larger than 180 and smaller than 0. "
              ++ cannot_infer).

(** The inference rule in the words of the specification: base 180 when
    the observed maximum is at most 180, base 360 otherwise. *)
Definition spec_inference (lon : list Q) (is_unstructured : bool) : Prop :=
  forall mn mx,
    Np.nanmin lon = Ok mn -> Np.nanmax lon = Ok mx ->
    _wrapAngle (Np.Seq lon) WTrue is_unstructured =
      if Np.Qltb (Np.round mn 6) 0 && Np.Qltb 180 (Np.round mx 6)
      then Raise cannot_infer_error
      else if Qle_bool mx 180
           then _wrapAngle (Np.Seq lon) (WNum 180) is_unstructured
           else _wrapAngle (Np.Seq lon) (WNum 360) is_unstructured.

(** ** Further functions of the module *)

(** *** [equally_spaced] *)

(** [np.allclose(a, b)] for a number [a] and a 1-d array [b]. *)
Definition allclose_to (a : Q) (b : list Q) : bool :=
  forallb (fun d => Np.isclose a d Np.default_rtol Np.default_atol) b.

(** [all(...)] over a generator: elements are evaluated in order and the
    evaluation stops at the first false one. *)
Fixpoint all_lazy (l : list (result bool)) : result bool :=
  match l with
  | [] => Ok true
  | r :: t => b <- r ;; if b then all_lazy t else Ok false
  end.

(** [equally_spaced( *args )] *)
Definition equally_spaced (args : list Np.array_like) : result bool :=
  let args := map Np.asarray args in
  if existsb (fun arg => (1 <? Np.ndim arg)%nat) args then Ok false
  else if existsb (fun arg => (Np.size arg <? 2)%nat) args then Ok false
  else
    let d_args := map (fun arg => Np.diff (Np.flat arg)) args in
    all_lazy
      (map (fun d_arg => d0 <- getitem_first d_arg ;;
                         Ok (allclose_to d0 d_arg))
         d_args).

(** *** [_sample_coords] *)

(** [a[i]] on a 1-d array, for [i >= 0]. *)
Definition getitem {A : Type} (a : list A) (i : nat) : result A :=
  match nth_error a i with
  | Some x => Ok x
  | None =>
      Raise (IndexError ("index " ++ nat_to_string i
                         ++ " is out of bounds for axis 0 with size "
                         ++ nat_to_string (List.length a)))
  end.

(** [y[-1] = v] on a non-empty 1-d array. *)
Definition set_last {A : Type} (y : list A) (v : A) : list A :=
  match y with
  | [] => []
  | _ => (removelast y ++ [v])%list
  end.

(** [np.linspace(start, stop, num)], [num >= 0], with the end point. *)
Definition linspace (start stop : Q) (num : nat) : list Q :=
  let div := (num - 1)%nat in
  let y := map (fun j => inject_Z (Z.of_nat j)) (seq 0 num) in
  let delta := stop - start in
  let y :=
    if (0 <? div)%nat then
      let step := delta / inject_Z (Z.of_nat div) in
      map (fun v => v * step + start) y
    else map (fun v => v * delta + start) y in
  if (1 <? num)%nat then set_last y stop else y.

(** [_sample_coords coord]: sample coords for percentage overlap. *)
Definition _sample_coords (coord : list Q) : result (list Q) :=
  let n := 10%nat in
  c1 <- getitem coord 1 ;;
  c0 <- getitem coord 0 ;;
  let d_coord := c1 - c0 in
  let n_cells := List.length coord in
  let n_q := inject_Z (Z.of_nat n) in
  let left := c0 - d_coord / 2 + d_coord / (n_q * 2) in
  c_last <- getitem_last coord ;;
  let right := c_last + d_coord / 2 - d_coord / (n_q * 2) in
  Ok (linspace left right (n_cells * n)).

(** *** Names and abbreviations *)

Module Py.

(** A python [dict] with integer keys: the items in insertion order,
    each key once. *)
Definition dict (V : Type) : Type := list (Z * V).

Fixpoint dict_get {V : Type} (d : dict V) (k : Z) : option V :=
  match d with
  | [] => None
  | (k', v) :: t => if (k =? k')%Z then Some v else dict_get t k
  end.

(** [d[k] = v]: an existing key keeps its place and takes the new value,
    a new key goes to the end. *)
Fixpoint dict_set {V : Type} (d : dict V) (k : Z) (v : V) : dict V :=
  match d with
  | [] => [(k, v)]
  | (k', v') :: t =>
      if (k =? k')%Z then (k', v) :: t else (k', v') :: dict_set t k v
  end.

(** A dict comprehension or [dict(...)] over a sequence of pairs. *)
Definition dict_of_items {V : Type} (items : list (Z * V)) : dict V :=
  fold_left (fun d kv => dict_set d (fst kv) (snd kv)) items [].

Definition keys {V : Type} (d : dict V) : list Z := map fst d.

(** [str(n)] for an integer. *)
Definition str (n : Z) : string := NilZero.string_of_int (Z.to_int n).

End Py.

(** The [values] argument of the helpers: a dict, or a sequence. *)
Inductive dict_or_seq : Type :=
| IsDict (d : Py.dict string)
| IsSeq (l : list string).

(** [_maybe_to_dict keys values]: convert iterable to dict if necessary. *)
Definition _maybe_to_dict (keys : list Z) (values : dict_or_seq)
  : Py.dict string :=
  match values with
  | IsDict d => d
  | IsSeq l => Py.dict_of_items (combine keys l)
  end.

(** [_create_dict_of_numbered_string numbers string] *)
Definition _create_dict_of_numbered_string (numbers : list Z)
    (string_ : string) : Py.dict string :=
  Py.dict_of_items
    (map (fun number => (number, (string_ ++ Py.str number)%string)) numbers).

(** The [values] argument of [_sanitize_names_abbrevs]: a string, [None],
    a dict or a sequence. *)
Inductive names_arg : Type :=
| VStr (s : string)
| VNone
| VOther (v : dict_or_seq).

(** [len(values)] *)
Definition len_values (v : dict_or_seq) : nat :=
  match v with
  | IsDict d => List.length d
  | IsSeq l => List.length l
  end.

(** [_sanitize_names_abbrevs numbers values default] *)
Definition _sanitize_names_abbrevs (numbers : list Z) (values : names_arg)
    (default : string) : result (Py.dict string) :=
  match values with
  | VStr s => Ok (_create_dict_of_numbered_string numbers s)
  | VNone => Ok (_create_dict_of_numbered_string numbers default)
  | VOther v =>
      if negb (List.length numbers =? len_values v)%nat then
        Raise (ValueError
                 "`numbers` and `values` do not have the same length.")
      else Ok (_maybe_to_dict numbers v)
  end.

(** *** [_total_bounds] *)

(** [p.bounds] (shapely 1.8): the tuple (minx, miny, maxx, maxy) of the
    shell, the empty tuple for an empty geometry. *)
Definition shell_coordinates (g : Shapely.Geometry) : list Shapely.Coord :=
  match g with
  | Shapely.GPolygon p => Shapely.exterior p
  | Shapely.GMultiPolygon ps => flat_map Shapely.exterior ps
  | Shapely.GOther _ cs => cs
  end.

Definition bounds (g : Shapely.Geometry) : list Q :=
  match shell_coordinates g with
  | [] => []
  | c :: cs =>
      [fold_left Np.Qmin (map fst cs) (fst c);
       fold_left Np.Qmin (map snd cs) (snd c);
       fold_left Np.Qmax (map fst cs) (fst c);
       fold_left Np.Qmax (map snd cs) (snd c)]
  end.

(** Column [j] of [np.array(rows)], [bounds[:, j]]: an empty list gives
    a 1-d array, rows of one length a 2-d array, and rows of different
    lengths are refused. *)
Definition array_column (rows : list (list Q)) (j : nat)
  : result (list Q) :=
  match rows with
  | [] =>
      Raise (IndexError
               ("too many indices for array: "
                ++ "array is 1-dimensional, but 2 were indexed"))
  | r :: _ =>
      if forallb (fun r' => (List.length r' =? List.length r)%nat) rows then
        mapM (fun r' =>
                match nth_error r' j with
                | Some v => Ok v
                | None =>
                    Raise (IndexError
                             ("index " ++ nat_to_string j
                              ++ " is out of bounds for axis 1 with size "
                              ++ nat_to_string (List.length r)))
                end) rows
      else
        Raise (ValueError
                 ("setting an array element with a sequence. "
                  ++ "The requested array has an inhomogeneous shape"))
  end.

(** [a.min()] and [a.max()] of a 1-d array. *)
Definition array_min (a : list Q) : result Q :=
  match a with
  | [] => Raise (Np.zero_size "minimum")
  | x :: t => Ok (fold_left Np.Qmin t x)
  end.

Definition array_max (a : list Q) : result Q :=
  match a with
  | [] => Raise (Np.zero_size "maximum")
  | x :: t => Ok (fold_left Np.Qmax t x)
  end.

(** [_total_bounds polygons]; [shapely_gt_2_0b1] is the outcome of the
    version test and [shapely_total_bounds] the library function of the
    newer versions. *)
Definition _total_bounds (shapely_gt_2_0b1 : bool)
    (shapely_total_bounds : list Shapely.Geometry -> list Q)
    (polygons : list Shapely.Geometry) : result (list Q) :=
  if shapely_gt_2_0b1 then Ok (shapely_total_bounds polygons)
  else
    let bounds_ := map bounds polygons in
    c0 <- array_column bounds_ 0 ;;
    xmin <- array_min c0 ;;
    c1 <- array_column bounds_ 1 ;;
    ymin <- array_min c1 ;;
    c2 <- array_column bounds_ 2 ;;
    xmax <- array_max c2 ;;
    c3 <- array_column bounds_ 3 ;;
    ymax <- array_max c3 ;;
    Ok [xmin; ymin; xmax; ymax].

(** ** Vocabulary of the further statements *)

(** What [equally_spaced] asks of one argument: a one-dimensional array
    of at least two elements none of whose consecutive differences
    deviates from the first one. *)
Definition evenly_spaced (a : Np.array_like) : Prop :=
  Np.ndim (Np.asarray a) = 1%nat
  /\ (2 <= Np.size (Np.asarray a))%nat
  /\ all_false (deviations (Np.flat (Np.asarray a))).

(** The arguments on which the embedding speaks for [equally_spaced]:
    nested rows have one length ([np.asarray] refuses ragged rows), and
    the elements are small enough for the differences of a 64-bit
    integer array not to wrap around. *)
Definition rectangular (a : Np.array_like) : Prop :=
  match a with
  | Np.Nested rows =>
      forall r r', In r rows -> In r' rows -> List.length r = List.length r'
  | _ => True
  end.

Definition differences_representable (a : Np.array_like) : Prop :=
  Forall (fun v => Qabs v <= inject_Z (2 ^ 62 - 1))
    (Np.flat (Np.asarray a)).

Definition array_argument (a : Np.array_like) : Prop :=
  rectangular a /\ differences_representable a.

(** The ends of the sampled range: half a cell beyond the first and the
    last coordinate, less half a sample step. *)
Definition sample_left (coord : list Q) : Q :=
  let d := nth 1 coord 0 - nth 0 coord 0 in
  nth 0 coord 0 - d / 2 + d / 20.

Definition sample_right (coord : list Q) : Q :=
  let d := nth 1 coord 0 - nth 0 coord 0 in
  nth (List.length coord - 1) coord 0 + d / 2 - d / 20.

(** The integer whose bits, least significant first, are [bits]. *)
Definition pack (bits : list bool) : Z :=
  fold_right (fun b acc => Z.b2z b + 2 * acc)%Z 0%Z bits.

(** Row [i] of a two-dimensional view with rows of [m] entries. *)
Definition row {A : Type} (m i : nat) (flat_ : list A) : list A :=
  firstn m (skipn (i * m) flat_).

(** The x and y values of all shell vertices of a collection. *)
Definition shell_xs (polygons : list Shapely.Geometry) : list Q :=
  map fst (flat_map shell_coordinates polygons).

Definition shell_ys (polygons : list Shapely.Geometry) : list Q :=
  map snd (flat_map shell_coordinates polygons).

(* ================================================================== *)
(** * Part II: properties                                              *)
(* ================================================================== *)

(** ** Rational arithmetic *)

Lemma floor_bounds (x : Q) :
  inject_Z (Qfloor x) <= x /\ x < inject_Z (Qfloor x) + 1.
Proof.
  split; [apply Qfloor_le|].
  pose proof (Qlt_floor x) as H.
  rewrite inject_Z_plus in H. exact H.
Qed.

Lemma floor_unique (x : Q) (k : Z) :
  inject_Z k <= x -> x < inject_Z k + 1 -> Qfloor x = k.
Proof.
  intros H1 H2. destruct (floor_bounds x) as [H3 H4].
  assert (A : inject_Z (Qfloor x) < inject_Z (k + 1))
    by (rewrite inject_Z_plus; change (inject_Z 1) with 1; lra).
  assert (B : inject_Z k < inject_Z (Qfloor x + 1))
    by (rewrite inject_Z_plus; change (inject_Z 1) with 1; lra).
  rewrite <- Zlt_Qlt in A, B. lia.
Qed.

Lemma Qltb_iff (x y : Q) : Np.Qltb x y = true <-> x < y.
Proof.
  unfold Np.Qltb. rewrite negb_true_iff. split; intro H.
  - apply Qnot_le_lt. intro C. apply Qle_bool_iff in C. congruence.
  - destruct (Qle_bool y x) eqn:E; [|reflexivity].
    apply Qle_bool_iff in E. lra.
Qed.

Lemma Qltb_false_iff (x y : Q) : Np.Qltb x y = false <-> y <= x.
Proof.
  unfold Np.Qltb. rewrite negb_false_iff. apply Qle_bool_iff.
Qed.

Lemma Qle_bool_false_iff (x y : Q) : Qle_bool x y = false <-> y < x.
Proof.
  rewrite <- Qltb_iff. unfold Np.Qltb.
  destruct (Qle_bool x y); simpl; intuition congruence.
Qed.

(** ** Longitude normalizer *)

Lemma mod_range (x : Q) : in_0_360 (Np.mod_ x 360).
Proof.
  unfold in_0_360, Np.mod_.
  destruct (floor_bounds (x / 360)) as [H1 H2].
  set (q := inject_Z (Qfloor (x / 360))) in *.
  assert (E : x == 360 * (x / 360)) by field.
  lra.
Qed.

Lemma mod_small (y : Q) : in_0_360 y -> Np.mod_ y 360 == y.
Proof.
  intros [H1 H2]. unfold Np.mod_.
  assert (E : y == 360 * (y / 360)) by field.
  rewrite (floor_unique (y / 360) 0).
  - ring.
  - change (inject_Z 0) with 0. lra.
  - change (inject_Z 0) with 0. lra.
Qed.

Lemma mod_congruent (x : Q) : congruent360 (Np.mod_ x 360) x.
Proof.
  exists (- Qfloor (x / 360))%Z. unfold Np.mod_.
  rewrite inject_Z_opp. ring.
Qed.

Lemma congruent360_trans (a b c : Q) :
  congruent360 a b -> congruent360 b c -> congruent360 a c.
Proof.
  intros [k Hk] [j Hj]. exists (k + j)%Z.
  rewrite inject_Z_plus. lra.
Qed.

(** [_wrapAngle180] is an elementwise map, although it is written with
    boolean-mask indexing. *)
Lemma wrapAngle180_map (lon : list Q) :
  _wrapAngle180 lon = map wrap180_elt lon.
Proof.
  unfold _wrapAngle180, _wrapAngle360.
  induction lon as [|x t IH]; simpl; [reflexivity|].
  unfold wrap180_elt at 1.
  destruct (Np.Qltb x (-180) || Qle_bool 180 x); simpl; f_equal; exact IH.
Qed.

Lemma wrap180_elt_range (x : Q) : in_180_180 (wrap180_elt x).
Proof.
  unfold wrap180_elt, in_180_180.
  destruct (Np.Qltb x (-180)) eqn:E1; simpl.
  - destruct (mod_range (x + 180)). lra.
  - destruct (Qle_bool 180 x) eqn:E2.
    + destruct (mod_range (x + 180)). lra.
    + apply Qltb_false_iff in E1. apply Qle_bool_false_iff in E2. lra.
Qed.

Lemma wrap180_elt_congruent (x : Q) : congruent360 (wrap180_elt x) x.
Proof.
  unfold wrap180_elt.
  destruct (Np.Qltb x (-180) || Qle_bool 180 x).
  - destruct (mod_congruent (x + 180)) as [k Hk]. exists k. lra.
  - exists 0%Z. change (inject_Z 0) with 0. lra.
Qed.

(** The wrapping laws in exact arithmetic (the arithmetic of integer
    arrays): [_wrapAngle360] is idempotent and lands in [0, 360); every
    element of [_wrapAngle180 s] lies in [-180, 180); and
    [_wrapAngle180 (_wrapAngle360 s)] is, element by element, congruent
    to [s] modulo 360. *)
Theorem wrap_angles_laws (s : list Q) :
  Forall2 Qeq (_wrapAngle360 (_wrapAngle360 s)) (_wrapAngle360 s)
  /\ Forall in_0_360 (_wrapAngle360 s)
  /\ Forall in_180_180 (_wrapAngle180 s)
  /\ Forall2 congruent360 (_wrapAngle180 (_wrapAngle360 s)) s.
Proof.
  rewrite !wrapAngle180_map. unfold _wrapAngle360.
  repeat split.
  - induction s as [|x t IH]; simpl; constructor; [|exact IH].
    apply mod_small, mod_range.
  - apply Forall_map, Forall_forall. intros x _. apply mod_range.
  - apply Forall_map, Forall_forall. intros x _. apply wrap180_elt_range.
  - induction s as [|x t IH]; simpl; constructor; [|exact IH].
    eapply congruent360_trans;
      [apply wrap180_elt_congruent | apply mod_congruent].
Qed.

(** C8 on [float64] arrays: [_wrapAngle360] maps the tiny negative number
    [-2^-70] to 360.0, which is not in [[0, 360[], and maps that result
    to 0.0, so it is not idempotent there; [_wrapAngle180] maps the
    number just below -180 to 180.0, which is not in [[-180, 180[]. *)
Lemma wrap_angles_binary64_rounding :
  Binary64._wrapAngle360 [Binary64.tiny_negative] = [Binary64.of_Z 360]
  /\ Binary64.in_0_360 (Binary64.of_Z 360) = false
  /\ Binary64._wrapAngle360 (Binary64._wrapAngle360 [Binary64.tiny_negative])
     = [Binary64.of_Z 0]
  /\ Binary64._wrapAngle180 [Binary64.below_minus_180] = [Binary64.of_Z 180]
  /\ Binary64.in_180_180 (Binary64.of_Z 180) = false.
Proof. vm_compute. repeat split. Qed.

(** *** Inference of the base *)

Lemma rint_near (y : Q) : Qabs (inject_Z (Np.rint y) - y) <= 1 # 2.
Proof.
  unfold Np.rint. destruct (floor_bounds y) as [H1 H2].
  set (f := Qfloor y) in *.
  apply Qabs_Qle_condition.
  destruct (Qcompare_spec (y - inject_Z f) (1 # 2)) as [E|E|E].
  - destruct (Z.even f);
      [|rewrite inject_Z_plus; change (inject_Z 1) with 1]; lra.
  - lra.
  - rewrite inject_Z_plus; change (inject_Z 1) with 1; lra.
Qed.

Lemma round_rounded (x : Q) (d : nat) : rounded_to d x (Np.round x d).
Proof.
  unfold rounded_to, Np.round.
  set (s := inject_Z (10 ^ Z.of_nat d)).
  assert (Hs : 0 < s).
  { unfold s. change 0 with (inject_Z 0). rewrite <- Zlt_Qlt.
    apply Z.pow_pos_nonneg; lia. }
  split; [eexists; reflexivity|].
  pose proof (rint_near (x * s)) as H.
  apply Qabs_Qle_condition in H. apply Qabs_Qle_condition.
  set (r := inject_Z (Np.rint (x * s))) in *.
  assert (E1 : r / s - x == (r - x * s) / s) by (field; lra).
  rewrite E1. split.
  - apply Qle_shift_div_l; [exact Hs|].
    assert (E2 : - ((1 # 2) / s) * s == - (1 # 2)) by (field; lra).
    rewrite E2. lra.
  - apply Qle_shift_div_r; [exact Hs|].
    assert (E2 : ((1 # 2) / s) * s == (1 # 2)) by (field; lra).
    rewrite E2. lra.
Qed.

Lemma fold_Qmin_spec (t : list Q) :
  forall x, is_minimum (fold_left Np.Qmin t x) (x :: t).
Proof.
  unfold is_minimum.
  induction t as [|y t IH]; intros x; simpl.
  - split; [now left|]. constructor; [lra|constructor].
  - destruct (IH (Np.Qmin x y)) as [Hin Hall].
    inversion Hall as [|a l Ha Hl]; subst.
    revert Hin Ha Hl. generalize (fold_left Np.Qmin t (Np.Qmin x y)) as m.
    unfold Np.Qmin. intros m Hin Ha Hl. destruct (Qle_bool x y) eqn:E.
    + apply Qle_bool_iff in E. split.
      * destruct Hin as [Hin|Hin]; [left; exact Hin|right; right; exact Hin].
      * constructor; [exact Ha|]. constructor; [lra|exact Hl].
    + apply Qle_bool_false_iff in E. split.
      * destruct Hin as [Hin|Hin];
          [right; left; exact Hin|right; right; exact Hin].
      * constructor; [lra|]. constructor; [exact Ha|exact Hl].
Qed.

Lemma fold_Qmax_spec (t : list Q) :
  forall x, is_maximum (fold_left Np.Qmax t x) (x :: t).
Proof.
  unfold is_maximum.
  induction t as [|y t IH]; intros x; simpl.
  - split; [now left|]. constructor; [lra|constructor].
  - destruct (IH (Np.Qmax x y)) as [Hin Hall].
    inversion Hall as [|a l Ha Hl]; subst.
    revert Hin Ha Hl. generalize (fold_left Np.Qmax t (Np.Qmax x y)) as m.
    unfold Np.Qmax. intros m Hin Ha Hl. destruct (Qle_bool x y) eqn:E.
    + apply Qle_bool_iff in E. split.
      * destruct Hin as [Hin|Hin];
          [right; left; exact Hin|right; right; exact Hin].
      * constructor; [lra|]. constructor; [exact Ha|exact Hl].
    + apply Qle_bool_false_iff in E. split.
      * destruct Hin as [Hin|Hin]; [left; exact Hin|right; right; exact Hin].
      * constructor; [exact Ha|]. constructor; [lra|exact Hl].
Qed.

(** C1, as the code has it: with [wrap_lon=True] and a non-empty
    sequence, the observed minimum and maximum are rounded to 6 decimal
    places; when the rounded minimum is negative and the rounded maximum
    exceeds 180 the call fails with the cannot-infer [ValueError];
    otherwise the data is wrapped to the other base: to 360 when the
    rounded maximum is at most 180, to 180 when it is larger. *)
Theorem wrapAngle_inference (x : Q) (t : list Q) (is_unstructured : bool) :
  let lon := x :: t in
  exists mn mx,
    is_minimum mn lon /\ is_maximum mx lon
    /\ rounded_to 6 mn (Np.round mn 6) /\ rounded_to 6 mx (Np.round mx 6)
    /\ _wrapAngle (Np.Seq lon) WTrue is_unstructured =
         if Np.Qltb (Np.round mn 6) 0 && Np.Qltb 180 (Np.round mx 6)
         then Raise cannot_infer_error
         else if Qle_bool (Np.round mx 6) 180
              then _wrapAngle (Np.Seq lon) (WNum 360) is_unstructured
              else _wrapAngle (Np.Seq lon) (WNum 180) is_unstructured.
Proof.
  intros lon.
  exists (fold_left Np.Qmin t x), (fold_left Np.Qmax t x).
  split; [apply fold_Qmin_spec|].
  split; [apply fold_Qmax_spec|].
  split; [apply round_rounded|].
  split; [apply round_rounded|].
  unfold _wrapAngle, infer_wrap_lon, lon, Np.nanmin, Np.nanmax, _is_180.
  cbn [Np.asarray Np.flat Np.ndim bind].
  destruct (Np.Qltb (Np.round (fold_left Np.Qmin t x) 6) 0
            && Np.Qltb 180 (Np.round (fold_left Np.Qmax t x) 6));
    cbn [bind]; [reflexivity|].
  destruct (Qle_bool (Np.round (fold_left Np.Qmax t x) 6) 180); reflexivity.
Qed.

(** C1, as the specification words it, fails on [-10, 10]: the maximum
    is below 180, the code wraps to base 360 and returns [350, 10], where
    the sentence selects base 180, which would leave the data unchanged. *)
Lemma spec_inference_counterexample : ~ spec_inference [-10; 10] false.
Proof.
  intros H. specialize (H (-10) 10 eq_refl eq_refl).
  vm_compute in H. discriminate H.
Qed.

(** *** The uniqueness check *)

Lemma insert_unique_InA (x z : Q) (l : list Q) :
  InA Qeq z (Np.insert_unique x l) <-> z == x \/ InA Qeq z l.
Proof.
  induction l as [|y t IH]; simpl.
  - rewrite InA_cons, InA_nil. tauto.
  - destruct (Qeq_bool x y) eqn:E1.
    + apply Qeq_bool_iff in E1. split; [tauto|].
      intros [H|H]; [|exact H]. left. rewrite H. exact E1.
    + destruct (Qle_bool x y) eqn:E2.
      * rewrite InA_cons. tauto.
      * rewrite !InA_cons, IH. tauto.
Qed.

Lemma insert_unique_sorted (x : Q) (l : list Q) :
  StronglySorted Qlt l -> StronglySorted Qlt (Np.insert_unique x l).
Proof.
  induction l as [|y t IH]; simpl; intros Hs.
  - constructor; constructor.
  - destruct (Qeq_bool x y) eqn:E1; [exact Hs|].
    apply Qeq_bool_neq in E1.
    inversion Hs as [|a l Hs' Hall]; subst.
    destruct (Qle_bool x y) eqn:E2.
    + apply Qle_bool_iff in E2.
      assert (Hxy : x < y) by (apply Qle_lt_or_eq in E2; tauto).
      constructor; [exact Hs|]. constructor; [exact Hxy|].
      eapply Forall_impl; [|exact Hall]. intros a Ha. lra.
    + apply Qle_bool_false_iff in E2.
      constructor; [apply IH; exact Hs'|].
      apply Forall_forall. intros a Ha.
      assert (HA : InA Qeq a (Np.insert_unique x t))
        by (apply In_InA; [apply Q_Setoid|exact Ha]).
      apply insert_unique_InA in HA. destruct HA as [HA|HA].
      * rewrite HA. exact E2.
      * apply InA_alt in HA. destruct HA as [b [Hab Hb]].
        rewrite Forall_forall in Hall. rewrite Hab. apply Hall, Hb.
Qed.

Lemma insert_unique_length (x : Q) (l : list Q) :
  StronglySorted Qlt l ->
  (InA Qeq x l -> List.length (Np.insert_unique x l) = List.length l)
  /\ (~ InA Qeq x l ->
      List.length (Np.insert_unique x l) = S (List.length l)).
Proof.
  induction l as [|y t IH]; intros Hs.
  - split; [intros H; inversion H|reflexivity].
  - inversion Hs as [|a l Hs' Hall]; subst.
    destruct (IH Hs') as [IH1 IH2]. cbn [Np.insert_unique].
    destruct (Qeq_bool x y) eqn:E1.
    + apply Qeq_bool_iff in E1. split; [reflexivity|].
      intros H. exfalso. apply H. now constructor.
    + apply Qeq_bool_neq in E1.
      destruct (Qle_bool x y) eqn:E2.
      * apply Qle_bool_iff in E2. split; [|reflexivity].
        intros H. exfalso. apply InA_cons in H.
        destruct H as [H|H]; [tauto|].
        apply InA_alt in H. destruct H as [b [Hxb Hb]].
        rewrite Forall_forall in Hall. specialize (Hall b Hb). lra.
      * cbn [List.length]. rewrite InA_cons. split; intros H; f_equal.
        -- apply IH1. tauto.
        -- apply IH2. tauto.
Qed.

Lemma unique_InA (z : Q) (l : list Q) :
  InA Qeq z (Np.unique l) <-> InA Qeq z l.
Proof.
  induction l as [|x t IH]; simpl; [tauto|].
  rewrite insert_unique_InA, InA_cons, IH. tauto.
Qed.

Lemma unique_sorted (l : list Q) : StronglySorted Qlt (Np.unique l).
Proof.
  induction l as [|x t IH]; simpl; [constructor|].
  apply insert_unique_sorted, IH.
Qed.

(** [np.unique] keeps the length exactly when no two elements are equal. *)
Lemma unique_length (l : list Q) :
  (List.length (Np.unique l) <= List.length l)%nat
  /\ (List.length (Np.unique l) = List.length l <-> NoDupA Qeq l).
Proof.
  induction l as [|x t [IHle IHeq]].
  - split; [simpl; lia|]. split; [constructor|reflexivity].
  - cbn [Np.unique fold_right List.length]. fold (Np.unique t).
    destruct (insert_unique_length x (Np.unique t) (unique_sorted t))
      as [L1 L2].
    rewrite unique_InA in L1, L2.
    destruct (InA_dec Qeq_dec x t) as [H|H].
    + rewrite (L1 H). split; [lia|]. split; [lia|].
      intros Hnd. inversion Hnd; subst. tauto.
    + rewrite (L2 H). split; [lia|]. split.
      * intros E. constructor; [exact H|]. apply IHeq. lia.
      * intros Hnd. inversion Hnd; subst. f_equal. now apply IHeq.
Qed.

Lemma check_unique_spec (l : list Q) :
  (NoDupA Qeq l -> check_unique 1 false l = Ok tt)
  /\ (~ NoDupA Qeq l -> check_unique 1 false l = Raise equal_longitudes).
Proof.
  unfold check_unique. cbn [Nat.eqb negb andb].
  destruct (unique_length l) as [_ Hiff].
  destruct (Nat.eqb_spec (List.length l) (List.length (Np.unique l)))
    as [E|E]; cbn [negb].
  - split; [reflexivity|]. intros H. exfalso. apply H, Hiff. congruence.
  - split; [|reflexivity]. intros H. exfalso. apply E. symmetry.
    now apply Hiff.
Qed.

(** C9: for a structured one-dimensional sequence whose base is given or
    inferred, [_wrapAngle] fails with the equal-longitudes [ValueError]
    whenever the wrapped values are not pairwise distinct, and returns
    them when they are; for unstructured coordinates the check is not
    made and the wrapped values are returned in either case. *)
Theorem wrapAngle_duplicates (lon : list Q) (wrap_lon : wrap_arg) (base : Z) :
  infer_wrap_lon lon wrap_lon = Ok base ->
  let wrapped := wrap_to base lon in
  (~ NoDupA Qeq wrapped ->
     _wrapAngle (Np.Seq lon) wrap_lon false = Raise equal_longitudes)
  /\ (NoDupA Qeq wrapped ->
     _wrapAngle (Np.Seq lon) wrap_lon false = Ok (Np.mk_ndarray 1 wrapped))
  /\ _wrapAngle (Np.Seq lon) wrap_lon true = Ok (Np.mk_ndarray 1 wrapped).
Proof.
  intros Hinf wrapped. unfold _wrapAngle.
  cbn [Np.asarray Np.flat Np.ndim]. rewrite Hinf. cbn [bind].
  fold wrapped. destruct (check_unique_spec wrapped) as [C1 C2].
  repeat split.
  - intros H. rewrite (C2 H). reflexivity.
  - intros H. rewrite (C1 H). reflexivity.
Qed.

Lemma wrapAngle_duplicates_witness :
  infer_wrap_lon [0; 360] (WNum 360) = Ok 360%Z
  /\ _wrapAngle (Np.Seq [0; 360]) (WNum 360) false = Raise equal_longitudes
  /\ _wrapAngle (Np.Seq [0; 360]) (WNum 360) true
     = Ok (Np.mk_ndarray 1 (wrap_to 360 [0; 360])).
Proof.
  split; [reflexivity|].
  destruct (wrapAngle_duplicates [0; 360] (WNum 360) 360 eq_refl)
    as [H1 [_ H3]].
  split; [|exact H3].
  apply H1. intros Hnd. inversion Hnd as [|a l Hn _]; subst.
  apply Hn. constructor. vm_compute. reflexivity.
Defined.

(** ** Equal-spacing analyzer *)

Lemma argwhere_from_nil (l : list bool) (k : nat) :
  argwhere_from k l = [] <-> all_false l.
Proof.
  unfold all_false. revert k. induction l as [|b t IH]; intros k; simpl.
  - split; [intros _ j Hj; lia|reflexivity].
  - destruct b.
    + split; [discriminate|]. intros H. specialize (H 0%nat). simpl in H.
      assert (true = false) by (apply H; lia). discriminate.
    + rewrite IH. split.
      * intros H [|j] Hj; [reflexivity|]. apply H. lia.
      * intros H j Hj. apply (H (S j)). lia.
Qed.

Lemma argwhere_from_single (l : list bool) (k m : nat) :
  argwhere_from k l = [m] <-> exists i, m = (k + i)%nat /\ only_true_at l i.
Proof.
  unfold only_true_at. revert k. induction l as [|b t IH]; intros k.
  - simpl. split; [discriminate|]. intros [i [_ [H _]]]. simpl in H. lia.
  - cbn [argwhere_from]. destruct b.
    + split.
      * intros E. injection E as E1 E2. apply argwhere_from_nil in E2.
        exists 0%nat. split; [lia|]. split; [simpl; lia|].
        split; [reflexivity|].
        intros [|j] Hj Hne; [lia|]. simpl. apply E2. simpl in Hj. lia.
      * intros [i [Hm [Hi [Hn Hall]]]].
        destruct i as [|i].
        -- replace m with k by lia. f_equal. apply argwhere_from_nil.
           intros j Hj. apply (Hall (S j)); simpl; lia.
        -- exfalso. specialize (Hall 0%nat). simpl in Hall.
           assert (true = false) by (apply Hall; lia). discriminate.
    + rewrite IH. split.
      * intros [i [Hm [Hi [Hn Hall]]]]. exists (S i). split; [lia|].
        split; [simpl; lia|]. split; [exact Hn|].
        intros [|j] Hj Hne; [reflexivity|].
        simpl. apply Hall; simpl in Hj; lia.
      * intros [i [Hm [Hi [Hn Hall]]]].
        destruct i as [|i]; [discriminate Hn|].
        exists i. split; [lia|]. split; [simpl in Hi; lia|].
        split; [exact Hn|].
        intros j Hj Hne. apply (Hall (S j)); simpl; lia.
Qed.

Lemma argwhere_from_length (l : list bool) (k : nat) :
  List.length (argwhere_from k l)
  = List.length (filter (fun b : bool => b) l).
Proof.
  revert k. induction l as [|b t IH]; intros k; simpl; [reflexivity|].
  destruct b; simpl; rewrite IH; reflexivity.
Qed.

Lemma sum_bool_filter (l : list bool) :
  sum_bool l = List.length (filter (fun b : bool => b) l).
Proof.
  unfold sum_bool. induction l as [|b t IH]; simpl; [reflexivity|].
  destruct b; simpl; rewrite IH; reflexivity.
Qed.

Lemma sum_bool_one (l : list bool) :
  sum_bool l = 1%nat <-> exists i, only_true_at l i.
Proof.
  rewrite sum_bool_filter, <- (argwhere_from_length l 0).
  split.
  - intros H.
    destruct (argwhere_from 0 l) as [|m [|b r]] eqn:E; try discriminate.
    apply argwhere_from_single in E. destruct E as [i [_ Hi]].
    exists i. exact Hi.
  - intros [i Hi].
    assert (E : argwhere_from 0 l = [i])
      by (apply argwhere_from_single; exists i; split; [reflexivity|exact Hi]).
    rewrite E. reflexivity.
Qed.

Lemma diff_length (l : list Q) :
  List.length (Np.diff l) = (List.length l - 1)%nat.
Proof.
  induction l as [|x [|y t] IH]; try reflexivity.
  change (Np.diff (x :: y :: t)) with ((y - x) :: Np.diff (y :: t)).
  cbn [List.length] in *. rewrite IH. lia.
Qed.

Lemma not_isclose_to_first_deviations (lon : list Q) :
  (2 <= List.length lon)%nat ->
  not_isclose_to_first (Np.diff lon) = Ok (deviations lon)
  /\ List.length (deviations lon) = (List.length lon - 1)%nat.
Proof.
  intros H. pose proof (diff_length lon) as L.
  unfold not_isclose_to_first, deviations.
  destruct (Np.diff lon) as [|d0 d] eqn:E; [simpl in L; lia|].
  split; [reflexivity|]. rewrite length_map. exact L.
Qed.

Lemma deviates_equal (d0 d : Q) : d == d0 -> deviates d0 d = false.
Proof.
  intros E. unfold deviates, Np.isclose. apply negb_false_iff, Qle_bool_iff.
  assert (Z0 : d0 - d == 0) by lra. rewrite Z0.
  pose proof (Qabs_nonneg d). unfold Np.default_rtol, Np.default_atol.
  change (Qabs 0) with 0. lra.
Qed.

Lemma getitem_last_nth {A : Type} (l : list A) (d : A) :
  l <> [] -> getitem_last l = Ok (nth (List.length l - 1) l d).
Proof.
  intros Hne. unfold getitem_last.
  assert (Hlen : (0 < List.length l)%nat)
    by (destruct l; [congruence|simpl; lia]).
  pose proof (rev_nth l d Hlen) as Hn.
  destruct (rev l) as [|x r] eqn:E.
  - apply (f_equal (@List.length A)) in E.
    rewrite length_rev in E. simpl in E. lia.
  - simpl in Hn. rewrite Hn. reflexivity.
Qed.

(** C4, for sequences of at least two elements: [_find_splitpoint]
    returns [i + 1] exactly when the difference at index [i] is the only
    one that deviates from the first difference; it fails with the
    split-point [ValueError] exactly when the number of deviating
    differences is not one, which includes every sequence whose
    differences are all equal; and it does nothing else.  On
    [0, 10, 20, -170, -160] it returns 3. *)
Theorem find_splitpoint_spec (lon : list Q)
    (Hlen : (2 <= List.length lon)%nat) :
  (forall i, _find_splitpoint lon = Ok (i + 1)%nat
             <-> only_true_at (deviations lon) i)
  /\ (_find_splitpoint lon = Raise split_point_error
      <-> deviating_count lon <> 1%nat)
  /\ ((exists i, _find_splitpoint lon = Ok (i + 1)%nat)
      \/ _find_splitpoint lon = Raise split_point_error)
  /\ ((forall d, In d (Np.diff lon) -> d == hd 0 (Np.diff lon)) ->
      _find_splitpoint lon = Raise split_point_error)
  /\ _find_splitpoint [0; 10; 20; -170; -160] = Ok 3%nat.
Proof.
  destruct (not_isclose_to_first_deviations lon Hlen) as [Hflags Hl].
  unfold _find_splitpoint at 1 2 3 4 5, deviating_count.
  rewrite Hflags. cbn [bind].
  rewrite <- (argwhere_from_length (deviations lon) 0).
  fold (argwhere (deviations lon)).
  assert (Hsingle : forall m, argwhere (deviations lon) = [m]
                              <-> only_true_at (deviations lon) m).
  { intros m. unfold argwhere. rewrite argwhere_from_single. split.
    - intros [i [-> H]]. exact H.
    - intros H. exists m. split; [reflexivity|exact H]. }
  assert (Hres : forall i,
     match argwhere (deviations lon) with
     | [i0] => Ok (i0 + 1)%nat
     | _ => Raise split_point_error
     end = Ok (i + 1)%nat
     <-> argwhere (deviations lon) = [i]).
  { intros i. destruct (argwhere (deviations lon)) as [|a [|b r]];
      split; intros E; try discriminate.
    - injection E as E. f_equal. lia.
    - injection E as E. subst. reflexivity. }
  assert (Hraise :
     match argwhere (deviations lon) with
     | [i0] => Ok (i0 + 1)%nat
     | _ => Raise split_point_error
     end = Raise split_point_error
     <-> List.length (argwhere (deviations lon)) <> 1%nat).
  { destruct (argwhere (deviations lon)) as [|a [|b r]]; simpl;
      split; intros E; try discriminate; try reflexivity; try lia. }
  split; [|split; [|split; [|split]]].
  - intros i. rewrite Hres. apply Hsingle.
  - exact Hraise.
  - destruct (argwhere (deviations lon)) as [|a [|b r]];
      [right|left; exists a|right]; reflexivity.
  - intros Hunif. apply Hraise.
    assert (Hnil : argwhere (deviations lon) = []).
    { apply argwhere_from_nil. intros j Hj. unfold deviations in *.
      destruct (Np.diff lon) as [|d0 d]; [simpl in Hj; lia|].
      rewrite length_map in Hj.
      rewrite (nth_indep _ false (deviates d0 0))
        by (rewrite length_map; exact Hj).
      rewrite map_nth. apply deviates_equal. apply Hunif.
      apply nth_In. exact Hj. }
    rewrite Hnil. simpl. lia.
  - vm_compute. reflexivity.
Qed.

Lemma find_splitpoint_spec_witness :
  (2 <= List.length [0; 10; 20; -170; -160]%Q)%nat
  /\ only_true_at (deviations [0; 10; 20; -170; -160]) 2
  /\ _find_splitpoint [0; 10; 20] = Raise split_point_error.
Proof.
  split; [simpl; lia|]. split.
  - destruct (find_splitpoint_spec [0; 10; 20; -170; -160]
                ltac:(simpl; lia)) as [H _].
    apply (H 2%nat). vm_compute. reflexivity.
  - destruct (find_splitpoint_spec [0; 10; 20] ltac:(simpl; lia))
      as [_ [_ [_ [H _]]]].
    apply H. intros d Hd. vm_compute in Hd.
    destruct Hd as [<-|[<-|[]]]; vm_compute; reflexivity.
Defined.

(** C4 as the specification words it, for every sequence, fails on the
    one-element sequence [5]: no difference deviates, yet the call ends
    in an [IndexError] on the empty array of differences and not in the
    split-point failure. *)
Lemma spec_find_splitpoint_failure_counterexample :
  ~ spec_find_splitpoint_failure [5].
Proof.
  intros [_ H].
  assert (E : _find_splitpoint [5] = Raise split_point_error)
    by (apply H; vm_compute; lia).
  vm_compute in E. discriminate E.
Qed.

(** C6: [_equally_spaced_on_split_lon] always returns, and it returns
    true exactly when the input is one-dimensional, has at least two
    elements, has exactly one consecutive difference that deviates from
    the first one, and that difference is not the last one. *)
Theorem equally_spaced_on_split_lon_spec (lon : Np.array_like) :
  exists b, _equally_spaced_on_split_lon lon = Ok b
    /\ (b = true <->
        Np.ndim (Np.asarray lon) = 1%nat
        /\ (2 <= Np.size (Np.asarray lon))%nat
        /\ exists i,
             only_true_at (deviations (Np.flat (Np.asarray lon))) i
             /\ (i + 1
                 < List.length (deviations (Np.flat (Np.asarray lon))))%nat).
Proof.
  unfold _equally_spaced_on_split_lon.
  destruct lon as [x|l|rows]; unfold Np.size;
    cbn [Np.asarray Np.ndim Np.flat].
  - exists false. split; [reflexivity|].
    split; [discriminate|]. intros [H _]. discriminate.
  - change (1 <? 1)%nat with false. cbn [orb].
    destruct (Nat.ltb_spec (List.length l) 2) as [Hs|Hs].
    + exists false. split; [reflexivity|].
      split; [discriminate|]. intros [_ [H _]]. lia.
    + destruct (not_isclose_to_first_deviations l Hs) as [Hflags Hl].
      rewrite Hflags. cbn [bind].
      set (flags := deviations l) in *.
      assert (Hne : flags <> [])
        by (intros E; rewrite E in Hl; simpl in Hl; lia).
      destruct (Nat.eqb_spec (sum_bool flags) 1) as [E1|E1].
      * rewrite (getitem_last_nth flags false Hne). cbn [bind].
        eexists. split; [reflexivity|].
        apply sum_bool_one in E1. destruct E1 as [i Hi].
        rewrite negb_true_iff. split.
        -- intros Hlast. split; [reflexivity|]. split; [exact Hs|].
           exists i. split; [exact Hi|].
           destruct Hi as [Hi1 [Hi2 _]].
           assert (i <> List.length flags - 1)%nat
             by (intros ->; congruence).
           lia.
        -- intros [_ [_ [k [[Hk1 [Hk2 Hk3]] Hk4]]]].
           apply Hk3; lia.
      * exists false. split; [reflexivity|]. split; [discriminate|].
        intros [_ [_ [k [Hk _]]]]. exfalso. apply E1.
        apply sum_bool_one. exists k. exact Hk.
  - exists false. split; [reflexivity|].
    split; [discriminate|]. intros [H _]. discriminate.
Qed.

(** ** Bit unpacker *)

Section Bits.

Local Open Scope Z_scope.

Lemma land_pow2 (n k : Z) : 0 <= k ->
  Z.land n (2 ^ k) = if Z.testbit n k then 2 ^ k else 0.
Proof.
  intros Hk. apply Z.bits_inj'. intros j Hj.
  rewrite Z.land_spec, Z.pow2_bits_eqb by lia.
  destruct (Z.eqb_spec k j) as [->|Hne].
  - destruct (Z.testbit n j);
      [rewrite Z.pow2_bits_true by lia|rewrite Z.bits_0]; reflexivity.
  - rewrite andb_false_r. destruct (Z.testbit n k);
      [rewrite Z.pow2_bits_false by lia|rewrite Z.bits_0]; reflexivity.
Qed.

Lemma land_pow2_nonzero (n k : Z) : 0 <= k ->
  negb (Z.land n (2 ^ k) =? 0) = Z.testbit n k.
Proof.
  intros Hk. rewrite land_pow2 by exact Hk.
  destruct (Z.testbit n k); [|reflexivity].
  assert (0 < 2 ^ k) by (apply Z.pow_pos_nonneg; lia).
  destruct (Z.eqb_spec (2 ^ k) 0); [lia|reflexivity].
Qed.

Lemma testbit_neg_pow2 (p j : Z) : 0 <= p -> 0 <= j ->
  Z.testbit (- 2 ^ p) j = (p <=? j).
Proof.
  intros Hp Hj. rewrite Z.bits_opp by exact Hj.
  rewrite <- Z.ones_equiv.
  destruct (Z.leb_spec p j).
  - rewrite Z.ones_spec_high by lia. reflexivity.
  - rewrite Z.ones_spec_low by lia. reflexivity.
Qed.

Lemma testbit_high_nonneg (n p j : Z) : 0 <= n < 2 ^ p -> 0 <= p <= j ->
  Z.testbit n j = false.
Proof.
  intros Hn Hj. rewrite <- (Z.mod_small n (2 ^ p)) by exact Hn.
  apply Z.mod_pow2_bits_high. lia.
Qed.

Lemma testbit_high_neg (n p j : Z) : - 2 ^ p <= n < 0 -> 0 <= p <= j ->
  Z.testbit n j = true.
Proof.
  intros Hn Hj. replace n with (- (- n)) by lia.
  rewrite Z.bits_opp by lia.
  rewrite (testbit_high_nonneg (Z.pred (- n)) p j); [reflexivity|lia|lia].
Qed.

Lemma land_sign_nonzero (n p : Z) : 0 <= p -> - 2 ^ p <= n < 2 ^ p ->
  negb (Z.land n (- 2 ^ p) =? 0) = Z.testbit n p.
Proof.
  intros Hp Hn. destruct (Z.lt_ge_cases n 0) as [Hneg|Hpos].
  - rewrite (testbit_high_neg n p p) by lia.
    destruct (Z.eqb_spec (Z.land n (- 2 ^ p)) 0) as [E|E]; [|reflexivity].
    exfalso. assert (B : Z.testbit (Z.land n (- 2 ^ p)) p = true).
    { rewrite Z.land_spec, testbit_neg_pow2 by lia.
      rewrite (testbit_high_neg n p p) by lia. rewrite Z.leb_refl.
      reflexivity. }
    rewrite E, Z.bits_0 in B. discriminate.
  - rewrite (testbit_high_nonneg n p p) by lia.
    assert (E : Z.land n (- 2 ^ p) = 0).
    { apply Z.bits_inj'. intros j Hj.
      rewrite Z.land_spec, Z.bits_0, testbit_neg_pow2 by lia.
      destruct (Z.leb_spec p j).
      - rewrite (testbit_high_nonneg n p j) by lia. reflexivity.
      - apply andb_false_r. }
    rewrite E. reflexivity.
Qed.

Lemma pow2_mod_high (k w : Z) : 0 <= w <= k -> 2 ^ k mod 2 ^ w = 0.
Proof.
  intros H. replace k with ((k - w) + w) by lia.
  rewrite Z.pow_add_r by lia. apply Z.mod_mul.
  assert (0 < 2 ^ w) by (apply Z.pow_pos_nonneg; lia). lia.
Qed.

Lemma cast_pow2 (s : bool) (w k : Z) : 0 < w -> 0 <= k ->
  cast (IntDtype s w) (2 ^ k) =
    if k <? w then (if s && (k =? w - 1) then - 2 ^ (w - 1) else 2 ^ k)
    else 0.
Proof.
  intros Hw Hk.
  assert (Hpw : 0 < 2 ^ (w - 1)) by (apply Z.pow_pos_nonneg; lia).
  assert (E2 : 2 ^ w = 2 * 2 ^ (w - 1)).
  { replace w with (1 + (w - 1)) at 1 by lia.
    rewrite Z.pow_add_r by lia. reflexivity. }
  assert (Hpk : 0 < 2 ^ k) by (apply Z.pow_pos_nonneg; lia).
  destruct (Z.ltb_spec k w) as [Hlt|Hge].
  - destruct s; cbn [cast andb].
    + destruct (Z.eqb_spec k (w - 1)) as [->|Hne].
      * replace (2 ^ (w - 1) + 2 ^ (w - 1)) with (2 ^ w) by lia.
        rewrite Z.mod_same by lia. lia.
      * assert (2 ^ k < 2 ^ (w - 1)) by (apply Z.pow_lt_mono_r; lia).
        rewrite Z.mod_small by lia. lia.
    + assert (2 ^ k < 2 ^ w) by (apply Z.pow_lt_mono_r; lia).
      apply Z.mod_small. lia.
  - destruct s; cbn [cast].
    + rewrite Z.add_mod by lia. rewrite pow2_mod_high by lia.
      rewrite Z.add_0_l, Z.mod_mod by lia. rewrite Z.mod_small by lia. lia.
    + apply pow2_mod_high. lia.
Qed.

Lemma in_range_bounds (s : bool) (w n : Z) : 0 < w ->
  in_range (IntDtype s w) n ->
  if s then - 2 ^ (w - 1) <= n < 2 ^ (w - 1) else 0 <= n < 2 ^ w.
Proof.
  unfold in_range. intros Hw H.
  assert (Hpw : 0 < 2 ^ (w - 1)) by (apply Z.pow_pos_nonneg; lia).
  assert (E2 : 2 ^ w = 2 * 2 ^ (w - 1)).
  { replace w with (1 + (w - 1)) at 1 by lia.
    rewrite Z.pow_add_r by lia. reflexivity. }
  destruct s; cbn [cast] in H.
  - pose proof (Z.mod_pos_bound (n + 2 ^ (w - 1)) (2 ^ w)). lia.
  - pose proof (Z.mod_pos_bound n (2 ^ w)). lia.
Qed.

Lemma mask_bit (s : bool) (w n k : Z) : 0 < w -> 0 <= k ->
  in_range (IntDtype s w) n ->
  negb (Z.land n (cast (IntDtype s w) (2 ^ k)) =? 0)
  = (k <? w) && Z.testbit n k.
Proof.
  intros Hw Hk Hn. rewrite cast_pow2 by lia.
  pose proof (in_range_bounds s w n Hw Hn) as B.
  destruct (Z.ltb_spec k w) as [Hlt|Hge]; cbn [andb].
  - destruct s; cbn [andb].
    + destruct (Z.eqb_spec k (w - 1)) as [->|Hne].
      * apply land_sign_nonzero; lia.
      * apply land_pow2_nonzero; lia.
    + apply land_pow2_nonzero; lia.
  - rewrite Z.land_0_r. reflexivity.
Qed.

Lemma arange_exact (d : dtype) (n : nat) :
  exponents_representable d n -> arange n d = map Z.of_nat (seq 0 n).
Proof.
  intros H. unfold arange. apply map_ext_in. intros k Hk.
  apply in_seq in Hk. apply H. lia.
Qed.

Lemma mapM_pow2 (d : dtype) (l : list nat) :
  mapM (pow2 d) (map Z.of_nat l)
  = Ok (map (fun k => cast d (2 ^ Z.of_nat k)) l).
Proof.
  induction l as [|k t IH]; [reflexivity|].
  cbn [map mapM]. rewrite IH. unfold pow2 at 1.
  destruct (Z.ltb_spec (Z.of_nat k) 0); [lia|reflexivity].
Qed.

Lemma concat_rows_length {A : Type} (rows : list (list A)) (m : nat) :
  Forall (fun r => List.length r = m) rows ->
  List.length (concat rows) = (List.length rows * m)%nat.
Proof.
  induction 1 as [|r rows Hr _ IH]; [reflexivity|].
  cbn [concat List.length]. rewrite length_app, IH, Hr. lia.
Qed.

Lemma concat_rows_nth {A : Type} (rows : list (list A)) (m i k : nat) (d : A) :
  Forall (fun r => List.length r = m) rows ->
  (k < m)%nat ->
  nth (i * m + k) (concat rows) d = nth k (nth i rows []) d.
Proof.
  intros Hrows Hk. revert i. induction Hrows as [|r rows Hr _ IH]; intros i.
  - cbn [concat]. destruct (i * m + k)%nat, i, k; reflexivity.
  - destruct i as [|i]; cbn [concat nth].
    + rewrite app_nth1 by lia. reflexivity.
    + rewrite app_nth2 by lia. rewrite <- IH. f_equal. lia.
Qed.

Lemma shape_size_app (sh : list nat) (m : nat) :
  shape_size (sh ++ [m]) = (shape_size sh * m)%nat.
Proof.
  unfold shape_size. induction sh as [|a t IH]; simpl; [lia|].
  rewrite IH. lia.
Qed.

(** C7, as the code has it: on a well-formed array, with the exponents
    [0 .. num_bits - 1] of the mask representable in the element type:
    for a floating-point element type
    [unpackbits] fails with the int-like [ValueError]; for an integer
    element type of width [w] it returns a boolean array whose shape is
    the input shape followed by [num_bits], and whose entry [i, k] tells
    whether bit [k] (bit 0 the least significant) of the stored [w]-bit
    element [i] is set, which for a non-negative element is bit [k] of the
    integer itself.  [unpackbits([5], 4)] is [[True, False, True, False]]. *)
Theorem unpackbits_spec (numbers : int_ndarray) (num_bits : nat) :
  wf_int_ndarray numbers ->
  exponents_representable (dt numbers) num_bits ->
  match dt numbers with
  | FloatDtype _ =>
      unpackbits numbers num_bits
      = Raise (ValueError "numpy data type needs to be int-like")
  | IntDtype _ w =>
      exists out,
        unpackbits numbers num_bits = Ok out
        /\ bshape out = (shape numbers ++ [num_bits])%list
        /\ List.length (bdata out) = shape_size (bshape out)
        /\ forall i k, (i < List.length (data numbers))%nat ->
             (k < num_bits)%nat ->
             let n := nth i (data numbers) 0 in
             let entry := nth (i * num_bits + k) (bdata out) false in
             entry = (Z.of_nat k <? w) && Z.testbit n (Z.of_nat k)
             /\ (0 <= n -> entry = Z.testbit n (Z.of_nat k))
  end
  /\ unpackbits (mk_int_ndarray (IntDtype true 64) [1%nat] [5]) 4
     = Ok (mk_bool_ndarray [1%nat; 4%nat] [true; false; true; false]).
Proof.
  intros [Hw [Hdata Hsize]] Hexp.
  split; [|vm_compute; reflexivity].
  unfold unpackbits.
  destruct numbers as [[s w|w] sh dat];
    cbn [dt shape data dtype_bits is_floating] in *; [|reflexivity].
  rewrite (arange_exact _ _ Hexp), mapM_pow2. cbn [bind].
  eexists. split; [reflexivity|]. cbn [bshape bdata].
  set (mask := map (fun k => cast (IntDtype s w) (2 ^ Z.of_nat k))
                 (seq 0 num_bits)).
  set (row := fun n => map (fun m => negb (Z.land n m =? 0)) mask).
  assert (Hrows : Forall (fun r => List.length r = num_bits) (map row dat)).
  { apply Forall_map, Forall_forall. intros n _. unfold row, mask.
    rewrite !length_map, length_seq. reflexivity. }
  split; [reflexivity|]. split.
  - rewrite (concat_rows_length _ _ Hrows), length_map, shape_size_app. 
    rewrite Hsize. reflexivity.
  - intros i k Hi Hk.
    set (n := nth i dat 0).
    set (entry := nth (i * num_bits + k) _ false).
    assert (Hentry : entry = (Z.of_nat k <? w) && Z.testbit n (Z.of_nat k)).
    { unfold entry. rewrite (concat_rows_nth _ _ _ _ _ Hrows Hk).
      rewrite (nth_indep _ [] (row 0)) by (rewrite length_map; exact Hi).
      rewrite map_nth. fold n. unfold row.
      rewrite (nth_indep _ false (negb (Z.land n 0 =? 0)))
        by (unfold mask; rewrite !length_map, length_seq; exact Hk).
      rewrite (map_nth (fun m => negb (Z.land n m =? 0))).
      unfold mask.
      rewrite (nth_indep _ 0 (cast (IntDtype s w) (2 ^ Z.of_nat 0)))
        by (rewrite length_map, length_seq; exact Hk).
      rewrite (map_nth (fun k => cast (IntDtype s w) (2 ^ Z.of_nat k))).
      rewrite seq_nth by exact Hk. cbn [Nat.add].
      apply mask_bit; [exact Hw|lia|].
      rewrite Forall_forall in Hdata. apply Hdata. apply nth_In. exact Hi. }
    split; [exact Hentry|].
    intros Hn. rewrite Hentry.
    destruct (Z.ltb_spec (Z.of_nat k) w) as [Hlt|Hge]; [reflexivity|].
    cbn [andb]. symmetry.
    assert (Hr : in_range (IntDtype s w) n).
    { rewrite Forall_forall in Hdata. apply Hdata. apply nth_In. exact Hi. }
    pose proof (in_range_bounds s w n Hw Hr) as B.
    apply (testbit_high_nonneg n w); [|lia].
    destruct s; [|lia].
    assert (2 ^ (w - 1) <= 2 ^ w) by (apply Z.pow_le_mono_r; lia). lia.
Qed.

Lemma unpackbits_spec_witness :
  let a := mk_int_ndarray (IntDtype true 64) [1%nat] [5] in
  wf_int_ndarray a
  /\ exponents_representable (dt a) 4
  /\ exists out,
       unpackbits a 4 = Ok out
       /\ bshape out = [1%nat; 4%nat]
       /\ nth 2 (bdata out) false = Z.testbit 5 2.
Proof.
  intros a.
  assert (Hwf : wf_int_ndarray a).
  { split; [reflexivity|]. split; [|reflexivity].
    constructor; [reflexivity|constructor]. }
  assert (Hexp : exponents_representable (dt a) 4).
  { intros [|[|[|[|k]]]] Hk; try reflexivity. lia. }
  split; [exact Hwf|]. split; [exact Hexp|].
  destruct (proj1 (unpackbits_spec a 4 Hwf Hexp))
    as [out [Hout [Hshape [_ Hbits]]]].
  exists out. split; [exact Hout|]. split; [exact Hshape|].
  apply (Hbits 0%nat 2%nat); [simpl; lia|lia|simpl; lia].
Defined.

(** C7 as the specification words it, for every bit width, fails on the
    [uint8] array [1] with [num_bits = 257]: the exponent 256 of the mask
    wraps to 0 in [uint8], so that entry 256 repeats bit 0 and is true,
    while bit 256 of the integer 1 is not set. *)
Lemma spec_unpackbits_counterexample :
  ~ spec_unpackbits (mk_int_ndarray (IntDtype false 8) [1%nat] [1]) 257.
Proof.
  intros [out [Hout [_ Hbits]]].
  specialize (Hbits 0%nat 256%nat ltac:(simpl; lia) ltac:(lia)).
  vm_compute in Hout. injection Hout as <-.
  vm_compute in Hbits. discriminate Hbits.
Qed.

End Bits.

(** ** 3D-to-2D mask flattener *)

Lemma zip_with_length {A B C : Type} (f : A -> B -> C)
    (a : list A) (b : list B) (n : nat) :
  List.length a = n -> List.length b = n ->
  List.length (zip_with f a b) = n.
Proof.
  revert b n.
  induction a as [|x a IH]; intros [|y b] n Ha Hb; simpl in *; try lia.
  destruct n; [lia|]. f_equal. apply IH; lia.
Qed.

Lemma zip_with_nth {A B C : Type} (f : A -> B -> C) (a : list A) (b : list B)
    (i : nat) (da : A) (db : B) (dc : C) :
  (i < List.length a)%nat -> (i < List.length b)%nat ->
  nth i (zip_with f a b) dc = f (nth i a da) (nth i b db).
Proof.
  revert b i.
  induction a as [|x a IH]; intros [|y b] i Ha Hb; simpl in *; try lia.
  destruct i; [reflexivity|]. apply IH; lia.
Qed.


Section Grids.
Context {A B C : Type}.

Lemma grid_zip_shape (f : A -> B -> C) (a : Xr.grid A) (b : Xr.grid B)
    (ny nx : nat) :
  grid_shape ny nx a -> grid_shape ny nx b ->
  grid_shape ny nx (Xr.grid_zip f a b).
Proof.
  intros [Ha1 Ha2] [Hb1 Hb2]. unfold Xr.grid_zip. split.
  - apply zip_with_length; assumption.
  - clear Ha1 Hb1. revert b Hb2.
    induction Ha2 as [|r a Hr _ IH]; intros [|s b] Hb2; simpl;
      try constructor.
    + inversion Hb2; subst. apply zip_with_length; [reflexivity|assumption].
    + inversion Hb2; subst. apply IH. assumption.
Qed.

Lemma grid_zip_get (f : A -> B -> C) (a : Xr.grid A) (b : Xr.grid B)
    (ny nx y x : nat) (da : A) (db : B) (dc : C) :
  grid_shape ny nx a -> grid_shape ny nx b ->
  (y < ny)%nat -> (x < nx)%nat ->
  Xr.get (Xr.grid_zip f a b) y x dc = f (Xr.get a y x da) (Xr.get b y x db).
Proof.
  intros [Ha1 Ha2] [Hb1 Hb2] Hy Hx. unfold Xr.get, Xr.grid_zip.
  rewrite (zip_with_nth _ a b y [] [] []) by lia.
  rewrite Forall_forall in Ha2, Hb2.
  apply zip_with_nth.
  - rewrite (Ha2 (nth y a [])); [exact Hx|]. apply nth_In. lia.
  - rewrite (Hb2 (nth y b [])); [exact Hx|]. apply nth_In. lia.
Qed.

Lemma grid_map_shape (f : A -> B) (a : Xr.grid A) (ny nx : nat) :
  grid_shape ny nx a -> grid_shape ny nx (Xr.grid_map f a).
Proof.
  intros [H1 H2]. unfold Xr.grid_map. split.
  - rewrite length_map. exact H1.
  - apply Forall_map. eapply Forall_impl; [|exact H2].
    intros r Hr. simpl. rewrite length_map. exact Hr.
Qed.

Lemma grid_map_get (f : A -> B) (a : Xr.grid A) (ny nx y x : nat)
    (da : A) (db : B) :
  grid_shape ny nx a -> (y < ny)%nat -> (x < nx)%nat ->
  Xr.get (Xr.grid_map f a) y x db = f (Xr.get a y x da).
Proof.
  intros [H1 H2] Hy Hx. unfold Xr.get, Xr.grid_map.
  rewrite (nth_indep _ [] (map f [])) by (rewrite length_map; lia).
  rewrite (map_nth (map f)).
  assert (Hl : List.length (nth y a []) = nx).
  { rewrite Forall_forall in H2. apply H2. apply nth_In. lia. }
  rewrite (nth_indep _ db (f da)) by (rewrite length_map; lia).
  apply map_nth.
Qed.

Lemma full_shape (ny nx : nat) (v : A) : grid_shape ny nx (Xr.full ny nx v).
Proof.
  unfold Xr.full. split; [apply repeat_length|].
  apply Forall_forall. intros r Hr. apply repeat_spec in Hr. subst.
  apply repeat_length.
Qed.

Lemma full_get (ny nx y x : nat) (v d : A) :
  (y < ny)%nat -> (x < nx)%nat -> Xr.get (Xr.full ny nx v) y x d = v.
Proof.
  intros Hy Hx. unfold Xr.get, Xr.full.
  rewrite (nth_indep _ [] (repeat v nx)) by (rewrite repeat_length; lia).
  rewrite nth_repeat. 
  rewrite (nth_indep _ d v) by (rewrite repeat_length; lia).
  apply nth_repeat.
Qed.
End Grids.

Lemma reduce_spec {A : Type} (f : A -> A -> A) (zero : A) (ny nx : nat)
    (ls : list (Xr.grid A)) :
  Forall (grid_shape ny nx) ls ->
  grid_shape ny nx (Xr.reduce f zero ny nx ls)
  /\ forall y x, (y < ny)%nat -> (x < nx)%nat ->
       Xr.get (Xr.reduce f zero ny nx ls) y x zero
       = fold_right f zero (map (fun l => Xr.get l y x zero) ls).
Proof.
  unfold Xr.reduce. induction 1 as [|l ls Hl _ [IH1 IH2]]; cbn [fold_right map].
  - split; [apply full_shape|]. intros y x Hy Hx. apply full_get; assumption.
  - split; [apply grid_zip_shape; assumption|].
    intros y x Hy Hx.
    rewrite (grid_zip_get f _ _ ny nx y x zero zero) by assumption.
    rewrite IH2 by assumption. reflexivity.
Qed.

Section Flatten.

Local Open Scope Z_scope.

Lemma all_false_cons (b : bool) (c : list bool) :
  all_false (b :: c) -> b = false /\ all_false c.
Proof.
  intros H. split.
  - apply (H 0%nat). simpl. lia.
  - intros j Hj. apply (H (S j)). simpl. lia.
Qed.

Lemma only_true_at_cons (b : bool) (c : list bool) (r : nat) :
  only_true_at (b :: c) r ->
  match r with
  | O => b = true /\ all_false c
  | S r' => b = false /\ only_true_at c r'
  end.
Proof.
  intros [H1 [H2 H3]]. destruct r as [|r].
  - split; [exact H2|]. intros j Hj. apply (H3 (S j)); simpl; lia.
  - split; [apply (H3 0%nat); simpl; lia|].
    split; [simpl in H1; lia|]. split; [exact H2|].
    intros j Hj Hne. apply (H3 (S j)); simpl; lia.
Qed.

Lemma only_true_at2_cons (b : bool) (c : list bool) (i j : nat) :
  only_true_at2 (b :: c) i j ->
  match i, j with
  | O, O => False
  | O, S j' => b = true /\ only_true_at c j'
  | S i', O => b = true /\ only_true_at c i'
  | S i', S j' => b = false /\ only_true_at2 c i' j'
  end.
Proof.
  intros [Hne [Hi [Hj [Ti [Tj Hall]]]]]. simpl in Hi, Hj.
  destruct i as [|i], j as [|j]; [congruence| | |].
  - split; [exact Ti|]. split; [lia|]. split; [exact Tj|].
    intros k Hk Hkj. apply (Hall (S k)); simpl; lia.
  - split; [exact Tj|]. split; [lia|]. split; [exact Ti|].
    intros k Hk Hki. apply (Hall (S k)); simpl; lia.
  - split; [apply (Hall 0%nat); simpl; lia|].
    split; [lia|]. split; [lia|]. split; [lia|].
    split; [exact Ti|]. split; [exact Tj|].
    intros k Hk Hki Hkj. apply (Hall (S k)); simpl; lia.
Qed.

Lemma any_all_false (c : list bool) :
  all_false c -> fold_right orb false c = false.
Proof.
  induction c as [|b c IH]; intros H; [reflexivity|].
  apply all_false_cons in H. destruct H as [-> H]. simpl. apply IH, H.
Qed.

Lemma any_only_true_at (c : list bool) (r : nat) :
  only_true_at c r -> fold_right orb false c = true.
Proof.
  revert r. induction c as [|b c IH]; intros r H.
  - destruct H as [H _]. simpl in H. lia.
  - apply only_true_at_cons in H. destruct r as [|r].
    + destruct H as [-> _]. reflexivity.
    + destruct H as [-> H]. simpl. eapply IH, H.
Qed.

Lemma sums_all_false (c : list bool) (ids : list Z) :
  all_false c -> weighted_sum c ids = 0 /\ count_true c = 0.
Proof.
  unfold weighted_sum, count_true.
  revert ids. induction c as [|b c IH]; intros ids H.
  - split; reflexivity.
  - apply all_false_cons in H. destruct H as [-> H].
    destruct ids as [|id ids]; cbn [zip_with map fold_right Xr.b2z].
    + split; [reflexivity|]. destruct (IH [] H) as [_ E]. lia.
    + destruct (IH ids H) as [E1 E2]. lia.
Qed.

Lemma sums_only_true_at (c : list bool) (ids : list Z) (r : nat) :
  only_true_at c r -> List.length ids = List.length c ->
  weighted_sum c ids = nth r ids 0 /\ count_true c = 1.
Proof.
  unfold weighted_sum, count_true.
  revert ids r. induction c as [|b c IH]; intros ids r H Hlen.
  - destruct H as [H _]. simpl in H. lia.
  - apply only_true_at_cons in H.
    destruct ids as [|id ids]; [discriminate Hlen|].
    injection Hlen as Hlen.
    cbn [zip_with map fold_right].
    destruct r as [|r].
    + destruct H as [-> H]. destruct (sums_all_false c ids H) as [E1 E2].
      unfold weighted_sum, count_true in E1, E2.
      cbn [Xr.b2z nth]. lia.
    + destruct H as [-> H]. destruct (IH ids r H Hlen) as [E1 E2].
      cbn [Xr.b2z nth]. lia.
Qed.

Lemma sums_only_true_at2 (c : list bool) (ids : list Z) (i j : nat) :
  only_true_at2 c i j -> List.length ids = List.length c ->
  weighted_sum c ids = nth i ids 0 + nth j ids 0
  /\ count_true c = 2
  /\ fold_right orb false c = true.
Proof.
  revert ids i j. induction c as [|b c IH]; intros ids i j H Hlen.
  - destruct H as [_ [H _]]. simpl in H. lia.
  - apply only_true_at2_cons in H.
    destruct ids as [|id ids]; [discriminate Hlen|].
    injection Hlen as Hlen.
    unfold weighted_sum, count_true.
    cbn [zip_with map fold_right].
    destruct i as [|i], j as [|j]; [contradiction| | |].
    + destruct H as [-> H].
      destruct (sums_only_true_at c ids j H Hlen) as [E1 E2].
      unfold weighted_sum, count_true in E1, E2.
      cbn [Xr.b2z nth orb]. repeat split; lia.
    + destruct H as [-> H].
      destruct (sums_only_true_at c ids i H Hlen) as [E1 E2].
      unfold weighted_sum, count_true in E1, E2.
      cbn [Xr.b2z nth orb]. repeat split; lia.
    + destruct H as [-> H]. destruct (IH ids i j H Hlen) as [E1 [E2 E3]].
      unfold weighted_sum, count_true in E1, E2.
      cbn [Xr.b2z nth orb]. repeat split; try lia. exact E3.
Qed.

Lemma times_region_cells (ny nx : nat) (ls : list (Xr.grid bool))
    (ids : list Z) :
  Forall (grid_shape ny nx) ls ->
  let gs := zip_with
              (fun layer id => Xr.grid_map (fun b => Xr.b2z b * id) layer)
              ls ids in
  Forall (grid_shape ny nx) gs
  /\ forall y x, (y < ny)%nat -> (x < nx)%nat ->
       map (fun g => Xr.get g y x 0) gs
       = zip_with (fun b id => Xr.b2z b * id)
           (map (fun layer => Xr.get layer y x false) ls) ids.
Proof.
  intros H. revert ids. induction H as [|l ls Hl _ IH]; intros ids.
  - split; [constructor|]. intros; reflexivity.
  - destruct ids as [|id ids]; [split; [constructor|intros; reflexivity]|].
    destruct (IH ids) as [IH1 IH2]. cbn [zip_with map]. split.
    + constructor; [apply grid_map_shape, Hl|exact IH1].
    + intros y x Hy Hx. rewrite IH2 by assumption. f_equal.
      apply (grid_map_get (fun b => Xr.b2z b * id) l ny nx y x false 0);
        assumption.
Qed.

Lemma sum_region_cell (m : Xr.DataArray) :
  Forall (grid_shape (Xr.ny m) (Xr.nx m)) (Xr.layers m) ->
  grid_shape (Xr.ny m) (Xr.nx m) (Xr.sum_region m)
  /\ forall y x, (y < Xr.ny m)%nat -> (x < Xr.nx m)%nat ->
       Xr.get (Xr.sum_region m) y x 0 = count_true (cell m y x).
Proof.
  intros H. unfold Xr.sum_region.
  assert (Hs : Forall (grid_shape (Xr.ny m) (Xr.nx m))
                 (map (Xr.grid_map Xr.b2z) (Xr.layers m))).
  { apply Forall_map. eapply Forall_impl; [|exact H].
    intros l Hl. apply grid_map_shape, Hl. }
  destruct (reduce_spec Z.add 0 _ _ _ Hs) as [R1 R2].
  split; [exact R1|]. intros y x Hy Hx. rewrite R2 by assumption.
  unfold count_true, cell. f_equal. rewrite !map_map.
  apply map_ext_in. intros l Hl. rewrite Forall_forall in H.
  apply (grid_map_get _ l (Xr.ny m) (Xr.nx m)); auto.
Qed.

Lemma grid_any_spec (p : Z -> bool) (g : Xr.grid Z) (ny nx : nat) :
  grid_shape ny nx g ->
  Xr.grid_any (Xr.grid_map p g) = true
  <-> exists y x, (y < ny)%nat /\ (x < nx)%nat /\ p (Xr.get g y x 0) = true.
Proof.
  intros Hg. pose proof (grid_map_shape p g ny nx Hg) as [Hm1 Hm2].
  unfold Xr.grid_any. rewrite existsb_exists. split.
  - intros [row [Hrow Hex]]. apply existsb_exists in Hex.
    destruct Hex as [b [Hb Hbt]].
    destruct (In_nth _ _ [] Hrow) as [y [Hy Ey]].
    assert (Hlen : List.length row = nx)
      by (rewrite Forall_forall in Hm2; apply Hm2, Hrow).
    destruct (In_nth _ _ false Hb) as [x [Hx Ex]].
    exists y, x. split; [lia|]. split; [lia|].
    rewrite <- (grid_map_get p g ny nx y x 0 false Hg) by lia.
    unfold Xr.get. rewrite Ey, Ex. exact Hbt.
  - intros [y [x [Hy [Hx Hp]]]].
    exists (nth y (Xr.grid_map p g) []). split; [apply nth_In; lia|].
    apply existsb_exists. exists (Xr.get (Xr.grid_map p g) y x false).
    split.
    + unfold Xr.get. apply nth_In.
      rewrite Forall_forall in Hm2.
      rewrite (Hm2 (nth y (Xr.grid_map p g) [])); [exact Hx|].
      apply nth_In. lia.
    + rewrite (grid_map_get p g ny nx y x 0 false Hg) by lia. exact Hp.
Qed.

Lemma float64_of_int64_small (z : Z) :
  Z.abs z <= 2 ^ 53 -> float64_of_int64 z = z.
Proof.
  intros H. unfold float64_of_int64.
  apply Z.leb_le in H. rewrite H. reflexivity.
Qed.

Lemma cast_int64_small (z : Z) :
  - 2 ^ 63 <= z < 2 ^ 63 -> cast int64 z = z.
Proof.
  intros H. unfold int64, cast.
  change (2 ^ (64 - 1)) with (2 ^ 63). change (2 ^ 64) with (2 * 2 ^ 63).
  rewrite Z.mod_small; lia.
Qed.

(** [float64_of_int64] agrees with the rounding of the binary64 numbers
    of module [Binary64] on numbers around the ends of the exact range,
    on ties and on the ends of the [int64] range. *)
Lemma float64_of_int64_binary64 :
  Forall (fun z =>
            match Binary64.decode (Binary64.of_Z z) with
            | Some (mant, e) =>
                if 0 <=? e then mant * 2 ^ e else mant / 2 ^ (- e)
            | None => 0
            end = float64_of_int64 z)
    [0; 1; -7; 2 ^ 53 - 1; 2 ^ 53; 2 ^ 53 + 1; 2 ^ 53 + 2; 2 ^ 53 + 3;
     - (2 ^ 53 + 1); - (2 ^ 53 + 3); 2 ^ 54 - 1; 2 ^ 60 + 2 ^ 7;
     2 ^ 60 + 3 * 2 ^ 7; 2 ^ 60 + 2 ^ 7 + 1; 1234567890123456789;
     2 ^ 63 - 1; - 2 ^ 63; - (2 ^ 63 - 2 ^ 9)].
Proof.
  repeat (apply Forall_cons; [vm_compute; reflexivity|]). apply Forall_nil.
Qed.

(** The value of every cell and the warnings of [flatten_3D_mask] on a
    well-formed mask. *)
Lemma flatten_3D_mask_cells (m : Xr.DataArray) (ids : list Z) :
  wf_mask m ids ->
  exists warnings out,
    flatten_3D_mask (IsDataArray m) = Ok (warnings, out)
    /\ grid_shape (Xr.ny m) (Xr.nx m) out
    /\ (forall y x (d : option Z),
          (y < Xr.ny m)%nat -> (x < Xr.nx m)%nat ->
          Xr.get out y x d
          = if fold_right orb false (cell m y x)
            then Some (float64_of_int64
                         (cast int64 (weighted_sum (cell m y x) ids)))
            else None)
    /\ (warnings = [overlap_warning] \/ warnings = [])
    /\ (warnings = [overlap_warning]
        <-> exists y x, (y < Xr.ny m)%nat /\ (x < Xr.nx m)%nat
                        /\ 1 < count_true (cell m y x)).
Proof.
  intros [Hnd [Hreg [Hlen [Hshape _]]]].
  unfold flatten_3D_mask, Xr.has_region_coord. rewrite Hnd, Hreg.
  cbn [Nat.eqb negb].
  destruct (sum_region_cell m Hshape) as [S1 S2].
  destruct (times_region_cells _ _ _ ids Hshape) as [T1 T2].
  fold (Xr.times_region m ids) in T1, T2.
  destruct (reduce_spec Z.add 0 _ _ _ T1) as [M1 M2].
  destruct (reduce_spec orb false _ _ _ Hshape) as [A1 A2].
  fold (Xr.any_region m) in A1, A2.
  set (sums := Xr.reduce Z.add 0 (Xr.ny m) (Xr.nx m)
                 (Xr.times_region m ids)) in *.
  pose proof (grid_map_shape (cast int64) sums _ _ M1) as C1.
  pose proof (grid_map_shape float64_of_int64 _ _ _ C1) as F1.
  pose proof (grid_any_spec (fun c => 1 <? c) _ _ _ S1) as Hany.
  assert (Hwarn :
    Xr.grid_any (Xr.grid_map (fun c => 1 <? c) (Xr.sum_region m)) = true
    <-> exists y x, (y < Xr.ny m)%nat /\ (x < Xr.nx m)%nat
                    /\ 1 < count_true (cell m y x)).
  { rewrite Hany. split; intros [y [x [Hy [Hx H]]]]; exists y, x;
      (split; [exact Hy|split; [exact Hx|]]).
    - rewrite S2 in H by assumption. apply Z.ltb_lt. exact H.
    - rewrite S2 by assumption. apply Z.ltb_lt. exact H. }
  eexists. eexists. split; [reflexivity|].
  split; [apply grid_zip_shape; assumption|].
  split; [|split].
  - intros y x d Hy Hx. unfold Xr.where_.
    rewrite (grid_zip_get _ _ _ (Xr.ny m) (Xr.nx m) y x 0 false d
               F1 A1 Hy Hx).
    rewrite (grid_map_get float64_of_int64 _ (Xr.ny m) (Xr.nx m) y x 0 0
               C1 Hy Hx).
    rewrite (grid_map_get (cast int64) sums (Xr.ny m) (Xr.nx m) y x 0 0
               M1 Hy Hx).
    rewrite A2, M2, T2 by assumption. reflexivity.
  - destruct (Xr.grid_any _); [left|right]; reflexivity.
  - rewrite <- Hwarn.
    destruct (Xr.grid_any _); split; intros H; try reflexivity;
      discriminate.
Qed.

Lemma weighted_sum_one (c : list bool) (ids : list Z) (r : nat) :
  only_true_at c r -> List.length ids = List.length c ->
  Forall (in_range int64) ids ->
  cast int64 (weighted_sum c ids) = nth r ids 0.
Proof.
  intros Hr Hlc Hids.
  destruct (sums_only_true_at c ids r Hr Hlc) as [E _]. rewrite E.
  rewrite Forall_forall in Hids. apply Hids, nth_In.
  destruct Hr as [Hr _]. lia.
Qed.

(** C3, as the code has it: on a three-dimensional mask whose region
    coordinate is the coordinate of its region axis, with [int64] region
    numbers, [flatten_3D_mask] completes and returns a 2D [float64]
    array that holds, at each grid cell, the [float64] value of the
    [int64] sum over the regions of layer value times region number when
    the cell is true in some layer, and the missing value otherwise.
    The value is the sum itself when the sum is at most [2 ^ 53] in
    magnitude.  So a cell true in exactly one layer receives the
    [float64] value of that layer's region number, which is the number
    itself up to [2 ^ 53]; a cell true in no layer receives the missing
    value; and a cell true in exactly two layers numbered 2 and 3
    receives 5, in which case the overlap warning is issued.  The only
    warning ever issued is the overlap warning, issued exactly when some
    cell is true in more than one layer. *)
Theorem flatten_3D_mask_spec (m : Xr.DataArray) (ids : list Z) :
  wf_mask m ids ->
  exists warnings out,
    flatten_3D_mask (IsDataArray m) = Ok (warnings, out)
    /\ grid_shape (Xr.ny m) (Xr.nx m) out
    /\ (forall y x, (y < Xr.ny m)%nat -> (x < Xr.nx m)%nat ->
          let c := cell m y x in
          Xr.get out y x None
            = (if fold_right orb false c
               then Some (float64_of_int64
                            (cast int64 (weighted_sum c ids)))
               else None)
          /\ (fold_right orb false c = true ->
              Z.abs (weighted_sum c ids) <= 2 ^ 53 ->
              Xr.get out y x None = Some (weighted_sum c ids))
          /\ (forall r, only_true_at c r ->
                Xr.get out y x None
                = Some (float64_of_int64 (nth r ids 0))
                /\ (Z.abs (nth r ids 0) <= 2 ^ 53 ->
                    Xr.get out y x None = Some (nth r ids 0)))
          /\ (all_false c -> Xr.get out y x None = None)
          /\ (forall r1 r2, only_true_at2 c r1 r2 ->
                nth r1 ids 0 = 2 -> nth r2 ids 0 = 3 ->
                Xr.get out y x None = Some 5
                /\ warnings = [overlap_warning]))
    /\ (warnings = [overlap_warning] \/ warnings = [])
    /\ (warnings = [overlap_warning]
        <-> exists y x, (y < Xr.ny m)%nat /\ (x < Xr.nx m)%nat
                        /\ 1 < count_true (cell m y x)).
Proof.
  intros Hwf.
  destruct (flatten_3D_mask_cells m ids Hwf)
    as [warnings [out [E [Hshape [Hget [Hw1 Hw2]]]]]].
  destruct Hwf as [_ [_ [Hlen [_ Hids]]]].
  exists warnings, out. split; [exact E|]. split; [exact Hshape|].
  split; [|split; [exact Hw1|exact Hw2]].
  intros y x Hy Hx. cbv zeta. set (c := cell m y x).
  rewrite (Hget y x None Hy Hx). fold c.
  assert (Hlc : List.length ids = List.length c)
    by (unfold c, cell; rewrite length_map; exact Hlen).
  split; [reflexivity|]. split; [|split; [|split]].
  - intros Ha Hs. rewrite Ha.
    rewrite cast_int64_small, float64_of_int64_small; [reflexivity|lia|].
    assert (2 ^ 53 < 2 ^ 63) by (apply Z.pow_lt_mono_r; lia). lia.
  - intros r Hr. rewrite (any_only_true_at c r Hr).
    rewrite (weighted_sum_one c ids r Hr Hlc Hids).
    split; [reflexivity|]. intros Hs.
    rewrite float64_of_int64_small by exact Hs. reflexivity.
  - intros Hc. rewrite (any_all_false c Hc). reflexivity.
  - intros r1 r2 H2 E1 E2.
    destruct (sums_only_true_at2 c ids r1 r2 H2 Hlc) as [Ew [Ec Ea]].
    rewrite Ea, Ew, E1, E2. split; [reflexivity|].
    apply Hw2. exists y, x. split; [exact Hy|]. split; [exact Hx|].
    fold c. lia.
Qed.

Lemma flatten_3D_mask_spec_witness :
  let m := Xr.mk_DataArray 3 1 3 (Some [2; 3])
             [[[true; true; false]]; [[false; true; false]]] false in
  wf_mask m [2; 3]
  /\ exists warnings out,
       flatten_3D_mask (IsDataArray m) = Ok (warnings, out)
       /\ Xr.get out 0 0 None = Some 2
       /\ Xr.get out 0 1 None = Some 5
       /\ Xr.get out 0 2 None = None
       /\ warnings = [overlap_warning].
Proof.
  intros m.
  assert (Hwf : wf_mask m [2; 3]).
  { split; [reflexivity|]. split; [reflexivity|]. split; [reflexivity|].
    split; repeat constructor. }
  split; [exact Hwf|].
  destruct (flatten_3D_mask_spec m [2; 3] Hwf)
    as [warnings [out [Hflat [_ [Hcells _]]]]].
  exists warnings, out. split; [exact Hflat|].
  destruct (Hcells 0%nat 0%nat ltac:(simpl; lia) ltac:(simpl; lia))
    as [_ [_ [H0 _]]].
  destruct (Hcells 0%nat 1%nat ltac:(simpl; lia) ltac:(simpl; lia))
    as [_ [_ [_ [_ H1]]]].
  destruct (Hcells 0%nat 2%nat ltac:(simpl; lia) ltac:(simpl; lia))
    as [_ [_ [_ [H2 _]]]].
  split; [|split; [|split]].
  - apply (H0 0%nat); [|simpl; lia].
    split; [simpl; lia|]. split; [reflexivity|].
    intros [|[|j]] Hj Hne; simpl in *; try reflexivity; lia.
  - apply (H1 0%nat 1%nat); [|reflexivity|reflexivity].
    split; [lia|]. split; [simpl; lia|]. split; [simpl; lia|].
    split; [reflexivity|]. split; [reflexivity|].
    intros [|[|k]] Hk H0' H1'; simpl in *; lia.
  - apply H2. intros [|[|j]] Hj; simpl in *; try reflexivity; lia.
  - apply (H1 0%nat 1%nat); [|reflexivity|reflexivity].
    split; [lia|]. split; [simpl; lia|]. split; [simpl; lia|].
    split; [reflexivity|]. split; [reflexivity|].
    intros [|[|k]] Hk H0' H1'; simpl in *; lia.
Defined.

(** C3, as the specification words it, fails twice.  On a mask with the
    single region number [2 ^ 53 + 1], the cell of that region receives
    [2 ^ 53], the nearest [float64] number, and not the region number.
    On a three-dimensional array whose region coordinate is not the
    coordinate of an axis, the three checks pass and the call fails in
    [mask_3D.sum("region")]. *)
Lemma spec_flatten_3D_mask_counterexample :
  ~ spec_flatten_3D_mask
      (Xr.mk_DataArray 3 1 1 (Some [2 ^ 53 + 1]) [[[true]]] false)
  /\ ~ spec_flatten_3D_mask
         (Xr.mk_DataArray 3 1 1 None [[[true]]] true).
Proof.
  split; intros H.
  - destruct (H eq_refl eq_refl) as [warnings [out [E Hc]]].
    vm_compute in E. injection E as _ <-.
    specialize (Hc [2 ^ 53 + 1] 0%nat 0%nat 0%nat eq_refl
                  ltac:(simpl; lia) ltac:(simpl; lia)).
    assert (Hr : only_true_at
                   (cell (Xr.mk_DataArray 3 1 1 (Some [2 ^ 53 + 1])
                            [[[true]]] false) 0 0) 0).
    { split; [simpl; lia|]. split; [reflexivity|].
      intros [|j] Hj Hne; [congruence|simpl in Hj; lia]. }
    specialize (Hc Hr). vm_compute in Hc. discriminate Hc.
  - destruct (H eq_refl eq_refl) as [warnings [out [E _]]].
    vm_compute in E. discriminate E.
Qed.

End Flatten.

(** ** Geometry flattening *)

Section Flattening.

Local Open Scope string_scope.

Lemma flatten_loop_skip (rest : list Shapely.Geometry)
    (polys : list Shapely.Polygon) :
  flatten_loop "skip" polys rest = Ok (polys ++ flat_map members rest)%list.
Proof.
  revert polys.
  induction rest as [|g rest IH]; intros polys; cbn [flatten_loop flat_map].
  - rewrite app_nil_r. reflexivity.
  - destruct g as [p|ps|t cs]; cbn [members String.eqb Ascii.eqb Bool.eqb].
    + rewrite IH, <- app_assoc. reflexivity.
    + rewrite IH, <- app_assoc. reflexivity.
    + rewrite IH. reflexivity.
Qed.

Lemma flatten_loop_raise_valid (rest : list Shapely.Geometry)
    (polys : list Shapely.Polygon) :
  Forall is_polygonal rest ->
  flatten_loop "raise" polys rest = Ok (polys ++ flat_map members rest)%list.
Proof.
  intros H. revert polys. induction H as [|g rest Hg _ IH]; intros polys;
    cbn [flatten_loop flat_map].
  - rewrite app_nil_r. reflexivity.
  - destruct g as [p|ps|t cs]; cbn [members]; [| |contradiction].
    + rewrite IH, <- app_assoc. reflexivity.
    + rewrite IH, <- app_assoc. reflexivity.
Qed.

Lemma flatten_loop_raise_invalid (valid rest : list Shapely.Geometry)
    (t : string) (cs : list Shapely.Coord) (polys : list Shapely.Polygon) :
  Forall is_polygonal valid ->
  flatten_loop "raise" polys (valid ++ Shapely.GOther t cs :: rest)
  = Raise (TypeError ("Expected 'Polygon' or 'MultiPolygon', found " ++ t)).
Proof.
  intros H. revert polys. induction H as [|g valid Hg _ IH]; intros polys.
  - reflexivity.
  - cbn [app flatten_loop].
    destruct g as [p|ps|t' cs']; [| |contradiction]; apply IH.
Qed.

(** C10: [_flatten_polygons] raises the [ValueError] on every error
    policy other than 'raise' and 'skip', whatever the geometries are;
    with 'raise' it raises the [TypeError] naming the first element that
    is neither a polygon nor a multi-polygon, and returns the
    concatenation when there is none; with 'skip' it returns, in input
    order, each polygon and the member polygons of each multi-polygon,
    dropping every other element. *)
Theorem flatten_polygons_spec (polygons : list Shapely.Geometry) :
  (forall error, error <> "raise" -> error <> "skip" ->
     _flatten_polygons polygons error
     = Raise (ValueError "'error' must be one of 'raise' and 'skip'"))
  /\ (forall valid t cs rest,
        polygons = (valid ++ Shapely.GOther t cs :: rest)%list ->
        Forall is_polygonal valid ->
        _flatten_polygons polygons "raise"
        = Raise (TypeError
                   ("Expected 'Polygon' or 'MultiPolygon', found " ++ t)))
  /\ (Forall is_polygonal polygons ->
      _flatten_polygons polygons "raise" = Ok (flat_map members polygons))
  /\ _flatten_polygons polygons "skip" = Ok (flat_map members polygons).
Proof.
  split; [|split; [|split]].
  - intros error H1 H2. unfold _flatten_polygons. cbn [existsb].
    apply String.eqb_neq in H1, H2. rewrite H1, H2. reflexivity.
  - intros valid t cs rest -> Hv.
    apply (flatten_loop_raise_invalid valid rest t cs [] Hv).
  - intros Hv. apply (flatten_loop_raise_valid polygons [] Hv).
  - apply (flatten_loop_skip polygons []).
Qed.

Lemma flatten_polygons_spec_witness :
  let p := Shapely.mk_Polygon [(0, 0); (1, 0); (1, 1); (0, 0)] [] in
  let polygons :=
    [Shapely.GPolygon p; Shapely.GOther "Point" [(0, 0)];
     Shapely.GMultiPolygon [p; p]] in
  _flatten_polygons polygons "ignore"
  = Raise (ValueError "'error' must be one of 'raise' and 'skip'")
  /\ _flatten_polygons polygons "raise"
     = Raise (TypeError "Expected 'Polygon' or 'MultiPolygon', found Point")
  /\ _flatten_polygons polygons "skip" = Ok [p; p; p].
Proof.
  intros p polygons.
  destruct (flatten_polygons_spec polygons) as [H1 [H2 [_ H4]]].
  split; [apply H1; discriminate|]. split; [|exact H4].
  apply (H2 [Shapely.GPolygon p] "Point" [(0, 0)]
            [Shapely.GMultiPolygon [p; p]] eq_refl).
  repeat constructor.
Defined.

End Flattening.

(** ** Geometry coordinate snapper *)

Section SnapperProofs.

Import Shapely.

Section Snapper.
Variables (to atol : Q).
Variable f : Coord -> Coord.

Lemma fill_ring_map (r : Ring) (rest : list Coord) :
  fill_ring r (map f r ++ rest) = (map f r, rest).
Proof.
  unfold fill_ring. rewrite <- (length_map f r) at 1 2.
  rewrite firstn_app, skipn_app, firstn_all, skipn_all, Nat.sub_diag.
  simpl. rewrite app_nil_r. reflexivity.
Qed.

Lemma fill_rings_map (rs : list Ring) (rest : list Coord) :
  fill_rings rs (map f (concat rs) ++ rest) = (map (map f) rs, rest).
Proof.
  induction rs as [|r rs IH]; [reflexivity|].
  cbn [concat fill_rings map]. rewrite map_app, <- app_assoc.
  rewrite fill_ring_map, IH. reflexivity.
Qed.

Lemma fill_polygon_map (p : Polygon) (rest : list Coord) :
  fill_polygon p (map f (polygon_coordinates p) ++ rest)
  = (map_polygon f p, rest).
Proof.
  unfold fill_polygon, polygon_coordinates.
  rewrite map_app, <- app_assoc, fill_ring_map, fill_rings_map.
  reflexivity.
Qed.

Lemma fill_polygons_map (ps : list Polygon) (rest : list Coord) :
  fill_polygons ps (map f (flat_map polygon_coordinates ps) ++ rest)
  = (map (map_polygon f) ps, rest).
Proof.
  induction ps as [|p ps IH]; [reflexivity|].
  cbn [flat_map fill_polygons map]. rewrite map_app, <- app_assoc.
  rewrite fill_polygon_map, IH. reflexivity.
Qed.

Lemma set_coordinates_map (g : Geometry) :
  set_coordinates g (map f (get_coordinates g)) = Ok (map_geometry f g).
Proof.
  unfold set_coordinates. rewrite length_map, Nat.eqb_refl. cbn [negb].
  f_equal. destruct g as [p|ps|t cs]; cbn [get_coordinates map_geometry].
  - rewrite <- (app_nil_r (map f _)), fill_polygon_map. reflexivity.
  - rewrite <- (app_nil_r (map f _)), fill_polygons_map. reflexivity.
  - reflexivity.
Qed.

Lemma get_coordinates_map (g : Geometry) :
  get_coordinates (map_geometry f g) = map f (get_coordinates g).
Proof.
  assert (P : forall p, polygon_coordinates (map_polygon f p)
                        = map f (polygon_coordinates p)).
  { intros p. unfold polygon_coordinates, map_polygon. cbn [exterior interiors].
    rewrite map_app, concat_map. reflexivity. }
  destruct g as [p|ps|t cs]; cbn [get_coordinates map_geometry].
  - apply P.
  - induction ps as [|p ps IH]; [reflexivity|].
    cbn [flat_map map]. rewrite map_app, P, IH. reflexivity.
  - reflexivity.
Qed.

Lemma map_rings_empty (rs : list Ring) :
  concat rs = [] -> map (map f) rs = rs.
Proof.
  induction rs as [|r rs IH]; [reflexivity|].
  cbn [concat map]. intros H. apply app_eq_nil in H. destruct H as [-> H].
  rewrite (IH H). reflexivity.
Qed.

Lemma map_polygon_empty (p : Polygon) :
  polygon_coordinates p = [] -> map_polygon f p = p.
Proof.
  unfold polygon_coordinates, map_polygon. intros H.
  apply app_eq_nil in H. destruct H as [H1 H2].
  rewrite H1, (map_rings_empty _ H2). destruct p; cbn in *; subst; reflexivity.
Qed.

Lemma map_geometry_empty (g : Geometry) :
  get_coordinates g = [] -> map_geometry f g = g.
Proof.
  destruct g as [p|ps|t cs]; cbn [get_coordinates map_geometry]; intros H.
  - rewrite (map_polygon_empty p H). reflexivity.
  - f_equal. induction ps as [|p ps IH]; [reflexivity|].
    cbn [flat_map] in H. apply app_eq_nil in H. destruct H as [H1 H2].
    cbn [map]. rewrite (map_polygon_empty p H1), (IH H2). reflexivity.
  - subst. reflexivity.
Qed.
End Snapper.

Lemma snap_rows (to atol : Q) (col : bool) (arr : list Coord) :
  zip_with (fun (b : bool) c => if b then set_column col c to else c)
    (map (fun c => Np.isclose (get_column col c) to Np.default_rtol atol) arr)
    arr
  = map (snap_coord to atol col) arr.
Proof.
  induction arr as [|c arr IH]; [reflexivity|].
  cbn [map zip_with]. rewrite IH. reflexivity.
Qed.

Lemma snap_polygon_map (g : Geometry) (to atol : Q) (xy_col : Z) (col : bool) :
  column_index xy_col = Ok col ->
  _snap_polygon g to atol xy_col = Ok (map_geometry (snap_coord to atol col) g).
Proof.
  intros H. unfold _snap_polygon. rewrite H. cbn [bind].
  rewrite snap_rows. apply set_coordinates_map.
Qed.

Lemma transform_coords_snap_x (to atol : Q) (cs : list Coord) :
  transform_coords
    (fun x y : list Q =>
       (Np.assign_scalar
          (map (fun v => Np.isclose v to Np.default_rtol atol) x) x to, y))
    cs
  = map (snap_coord to atol false) cs.
Proof.
  unfold transform_coords.
  induction cs as [|[x y] cs IH]; [reflexivity|].
  cbn [split]. destruct (split cs) as [xs ys].
  cbn [map Np.assign_scalar combine]. rewrite IH.
  unfold snap_coord at 2. cbn [get_column set_column fst snd].
  destruct (Np.isclose x to Np.default_rtol atol); reflexivity.
Qed.

Lemma transform_coords_snap_y (to atol : Q) (cs : list Coord) :
  transform_coords
    (fun x y : list Q =>
       (x, Np.assign_scalar
             (map (fun v => Np.isclose v to Np.default_rtol atol) y) y to))
    cs
  = map (snap_coord to atol true) cs.
Proof.
  unfold transform_coords.
  induction cs as [|[x y] cs IH]; [reflexivity|].
  cbn [split]. destruct (split cs) as [xs ys].
  cbn [map Np.assign_scalar combine]. rewrite IH.
  unfold snap_coord at 2. cbn [get_column set_column fst snd].
  destruct (Np.isclose y to Np.default_rtol atol); reflexivity.
Qed.

Lemma transform_map (func : list Q -> list Q -> list Q * list Q)
    (f : Coord -> Coord) (g : Geometry) :
  (forall cs, transform_coords func cs = map f cs) ->
  transform func g = map_geometry f g.
Proof.
  intros H.
  assert (P : forall p, transform_polygon func p = map_polygon f p).
  { intros p. unfold transform_polygon, is_empty. cbn [get_coordinates].
    destruct (polygon_coordinates p) eqn:E.
    - symmetry. apply map_polygon_empty, E.
    - unfold map_polygon. rewrite H. f_equal. apply map_ext. exact H. }
  unfold transform, is_empty.
  destruct (get_coordinates g) eqn:E.
  - symmetry. apply map_geometry_empty, E.
  - destruct g as [p|ps|t cs]; cbn [map_geometry].
    + rewrite P. reflexivity.
    + f_equal. apply map_ext. exact P.
    + rewrite H. reflexivity.
Qed.

Lemma snap_polygon_shapely_18_map (g : Geometry) (to atol : Q) (xy_col : Z) :
  _snap_polygon_shapely_18 g to atol xy_col
  = map_geometry (snap_coord to atol (negb (xy_col =? 0)%Z)) g.
Proof.
  unfold _snap_polygon_shapely_18. destruct (xy_col =? 0)%Z; cbn [negb].
  - apply transform_map, transform_coords_snap_x.
  - apply transform_map, transform_coords_snap_y.
Qed.

Lemma mapM_total {A B : Type} (f : A -> result B) (h : A -> B) (l : list A) :
  (forall a, f a = Ok (h a)) -> mapM f l = Ok (map h l).
Proof.
  intros H. induction l as [|a l IH]; [reflexivity|].
  cbn [mapM map]. rewrite H, IH. reflexivity.
Qed.

(** C5: for either axis selector (0 for x, 1 for y), the direct
    coordinate-array path [_snap_polygon] succeeds and returns exactly the
    geometry that the coordinate-transform path
    [_snap_polygon_shapely_18] returns; hence [_snap] gives the same data
    frame on either side of the version test. *)
Theorem snap_paths_agree (g : Geometry) (to atol : Q) (xy_col : Z) :
  xy_col = 0%Z \/ xy_col = 1%Z ->
  _snap_polygon g to atol xy_col
    = Ok (_snap_polygon_shapely_18 g to atol xy_col)
  /\ forall df idx,
       _snap true df idx to atol xy_col = _snap false df idx to atol xy_col.
Proof.
  intros H.
  assert (E : forall g0, _snap_polygon g0 to atol xy_col
                 = Ok (_snap_polygon_shapely_18 g0 to atol xy_col)).
  { intros g0. rewrite snap_polygon_shapely_18_map. apply snap_polygon_map.
    destruct H as [-> | ->]; reflexivity. }
  split; [apply E|].
  intros df idx. unfold _snap.
  destruct (mapM (loc df) idx) as [polygons|e]; cbn [bind]; [|reflexivity].
  rewrite (mapM_total _ _ polygons E). reflexivity.
Qed.

Lemma snap_paths_agree_witness :
  let g := GPolygon (mk_Polygon
             [(0, -899999995 # 10000000); (10, -899 # 10); (10, -80);
              (0, -899999995 # 10000000)] []) in
  (1 = 0 \/ 1 = 1)%Z
  /\ _snap_polygon g (-90) (1 # 1000000) 1
     = Ok (_snap_polygon_shapely_18 g (-90) (1 # 1000000) 1).
Proof.
  intros g. split; [right; reflexivity|].
  apply (snap_paths_agree g (-90) (1 # 1000000) 1). right. reflexivity.
Defined.

(** C2, as the code has it: [_snap_polygon] returns the same geometry,
    ring by ring, in which exactly the vertices whose selected coordinate
    [v] satisfies [|v - to| <= atol + 1e-5 * |to|] (the test of
    [np.isclose] with its default relative tolerance) have that
    coordinate replaced by [to], every other coordinate being unchanged.
    Snapping to -90 with [atol = 1e-6] turns y = -89.9999995 into -90 and
    leaves y = -89.9 unchanged. *)
Theorem snap_polygon_spec (g : Geometry) (to atol : Q) (xy_col : Z)
    (col : bool) :
  column_index xy_col = Ok col ->
  exists g',
    _snap_polygon g to atol xy_col = Ok g'
    /\ g' = map_geometry (snap_coord to atol col) g
    /\ get_coordinates g' = map (snap_coord to atol col) (get_coordinates g)
    /\ (forall c,
          (Qabs (get_column col c - to) <= atol + (1 # 100000) * Qabs to ->
           snap_coord to atol col c = set_column col c to
           /\ get_column col (snap_coord to atol col c) = to
           /\ get_column (negb col) (snap_coord to atol col c)
              = get_column (negb col) c)
          /\ (~ Qabs (get_column col c - to)
                <= atol + (1 # 100000) * Qabs to ->
              snap_coord to atol col c = c))
    /\ (forall x, snap_coord (-90) (1 # 1000000) true (x, -89.9999995)
                  = (x, -90))
    /\ (forall x, snap_coord (-90) (1 # 1000000) true (x, -89.9)
                  = (x, -89.9)).
Proof.
  intros H. eexists. split; [apply (snap_polygon_map g to atol xy_col col H)|].
  split; [reflexivity|]. split; [apply get_coordinates_map|].
  split; [|split].
  - intros c. unfold snap_coord, Np.isclose, Np.default_rtol. split.
    + intros Hc. apply Qle_bool_iff in Hc. rewrite Hc.
      split; [reflexivity|]. destruct col, c; split; reflexivity.
    + intros Hc.
      destruct (Qle_bool (Qabs (get_column col c - to))
                  (atol + (1 # 100000) * Qabs to)) eqn:E; [|reflexivity].
      apply Qle_bool_iff in E. contradiction.
  - intros x. reflexivity.
  - intros x. reflexivity.
Qed.

Lemma snap_polygon_spec_witness :
  let g := GPolygon (mk_Polygon
             [(0, -89.9999995); (10, -89.9); (10, -80); (0, -89.9999995)]
             []) in
  column_index 1 = Ok true
  /\ _snap_polygon g (-90) (1 # 1000000) 1
     = Ok (GPolygon (mk_Polygon
             [(0, -90); (10, -89.9); (10, -80); (0, -90)] [])).
Proof.
  intros g. split; [reflexivity|].
  destruct (snap_polygon_spec g (-90) (1 # 1000000) 1 true eq_refl)
    as [g' [Hg [-> _]]].
  rewrite Hg. reflexivity.
Defined.

(** C2 as the specification words it, with [atol] as the whole
    tolerance, fails on a polygon with a vertex at y = -89.9995: the
    vertex is 5e-4 away from -90, farther than [atol = 1e-6], and the
    code still moves it to -90. *)
Lemma spec_snap_polygon_counterexample :
  ~ spec_snap_polygon
      (GPolygon (mk_Polygon
         [(0, -89.9995); (10, -80); (10, -70); (0, -89.9995)] []))
      (-90) (1 # 1000000) 1 true.
Proof.
  unfold spec_snap_polygon. intros H.
  rewrite (snap_polygon_map _ _ _ 1 true eq_refl) in H.
  vm_compute in H. discriminate H.
Qed.

End SnapperProofs.

(* ================================================================== *)
(** * Part III: further properties                                     *)
(* ================================================================== *)

(** ** Equal spacing and split points *)

Lemma all_lazy_spec (l : list (result bool)) :
  (forall r, In r l -> exists b, r = Ok b) ->
  exists b, all_lazy l = Ok b
            /\ (b = true <-> Forall (fun r => r = Ok true) l).
Proof.
  induction l as [|r t IH]; intros H.
  - exists true. split; [reflexivity|]. split; [constructor|reflexivity].
  - destruct (H r (or_introl eq_refl)) as [b ->].
    destruct IH as [b' [E Hb']]; [intros r' Hr'; apply H; now right|].
    cbn [all_lazy bind]. destruct b.
    + exists b'. split; [exact E|]. rewrite Hb'. split.
      * intros Ht. constructor; [reflexivity|exact Ht].
      * intros Ht. inversion Ht; assumption.
    + exists false. split; [reflexivity|]. split; [discriminate|].
      intros Ht. inversion Ht; discriminate.
Qed.

Lemma deviations_cons (d0 : Q) (d : list Q) (l : list Q) :
  Np.diff l = d0 :: d -> deviations l = map (deviates d0) (d0 :: d).
Proof. intros E. unfold deviations. rewrite E. reflexivity. Qed.

Lemma allclose_to_all_false (d0 : Q) (d : list Q) :
  allclose_to d0 d = true <-> all_false (map (deviates d0) d).
Proof.
  unfold allclose_to, all_false. rewrite forallb_forall. split.
  - intros H j Hj. rewrite length_map in Hj.
    rewrite (nth_indep _ false (deviates d0 0))
      by (rewrite length_map; exact Hj).
    rewrite map_nth. unfold deviates. rewrite H; [reflexivity|].
    apply nth_In, Hj.
  - intros H x Hx. destruct (In_nth _ _ 0 Hx) as [j [Hj Ej]].
    specialize (H j). rewrite length_map in H. specialize (H Hj).
    rewrite (nth_indep _ false (deviates d0 0)) in H
      by (rewrite length_map; exact Hj).
    rewrite map_nth, Ej in H. unfold deviates in H.
    apply negb_false_iff in H. exact H.
Qed.

Lemma equally_spaced_one (l : list Q) :
  (2 <= List.length l)%nat ->
  exists b,
    (d0 <- getitem_first (Np.diff l) ;; Ok (allclose_to d0 (Np.diff l))) = Ok b
    /\ (b = true <-> all_false (deviations l)).
Proof.
  intros Hl. pose proof (diff_length l) as L.
  destruct (Np.diff l) as [|d0 d] eqn:E; [simpl in L; lia|].
  cbn [getitem_first bind]. eexists. split; [reflexivity|].
  rewrite (deviations_cons d0 d l E). apply allclose_to_all_false.
Qed.

Lemma equally_spaced_char (args : list Np.array_like) :
  exists b, equally_spaced args = Ok b
            /\ (b = true <-> Forall evenly_spaced args).
Proof.
  unfold equally_spaced.
  destruct (existsb (fun arg => (1 <? Np.ndim arg)%nat)
              (map Np.asarray args)) eqn:E1.
  { exists false. split; [reflexivity|]. split; [discriminate|].
    intros H. exfalso. apply existsb_exists in E1. destruct E1 as [x [Hx Hn]].
    apply in_map_iff in Hx. destruct Hx as [a [<- Ha]].
    rewrite Forall_forall in H. destruct (H a Ha) as [Hd _].
    rewrite Hd in Hn. discriminate. }
  destruct (existsb (fun arg => (Np.size arg <? 2)%nat)
              (map Np.asarray args)) eqn:E2.
  { exists false. split; [reflexivity|]. split; [discriminate|].
    intros H. exfalso. apply existsb_exists in E2. destruct E2 as [x [Hx Hn]].
    apply in_map_iff in Hx. destruct Hx as [a [<- Ha]].
    rewrite Forall_forall in H. destruct (H a Ha) as [_ [Hs _]].
    apply Nat.ltb_lt in Hn. lia. }
  assert (Hargs : forall a, In a args ->
            exists l, a = Np.Seq l /\ (2 <= List.length l)%nat).
  { intros a Ha.
    assert (N1 : (1 <? Np.ndim (Np.asarray a))%nat = false).
    { destruct (1 <? Np.ndim (Np.asarray a))%nat eqn:E; [|reflexivity].
      assert (X : existsb (fun arg => (1 <? Np.ndim arg)%nat)
                    (map Np.asarray args) = true).
      { apply existsb_exists. exists (Np.asarray a).
        split; [apply in_map, Ha|exact E]. }
      congruence. }
    assert (N2 : (Np.size (Np.asarray a) <? 2)%nat = false).
    { destruct (Np.size (Np.asarray a) <? 2)%nat eqn:E; [|reflexivity].
      assert (X : existsb (fun arg => (Np.size arg <? 2)%nat)
                    (map Np.asarray args) = true).
      { apply existsb_exists. exists (Np.asarray a).
        split; [apply in_map, Ha|exact E]. }
      congruence. }
    destruct a as [x|l|rows]; unfold Np.size in N2;
      cbn [Np.asarray Np.ndim Np.flat] in N1, N2.
    - discriminate N2.
    - exists l. split; [reflexivity|]. apply Nat.ltb_ge in N2. exact N2.
    - discriminate N1. }
  clear E1 E2. rewrite !map_map.
  induction args as [|a args IH].
  - exists true. split; [reflexivity|]. split; [constructor|reflexivity].
  - destruct (Hargs a (or_introl eq_refl)) as [l [-> Hl]].
    destruct IH as [b' [Eb' Hb']]; [intros a' Ha'; apply Hargs; now right|].
    cbn [map all_lazy Np.asarray Np.flat].
    destruct (equally_spaced_one l Hl) as [b [Eb Hb]].
    rewrite Eb. cbn [bind]. destruct b.
    + exists b'. split; [exact Eb'|]. rewrite Hb'. split.
      * intros Ht. constructor; [|exact Ht].
        split; [reflexivity|]. split; [exact Hl|]. now apply Hb.
      * intros Ht. inversion Ht; assumption.
    + exists false. split; [reflexivity|]. split; [discriminate|].
      intros Ht. inversion Ht as [|? ? [_ [_ Hf]] _]; subst.
      apply Hb in Hf. discriminate.
Qed.

Lemma diff_nth (l : list Q) (i : nat) :
  (S i < List.length l)%nat ->
  nth i (Np.diff l) 0 = nth (S i) l 0 - nth i l 0.
Proof.
  revert i. induction l as [|x [|y t] IH]; intros i Hi; try (simpl in Hi; lia).
  change (Np.diff (x :: y :: t)) with ((y - x) :: Np.diff (y :: t)).
  destruct i as [|i]; [reflexivity|].
  cbn [nth]. rewrite IH by (simpl in *; lia). reflexivity.
Qed.

Lemma diff_firstn (l : list Q) (k : nat) :
  Np.diff (firstn (S k) l) = firstn k (Np.diff l).
Proof.
  revert k. induction l as [|x [|y t] IH]; intros k.
  - destruct k; reflexivity.
  - destruct k; reflexivity.
  - change (Np.diff (x :: y :: t)) with ((y - x) :: Np.diff (y :: t)).
    destruct k as [|k]; [reflexivity|].
    change (firstn (S (S k)) (x :: y :: t)) with (x :: firstn (S k) (y :: t)).
    cbn [firstn]. rewrite <- IH.
    change (firstn (S k) (y :: t)) with (y :: firstn k t). 
    destruct (firstn k t); reflexivity.
Qed.

(** X1: on arguments that numpy takes as arrays (numbers, sequences,
    nested rows of one length) and whose differences are representable,
    [equally_spaced] does not fail; it returns true exactly when every
    argument is one-dimensional, has at least two elements, and has no
    consecutive difference that deviates from its first difference; in
    particular it returns true when called without arguments. *)
Theorem equally_spaced_spec (args : list Np.array_like) :
  Forall array_argument args ->
  exists b, equally_spaced args = Ok b
            /\ (b = true <-> Forall evenly_spaced args)
            /\ (args = [] -> b = true).
Proof.
  intros _.
  destruct (equally_spaced_char args) as [b [E H]].
  exists b. split; [exact E|]. split; [exact H|].
  intros ->. apply H. constructor.
Qed.

Lemma equally_spaced_spec_witness :
  exists b,
    equally_spaced [Np.Seq [0; 10; 20]; Np.Nested [[1; 2]; [3; 4]]] = Ok b
    /\ b = false.
Proof.
  destruct (equally_spaced_spec
              [Np.Seq [0; 10; 20]; Np.Nested [[1; 2]; [3; 4]]])
    as [b [E [Hb _]]].
  - apply Forall_cons; [|apply Forall_cons; [|apply Forall_nil]].
    + split; [exact I|].
      repeat (apply Forall_cons; [vm_compute; discriminate|]).
      apply Forall_nil.
    + split.
      * intros r r' [<-|[<-|[]]] [<-|[<-|[]]]; reflexivity.
      * repeat (apply Forall_cons; [vm_compute; discriminate|]).
        apply Forall_nil.
  - exists b. split; [exact E|].
    destruct b; [|reflexivity]. exfalso.
    assert (F : Forall evenly_spaced
                  [Np.Seq [0; 10; 20]; Np.Nested [[1; 2]; [3; 4]]])
      by (apply Hb; reflexivity).
    inversion F as [|a l _ F']; subst.
    inversion F' as [|a' l' [Hd _] _]; subst. discriminate Hd.
Defined.

Lemma all_false_sum_bool (l : list bool) :
  all_false l -> sum_bool l = 0%nat /\ argwhere l = [].
Proof.
  intros H. split.
  - rewrite sum_bool_filter, <- (argwhere_from_length l 0).
    apply (argwhere_from_nil l 0) in H. rewrite H. reflexivity.
  - apply (argwhere_from_nil l 0), H.
Qed.

Lemma constant_step_all_false (l : list Q) (step : Q) :
  (forall i, (S i < List.length l)%nat ->
             nth (S i) l 0 - nth i l 0 == step) ->
  all_false (deviations l).
Proof.
  intros H j Hj. pose proof (diff_length l) as L.
  unfold deviations in *.
  destruct (Np.diff l) as [|d0 d] eqn:E; [simpl in Hj; lia|].
  rewrite length_map in Hj.
  rewrite (nth_indep _ false (deviates d0 0)) by (rewrite length_map; exact Hj).
  rewrite map_nth. apply deviates_equal.
  assert (E0 : d0 == step).
  { change d0 with (nth 0 (d0 :: d) 0). rewrite <- E.
    rewrite diff_nth by (rewrite L in Hj; simpl in Hj; lia).
    apply H. rewrite L in Hj. simpl in Hj. lia. }
  apply Qeq_trans with step; [|symmetry; exact E0].
  rewrite <- E, diff_nth by lia. apply H. lia.
Qed.

(** X2: a sequence of at least two elements whose consecutive
    differences all equal one step is equally spaced. *)
Theorem equally_spaced_constant_step (l : list Q) (step : Q) :
  (2 <= List.length l)%nat ->
  (forall i, (S i < List.length l)%nat ->
             nth (S i) l 0 - nth i l 0 == step) ->
  equally_spaced [Np.Seq l] = Ok true.
Proof.
  intros Hl H.
  destruct (equally_spaced_char [Np.Seq l]) as [b [E Hb]].
  rewrite E. f_equal. apply Hb. constructor; [|constructor].
  split; [reflexivity|]. split; [exact Hl|].
  apply (constant_step_all_false l step H).
Qed.

Lemma equally_spaced_constant_step_witness :
  (2 <= List.length [0; 10; 20; 30])%nat
  /\ equally_spaced [Np.Seq [0; 10; 20; 30]] = Ok true.
Proof.
  split; [simpl; lia|].
  apply (equally_spaced_constant_step [0; 10; 20; 30] 10); [simpl; lia|].
  intros [|[|[|i]]] Hi; try reflexivity. simpl in Hi. lia.
Defined.

(** X3: an equally spaced sequence is never accepted as a split
    longitude, and [_find_splitpoint] finds no split point in it. *)
Theorem equally_spaced_excludes_split (lon : Np.array_like) :
  equally_spaced [lon] = Ok true ->
  _equally_spaced_on_split_lon lon = Ok false
  /\ _find_splitpoint (Np.flat (Np.asarray lon)) = Raise split_point_error.
Proof.
  intros H. destruct (equally_spaced_char [lon]) as [b [E Hb]].
  rewrite H in E. injection E as <-.
  assert (Hev : evenly_spaced lon).
  { assert (F : Forall evenly_spaced [lon]) by now apply Hb.
    inversion F; assumption. }
  destruct Hev as [Hd [Hs Hf]].
  destruct lon as [x|l|rows]; try discriminate Hd.
  unfold Np.size in Hs. cbn [Np.asarray Np.flat] in *.
  destruct (not_isclose_to_first_deviations l Hs) as [Hflags _].
  destruct (all_false_sum_bool _ Hf) as [S0 A0].
  split.
  - unfold _equally_spaced_on_split_lon, Np.size.
    cbn [Np.asarray Np.ndim Np.flat].
    change (1 <? 1)%nat with false. cbn [orb].
    destruct (Nat.ltb_spec (List.length l) 2) as [C|_]; [lia|].
    rewrite Hflags. cbn [bind]. rewrite S0. reflexivity.
  - unfold _find_splitpoint. rewrite Hflags. cbn [bind]. rewrite A0.
    reflexivity.
Qed.

Lemma equally_spaced_excludes_split_witness :
  equally_spaced [Np.Seq [0; 10; 20; 30]] = Ok true
  /\ _equally_spaced_on_split_lon (Np.Seq [0; 10; 20; 30]) = Ok false
  /\ _find_splitpoint [0; 10; 20; 30] = Raise split_point_error.
Proof.
  split; [vm_compute; reflexivity|].
  apply (equally_spaced_excludes_split (Np.Seq [0; 10; 20; 30])).
  vm_compute. reflexivity.
Defined.

Lemma deviations_nth (lon : list Q) (j : nat) :
  (S j < List.length lon)%nat ->
  nth j (deviations lon) false
  = deviates (nth 1 lon 0 - nth 0 lon 0) (nth (S j) lon 0 - nth j lon 0).
Proof.
  intros Hj. pose proof (diff_length lon) as L.
  rewrite <- (diff_nth lon 0) by lia. rewrite <- (diff_nth lon j) by lia.
  unfold deviations.
  destruct (Np.diff lon) as [|d0 d] eqn:E; [simpl in L; lia|].
  rewrite (nth_indep _ false (deviates d0 0)) by (rewrite length_map; lia).
  rewrite map_nth. reflexivity.
Qed.

Lemma deviations_head (lon : list Q) : nth 0 (deviations lon) false = false.
Proof.
  unfold deviations. destruct (Np.diff lon) as [|d0 d]; [reflexivity|].
  cbn [map nth]. apply deviates_equal. reflexivity.
Qed.

Lemma deviations_length (lon : list Q) :
  List.length (deviations lon) = (List.length lon - 1)%nat.
Proof.
  pose proof (diff_length lon) as L. unfold deviations.
  destruct (Np.diff lon) as [|d0 d]; [exact L|].
  rewrite length_map. exact L.
Qed.

Lemma find_splitpoint_ok (lon : list Q) (i : nat) :
  _find_splitpoint lon = Ok i <->
  exists k, i = S k /\ only_true_at (deviations lon) k.
Proof.
  unfold _find_splitpoint, not_isclose_to_first, deviations.
  destruct (Np.diff lon) as [|d0 d] eqn:E.
  - cbn [getitem_first bind]. split; [discriminate|].
    intros [k [_ [H _]]]. simpl in H. lia.
  - cbn [getitem_first bind].
    set (flags := map _ (d0 :: d)).
    change (map (deviates d0) (d0 :: d)) with flags.
    split.
    + intros H.
      destruct (argwhere flags) as [|a [|b r]] eqn:A; try discriminate.
      injection H as <-. exists a. split; [lia|].
      apply (argwhere_from_single flags 0 a) in A.
      destruct A as [i' [-> Hi']]. exact Hi'.
    + intros [k [-> Hk]].
      assert (A : argwhere flags = [k]).
      { apply (argwhere_from_single flags 0 k). exists k.
        split; [reflexivity|exact Hk]. }
      rewrite A. f_equal. lia.
Qed.

(** X4: when [_find_splitpoint] returns [i], then [2 <= i < len(lon)],
    the step [lon[i] - lon[i-1]] deviates from the first step
    [lon[1] - lon[0]], and no other step of the sequence does. *)
Theorem find_splitpoint_sound (lon : list Q) (i : nat) :
  _find_splitpoint lon = Ok i ->
  (2 <= i)%nat /\ (i < List.length lon)%nat
  /\ deviates (nth 1 lon 0 - nth 0 lon 0)
       (nth i lon 0 - nth (i - 1) lon 0) = true
  /\ forall j, (1 <= j)%nat -> (j < List.length lon)%nat -> j <> i ->
       deviates (nth 1 lon 0 - nth 0 lon 0)
         (nth j lon 0 - nth (j - 1) lon 0) = false.
Proof.
  intros H. apply find_splitpoint_ok in H.
  destruct H as [k [-> [Hk [Tk Hall]]]].
  rewrite deviations_length in Hk, Hall.
  assert (K0 : k <> 0%nat).
  { intros ->. rewrite deviations_head in Tk. discriminate. }
  split; [lia|]. split; [lia|]. split.
  - replace (S k - 1)%nat with k by lia.
    rewrite <- deviations_nth by lia. exact Tk.
  - intros j J1 J2 Jne. destruct j as [|j]; [lia|].
    replace (S j - 1)%nat with j by lia.
    rewrite <- deviations_nth by lia. apply Hall; lia.
Qed.

Lemma find_splitpoint_sound_witness :
  _find_splitpoint [0; 10; 20; -170; -160] = Ok 3%nat
  /\ (2 <= 3)%nat /\ (3 < List.length [0; 10; 20; -170; -160]%Q)%nat
  /\ deviates (10 - 0) (-170 - 20) = true.
Proof.
  assert (E : _find_splitpoint [0; 10; 20; -170; -160] = Ok 3%nat)
    by (vm_compute; reflexivity).
  destruct (find_splitpoint_sound _ _ E) as [H1 [H2 [H3 _]]].
  split; [exact E|]. split; [exact H1|]. split; [exact H2|exact H3].
Defined.

Lemma deviations_firstn (l : list Q) (k : nat) :
  (1 <= k)%nat ->
  deviations (firstn (S k) l) = firstn k (deviations l).
Proof.
  intros Hk. unfold deviations. rewrite diff_firstn.
  destruct (Np.diff l) as [|d0 d]; [destruct k; reflexivity|].
  destruct k as [|k]; [lia|].
  cbn [firstn]. cbn [map]. rewrite firstn_map. reflexivity.
Qed.

(** X5: whenever [_equally_spaced_on_split_lon] accepts a sequence,
    [_find_splitpoint] succeeds on it, the split index leaves at least
    two elements on either side, and the part before the split point,
    [lon[:i]], is equally spaced. *)
Theorem split_lon_has_splitpoint (lon : Np.array_like) :
  _equally_spaced_on_split_lon lon = Ok true ->
  exists l i,
    lon = Np.Seq l
    /\ _find_splitpoint l = Ok i
    /\ (2 <= i)%nat /\ (i + 2 <= List.length l)%nat
    /\ equally_spaced [Np.Seq (firstn i l)] = Ok true.
Proof.
  unfold _equally_spaced_on_split_lon.
  destruct lon as [x|l|rows]; unfold Np.size;
    cbn [Np.asarray Np.ndim Np.flat]; try discriminate.
  change (1 <? 1)%nat with false. cbn [orb].
  destruct (Nat.ltb_spec (List.length l) 2) as [Hs|Hs]; [discriminate|].
  destruct (not_isclose_to_first_deviations l Hs) as [Hflags Hl].
  rewrite Hflags. cbn [bind].
  destruct (Nat.eqb_spec (sum_bool (deviations l)) 1) as [E1|E1];
    [|discriminate].
  assert (Hne : deviations l <> [])
    by (intros E; rewrite E in Hl; simpl in Hl; lia).
  rewrite (getitem_last_nth _ false Hne). cbn [bind].
  intros H. injection H as H. apply negb_true_iff in H.
  apply sum_bool_one in E1. destruct E1 as [k Hk].
  assert (K0 : k <> 0%nat).
  { intros ->. destruct Hk as [_ [Tk _]].
    rewrite deviations_head in Tk. discriminate. }
  assert (K1 : k <> (List.length (deviations l) - 1)%nat).
  { intros ->. destruct Hk as [_ [Tk _]]. congruence. }
  pose proof Hk as [Hk1 [Hk2 Hk3]].
  exists l, (S k). split; [reflexivity|].
  split; [apply find_splitpoint_ok; exists k; split; [reflexivity|exact Hk]|].
  split; [lia|]. split; [lia|].
  destruct (equally_spaced_char [Np.Seq (firstn (S k) l)]) as [b [E Hb]].
  rewrite E. f_equal. apply Hb. constructor; [|constructor].
  unfold evenly_spaced, Np.size. cbn [Np.asarray Np.ndim Np.flat].
  split; [reflexivity|]. split; [rewrite length_firstn; lia|].
  rewrite deviations_firstn by lia.
  intros j Hj. rewrite length_firstn in Hj.
  rewrite nth_firstn.
  destruct (Nat.ltb_spec j k) as [Hjk|Hjk]; [|lia].
  apply Hk3; lia.
Qed.

Lemma split_lon_has_splitpoint_witness :
  _equally_spaced_on_split_lon (Np.Seq [0; 10; 20; -170; -160]) = Ok true
  /\ exists l i,
       Np.Seq [0; 10; 20; -170; -160] = Np.Seq l
       /\ _find_splitpoint l = Ok i
       /\ (2 <= i)%nat /\ (i + 2 <= List.length l)%nat
       /\ equally_spaced [Np.Seq (firstn i l)] = Ok true.
Proof.
  split; [vm_compute; reflexivity|].
  apply (split_lon_has_splitpoint (Np.Seq [0; 10; 20; -170; -160])).
  vm_compute. reflexivity.
Defined.

(** ** Sampling of the coordinates *)

Section SampleCoords.

Lemma set_last_length {A : Type} (y : list A) (v : A) :
  List.length (set_last y v) = List.length y.
Proof.
  destruct y as [|a y]; [reflexivity|]. unfold set_last.
  rewrite length_app, removelast_firstn_len, length_firstn. simpl. lia.
Qed.

Lemma set_last_nth {A : Type} (y : list A) (v d : A) (j : nat) :
  (j < List.length y)%nat ->
  nth j (set_last y v) d
  = if (S j =? List.length y)%nat then v else nth j y d.
Proof.
  intros Hj. destruct y as [|a y]; [simpl in Hj; lia|].
  unfold set_last. rewrite removelast_firstn_len.
  destruct (Nat.eqb_spec (S j) (List.length (a :: y))) as [E|E].
  - rewrite app_nth2 by (rewrite length_firstn; simpl in *; lia).
    rewrite length_firstn.
    replace (j - _)%nat with 0%nat by (simpl in *; lia). reflexivity.
  - rewrite app_nth1 by (rewrite length_firstn; simpl in *; lia).
    rewrite nth_firstn.
    destruct (Nat.ltb_spec j (Nat.pred (List.length (a :: y)))); [reflexivity|].
    simpl in *. lia.
Qed.

Lemma linspace_length (a b : Q) (num : nat) :
  List.length (linspace a b num) = num.
Proof.
  unfold linspace.
  destruct (1 <? num)%nat; [rewrite set_last_length|];
    destruct (0 <? num - 1)%nat; rewrite !length_map, length_seq; reflexivity.
Qed.

Lemma inject_nat_pos (n : nat) : (0 < n)%nat -> 0 < inject_Z (Z.of_nat n).
Proof.
  intros H. change 0 with (inject_Z 0). rewrite <- Zlt_Qlt. lia.
Qed.

Lemma linspace_nth (a b : Q) (num j : nat) :
  (1 < num)%nat -> (j < num)%nat ->
  nth j (linspace a b num) 0
  == a + inject_Z (Z.of_nat j) * ((b - a) / inject_Z (Z.of_nat (num - 1))).
Proof.
  intros Hn Hj. unfold linspace.
  destruct (Nat.ltb_spec 1 num) as [_|C]; [|lia].
  destruct (Nat.ltb_spec 0 (num - 1)) as [_|C]; [|lia].
  pose proof (inject_nat_pos (num - 1) ltac:(lia)) as Hpos.
  rewrite set_last_nth by (rewrite !length_map, length_seq; exact Hj).
  rewrite !length_map, length_seq.
  destruct (Nat.eqb_spec (S j) num) as [E|E].
  - replace j with (num - 1)%nat by lia. field. lra.
  - rewrite map_map.
    rewrite (nth_indep _ 0
               ((fun x => inject_Z (Z.of_nat x)
                          * ((b - a) / inject_Z (Z.of_nat (num - 1))) + a)
                  0%nat))
      by (rewrite length_map, length_seq; exact Hj).
    rewrite (map_nth
               (fun x => inject_Z (Z.of_nat x)
                         * ((b - a) / inject_Z (Z.of_nat (num - 1))) + a)).
    rewrite seq_nth by exact Hj. cbn [Nat.add]. ring.
Qed.

Lemma getitem_nth {A : Type} (a : list A) (i : nat) (d : A) :
  (i < List.length a)%nat -> getitem a i = Ok (nth i a d).
Proof.
  intros H. unfold getitem.
  rewrite (nth_error_nth' a d H). reflexivity.
Qed.

Lemma getitem_out {A : Type} (a : list A) (i : nat) :
  (List.length a <= i)%nat ->
  getitem a i
  = Raise (IndexError ("index " ++ nat_to_string i
                       ++ " is out of bounds for axis 0 with size "
                       ++ nat_to_string (List.length a))).
Proof.
  intros H. unfold getitem.
  apply nth_error_None in H. rewrite H. reflexivity.
Qed.

Lemma sample_coords_eq (coord : list Q) :
  (2 <= List.length coord)%nat ->
  _sample_coords coord
  = Ok (linspace
          (nth 0 coord 0 - (nth 1 coord 0 - nth 0 coord 0) / 2
           + (nth 1 coord 0 - nth 0 coord 0) / (inject_Z (Z.of_nat 10) * 2))
          (nth (List.length coord - 1) coord 0
           + (nth 1 coord 0 - nth 0 coord 0) / 2
           - (nth 1 coord 0 - nth 0 coord 0) / (inject_Z (Z.of_nat 10) * 2))
          (List.length coord * 10)).
Proof.
  intros H. unfold _sample_coords.
  rewrite (getitem_nth coord 1 0) by lia.
  rewrite (getitem_nth coord 0 0) by lia. cbn [bind].
  rewrite (getitem_last_nth coord 0)
    by (destruct coord; [simpl in H; lia|discriminate]).
  cbn [bind]. reflexivity.
Qed.

(** X6: [_sample_coords] needs two coordinates: on a shorter array it
    raises the [IndexError] of [coord[1]]; otherwise it returns ten
    samples per coordinate, the first one half a cell before the first
    coordinate plus half a sample step, the last one half a cell after
    the last coordinate less half a sample step (the cell width being
    that of the first cell). *)
Theorem sample_coords_shape (coord : list Q) :
  ((List.length coord < 2)%nat ->
   _sample_coords coord
   = Raise (IndexError ("index 1 is out of bounds for axis 0 with size "
                        ++ nat_to_string (List.length coord))))
  /\ ((2 <= List.length coord)%nat ->
      exists s,
        _sample_coords coord = Ok s
        /\ List.length s = (10 * List.length coord)%nat
        /\ nth 0 s 0 == sample_left coord
        /\ nth (List.length s - 1) s 0 == sample_right coord).
Proof.
  split.
  - intros H. unfold _sample_coords.
    rewrite (getitem_out coord 1) by lia. reflexivity.
  - intros H. rewrite (sample_coords_eq coord H). eexists.
    split; [reflexivity|]. rewrite linspace_length.
    split; [lia|]. split.
    + rewrite linspace_nth by lia. unfold sample_left.
      change (inject_Z (Z.of_nat 0)) with 0.
      change (inject_Z (Z.of_nat 10)) with 10. field.
      pose proof (inject_nat_pos (List.length coord * 10 - 1) ltac:(lia)). lra.
    + rewrite linspace_nth by lia. unfold sample_right.
      change (inject_Z (Z.of_nat 10)) with 10. field.
      pose proof (inject_nat_pos (List.length coord * 10 - 1) ltac:(lia)). lra.
Qed.

Lemma sample_coords_shape_witness :
  (exists msg, _sample_coords [5] = Raise (IndexError msg))
  /\ exists s,
       _sample_coords [0; 1; 2] = Ok s
       /\ List.length s = 30%nat
       /\ nth 0 s 0 == - (9 # 20).
Proof.
  split.
  - eexists. apply (sample_coords_shape [5]). simpl. lia.
  - destruct (sample_coords_shape [0; 1; 2]) as [_ H].
    destruct (H ltac:(simpl; lia)) as [s [E [L [F _]]]].
    exists s. split; [exact E|]. split; [exact L|].
    rewrite F. reflexivity.
Defined.

(** X7: on equally spaced coordinates with step [d], the samples are
    the ten mid-points of the tenths of every cell: sample [10 i + m]
    is [coord[i] - d/2 + (2 m + 1) d/20], so every sample lies in the
    cell of its coordinate and the samples are equally spaced by
    [d/10] across the cells. *)
Theorem sample_coords_equally_spaced (coord : list Q) (c0 d : Q) :
  (2 <= List.length coord)%nat ->
  (forall i, (i < List.length coord)%nat ->
             nth i coord 0 == c0 + inject_Z (Z.of_nat i) * d) ->
  exists s,
    _sample_coords coord = Ok s
    /\ forall i m, (i < List.length coord)%nat -> (m < 10)%nat ->
         nth (10 * i + m) s 0
         == nth i coord 0 - d / 2
            + inject_Z (Z.of_nat (2 * m + 1)) * (d / 20).
Proof.
  intros Hn Hc. rewrite (sample_coords_eq coord Hn). eexists.
  split; [reflexivity|]. intros i m Hi Hm.
  rewrite linspace_nth by lia.
  pose proof (Hc 0%nat ltac:(lia)) as H0.
  pose proof (Hc 1%nat ltac:(lia)) as H1.
  pose proof (Hc (List.length coord - 1)%nat ltac:(lia)) as Hl.
  pose proof (Hc i Hi) as Hi'.
  set (n := List.length coord) in *.
  revert H0 H1 Hl Hi'.
  generalize (nth 0 coord 0) (nth 1 coord 0) (nth (n - 1) coord 0)
    (nth i coord 0).
  intros a0 a1 al ai H0 H1 Hl Hi'.
  rewrite H0, H1, Hl, Hi'.
  replace (Z.of_nat (n * 10 - 1)) with (Z.of_nat n * 10 + -1)%Z by lia.
  replace (Z.of_nat (10 * i + m)) with (10 * Z.of_nat i + Z.of_nat m)%Z by lia.
  replace (Z.of_nat (n - 1)) with (Z.of_nat n + -1)%Z by lia.
  replace (Z.of_nat (2 * m + 1)) with (2 * Z.of_nat m + 1)%Z by lia.
  rewrite !inject_Z_plus, !inject_Z_mult.
  change (inject_Z (Z.of_nat 0)) with 0. change (inject_Z (Z.of_nat 1)) with 1.
  change (inject_Z (Z.of_nat 10)) with 10. change (inject_Z 10) with 10.
  change (inject_Z (-1)) with (-1). change (inject_Z 2) with 2.
  change (inject_Z 1) with 1.
  pose proof (inject_nat_pos n ltac:(lia)) as Hpos.
  assert (Hn2 : 2 <= inject_Z (Z.of_nat n)).
  { change 2 with (inject_Z 2). rewrite <- Zle_Qle. lia. }
  field. lra.
Qed.

Lemma sample_coords_equally_spaced_witness :
  (2 <= List.length [0; 1])%nat
  /\ exists s,
       _sample_coords [0; 1] = Ok s
       /\ nth 13 s 0 == 1 - 1 / 2 + 7 * (1 / 20).
Proof.
  split; [simpl; lia|].
  destruct (sample_coords_equally_spaced [0; 1] 0 1) as [s [Hs Hall]].
  - simpl. lia.
  - intros [|[|i]] Hi; [reflexivity|reflexivity|simpl in Hi; lia].
  - exists s. split; [exact Hs|].
    exact (Hall 1%nat 3%nat ltac:(simpl; lia) ltac:(lia)).
Defined.

End SampleCoords.

(** ** Round trip of the bit unpacker *)

Section BitsRoundTrip.

Local Open Scope Z_scope.

Lemma pack_testbit (k : nat) :
  forall n, pack (map (fun j => Z.testbit n (Z.of_nat j)) (seq 0 k))
            = n mod 2 ^ Z.of_nat k.
Proof.
  induction k as [|k IH]; intros n.
  - simpl. rewrite Z.mod_1_r. reflexivity.
  - cbn [seq map pack fold_right]. rewrite <- seq_shift, map_map.
    fold (pack (map (fun j => Z.testbit n (Z.of_nat (S j))) (seq 0 k))).
    rewrite (map_ext (fun j => Z.testbit n (Z.of_nat (S j)))
                     (fun j => Z.testbit (Z.div2 n) (Z.of_nat j))).
    2:{ intros j. rewrite Z.div2_spec, Z.shiftr_spec by lia.
        f_equal. lia. }
    rewrite IH. change (Z.of_nat 0) with 0. rewrite Z.bit0_odd.
    assert (P : 0 < 2 ^ Z.of_nat k) by (apply Z.pow_pos_nonneg; lia).
    rewrite Nat2Z.inj_succ, Z.pow_succ_r by lia.
    pose proof (Z.div2_odd n) as Hn.
    pose proof (Z.mod_pos_bound (Z.div2 n) (2 ^ Z.of_nat k) P) as B.
    pose proof (Z.div_mod (Z.div2 n) (2 ^ Z.of_nat k) ltac:(lia)) as D.
    apply (Z.mod_unique_pos _ _ (Z.div2 n / 2 ^ Z.of_nat k)).
    + destruct (Z.odd n); simpl Z.b2z; lia.
    + destruct (Z.odd n); simpl Z.b2z in *; nia.
Qed.

Lemma concat_rows_slice {A : Type} (rows : list (list A)) (m i : nat) :
  Forall (fun r => List.length r = m) rows ->
  (i < List.length rows)%nat ->
  row m i (concat rows) = nth i rows [].
Proof.
  unfold row. intros H. revert i. induction H as [|r rows Hr _ IH]; intros i Hi.
  - simpl in Hi. lia.
  - destruct i as [|i]; cbn [concat nth].
    + cbn [Nat.mul skipn]. rewrite firstn_app, Hr, Nat.sub_diag.
      rewrite <- Hr at 1. rewrite firstn_all. simpl. apply app_nil_r.
    + replace (S i * m)%nat with (List.length r + i * m)%nat by (simpl; lia).
      rewrite skipn_app, skipn_all2 by lia.
      replace (List.length r + i * m - List.length r)%nat with (i * m)%nat
        by lia.
      apply IH. simpl in Hi. lia.
Qed.

Lemma unpackbits_rows (numbers : int_ndarray) (num_bits : nat) (s : bool)
    (w : Z) :
  dt numbers = IntDtype s w ->
  wf_int_ndarray numbers ->
  exponents_representable (dt numbers) num_bits ->
  unpackbits numbers num_bits
  = Ok (mk_bool_ndarray (shape numbers ++ [num_bits])
          (concat
             (map (fun n =>
                     map (fun k => (Z.of_nat k <? w)
                                   && Z.testbit n (Z.of_nat k))
                       (seq 0 num_bits))
                (data numbers)))).
Proof.
  intros Edt [Hw [Hdata _]] Hexp. unfold unpackbits.
  rewrite (arange_exact _ _ Hexp), mapM_pow2. rewrite Edt in *.
  cbn [is_floating bind dtype_bits] in *. do 3 f_equal.
  apply map_ext_in. intros n Hn. rewrite map_map.
  apply map_ext. intros k. apply mask_bit; [exact Hw|lia|].
  rewrite Forall_forall in Hdata. apply Hdata, Hn.
Qed.

(** X8: [unpackbits] loses nothing of a number that fits in
    [num_bits] bits: for an integer array whose exponents are
    representable, packing row [i] of the result, least significant
    bit first, gives back element [i] whenever
    [0 <= element < 2 ^ num_bits]. *)
Theorem unpackbits_roundtrip (numbers : int_ndarray) (num_bits : nat)
    (s : bool) (w : Z) :
  dt numbers = IntDtype s w ->
  wf_int_ndarray numbers ->
  exponents_representable (dt numbers) num_bits ->
  exists out,
    unpackbits numbers num_bits = Ok out
    /\ forall i, (i < List.length (data numbers))%nat ->
         let n := nth i (data numbers) 0 in
         0 <= n < 2 ^ Z.of_nat num_bits ->
         pack (row num_bits i (bdata out)) = n.
Proof.
  intros Edt Hwf Hexp.
  rewrite (unpackbits_rows numbers num_bits s w Edt Hwf Hexp).
  eexists. split; [reflexivity|]. cbn [bdata]. intros i Hi.
  set (n := nth i (data numbers) 0). intros Hn.
  destruct Hwf as [Hw [Hdata _]]. rewrite Edt in *. cbn [dtype_bits] in Hw.
  rewrite concat_rows_slice.
  2:{ apply Forall_map, Forall_forall. intros x _.
      rewrite length_map, length_seq. reflexivity. }
  2:{ rewrite length_map. exact Hi. }
  rewrite (nth_indep _ []
             ((fun n => map (fun k => (Z.of_nat k <? w)
                                      && Z.testbit n (Z.of_nat k))
                          (seq 0 num_bits)) 0))
    by (rewrite length_map; exact Hi).
  rewrite (map_nth
             (fun n => map (fun k => (Z.of_nat k <? w)
                                     && Z.testbit n (Z.of_nat k))
                         (seq 0 num_bits))).
  fold n.
  assert (Hr : in_range (IntDtype s w) n).
  { rewrite Forall_forall in Hdata. apply Hdata, nth_In, Hi. }
  pose proof (in_range_bounds s w n Hw Hr) as B.
  assert (Hnw : 0 <= n < 2 ^ w).
  { destruct s; [|lia].
    assert (2 ^ (w - 1) <= 2 ^ w) by (apply Z.pow_le_mono_r; lia). lia. }
  rewrite (map_ext (fun k => (Z.of_nat k <? w) && Z.testbit n (Z.of_nat k))
                   (fun k => Z.testbit n (Z.of_nat k))).
  2:{ intros k. destruct (Z.ltb_spec (Z.of_nat k) w) as [_|Hge]; [reflexivity|].
      cbn [andb]. symmetry. apply (testbit_high_nonneg n w); lia. }
  rewrite pack_testbit. apply Z.mod_small. exact Hn.
Qed.

Lemma unpackbits_roundtrip_witness :
  let a := mk_int_ndarray (IntDtype true 64) [2%nat] [5; 9] in
  dt a = IntDtype true 64
  /\ wf_int_ndarray a
  /\ exponents_representable (dt a) 4
  /\ exists out,
       unpackbits a 4 = Ok out
       /\ pack (row 4 1 (bdata out)) = 9.
Proof.
  intros a.
  assert (Hwf : wf_int_ndarray a).
  { split; [reflexivity|]. split; [|reflexivity].
    repeat constructor. }
  assert (Hexp : exponents_representable (dt a) 4).
  { intros [|[|[|[|k]]]] Hk; try reflexivity. lia. }
  split; [reflexivity|]. split; [exact Hwf|]. split; [exact Hexp|].
  destruct (unpackbits_roundtrip a 4 true 64 eq_refl Hwf Hexp)
    as [out [Hout Hrt]].
  exists out. split; [exact Hout|].
  apply (Hrt 1%nat); [simpl; lia|]. simpl. lia.
Defined.

End BitsRoundTrip.

(** ** Disjoint regions and validation *)

Section FlattenDisjoint.

Local Open Scope Z_scope.

Lemma count_true_nonneg (c : list bool) : 0 <= count_true c.
Proof.
  unfold count_true. induction c as [|b c IH]; simpl; [lia|].
  destruct b; simpl Xr.b2z; lia.
Qed.

Lemma count_true_zero (c : list bool) : count_true c = 0 -> all_false c.
Proof.
  unfold count_true. induction c as [|b c IH]; intros H j Hj.
  - simpl in Hj. lia.
  - cbn [map fold_right] in H. pose proof (count_true_nonneg c) as P.
    unfold count_true in P.
    destruct b; cbn [Xr.b2z] in H; [lia|].
    destruct j as [|j]; [reflexivity|]. apply IH; [lia|simpl in Hj; lia].
Qed.

Lemma count_true_le_1 (c : list bool) :
  count_true c <= 1 -> all_false c \/ exists r, only_true_at c r.
Proof.
  induction c as [|b c IH]; intros H.
  - left. intros j Hj. simpl in Hj. lia.
  - unfold count_true in H. cbn [map fold_right] in H.
    fold (count_true c) in H. pose proof (count_true_nonneg c) as P.
    destruct b; cbn [Xr.b2z] in H.
    + right. exists 0%nat.
      assert (Z0 : all_false c) by (apply count_true_zero; lia).
      split; [simpl; lia|]. split; [reflexivity|].
      intros [|j] Hj Hne; [lia|]. apply Z0. simpl in Hj. lia.
    + destruct (IH ltac:(lia)) as [Hf|[r [R1 [R2 R3]]]].
      * left. intros [|j] Hj; [reflexivity|]. apply Hf. simpl in Hj. lia.
      * right. exists (S r). split; [simpl; lia|]. split; [exact R2|].
        intros [|j] Hj Hne; [reflexivity|]. apply R3; simpl in Hj; lia.
Qed.

(** X9: on a mask whose regions do not overlap (every cell true in
    at most one layer) and whose region numbers are distinct and at
    most [2 ^ 53] in magnitude, [flatten_3D_mask] issues no warning and
    the 2D mask decides membership: a cell belongs to region layer [r]
    exactly when the result holds the number of that region there. *)
Theorem flatten_3D_mask_disjoint (m : Xr.DataArray) (ids : list Z) :
  wf_mask m ids ->
  NoDup ids ->
  Forall (fun id => Z.abs id <= 2 ^ 53) ids ->
  (forall y x, (y < Xr.ny m)%nat -> (x < Xr.nx m)%nat ->
               count_true (cell m y x) <= 1) ->
  exists out,
    flatten_3D_mask (IsDataArray m) = Ok ([], out)
    /\ forall y x r, (y < Xr.ny m)%nat -> (x < Xr.nx m)%nat ->
         (r < List.length ids)%nat ->
         (nth r (cell m y x) false = true
          <-> Xr.get out y x None = Some (nth r ids 0)).
Proof.
  intros Hwf Hnd Hsmall Hdis.
  destruct (flatten_3D_mask_cells m ids Hwf)
    as [w [out [E [_ [Hget [Hw1 Hw2]]]]]].
  assert (W : w = []).
  { destruct Hw1 as [Hw|Hw]; [|exact Hw]. exfalso.
    apply Hw2 in Hw. destruct Hw as [y [x [Hy [Hx H]]]].
    specialize (Hdis y x Hy Hx). lia. }
  subst w. exists out. split; [exact E|].
  intros y x r Hy Hx Hr. rewrite (Hget y x None Hy Hx).
  destruct Hwf as [_ [_ [Hlen [_ Hids]]]].
  assert (Hlc : List.length ids = List.length (cell m y x))
    by (unfold cell; rewrite length_map; exact Hlen).
  destruct (count_true_le_1 _ (Hdis y x Hy Hx)) as [Hf|[r' Hr']].
  - rewrite (any_all_false _ Hf). rewrite (Hf r) by lia.
    split; discriminate.
  - rewrite (any_only_true_at _ _ Hr').
    rewrite (weighted_sum_one _ ids r' Hr' Hlc Hids).
    rewrite float64_of_int64_small.
    2:{ rewrite Forall_forall in Hsmall. apply Hsmall, nth_In.
        destruct Hr' as [R1 _]. lia. }
    destruct Hr' as [R1 [R2 R3]]. split.
    + intros Ht. destruct (Nat.eq_dec r r') as [->|Hne]; [reflexivity|].
      rewrite (R3 r) in Ht by lia. discriminate.
    + intros Ht. injection Ht as Ht.
      assert (r' = r).
      { apply (proj1 (NoDup_nth ids 0) Hnd); [lia|lia|exact Ht]. }
      subst. exact R2.
Qed.

Lemma flatten_3D_mask_disjoint_witness :
  let m := Xr.mk_DataArray 3 1 3 (Some [2; 3])
             [[[true; false; false]]; [[false; true; false]]] false in
  wf_mask m [2; 3] /\ NoDup [2; 3]
  /\ exists out,
       flatten_3D_mask (IsDataArray m) = Ok ([], out)
       /\ Xr.get out 0 1 None = Some 3.
Proof.
  intros m.
  assert (Hwf : wf_mask m [2; 3]).
  { split; [reflexivity|]. split; [reflexivity|]. split; [reflexivity|].
    split; repeat constructor. }
  assert (Hnd : NoDup [2; 3]).
  { constructor; [intros [H|[]]; discriminate|].
    constructor; [intros []|constructor]. }
  split; [exact Hwf|]. split; [exact Hnd|].
  destruct (flatten_3D_mask_disjoint m [2; 3] Hwf Hnd) as [out [E H]].
  - repeat (apply Forall_cons; [vm_compute; discriminate|]).
    apply Forall_nil.
  - intros [|y] [|[|[|x]]] Hy Hx; simpl in Hy, Hx; try lia;
      vm_compute; discriminate.
  - exists out. split; [exact E|].
    apply (H 0%nat 1%nat 1%nat); [simpl; lia|simpl; lia|simpl; lia|].
    reflexivity.
Defined.

Lemma zip_with_repeat {A B C : Type} (f : A -> B -> C) (a : A) (b : B)
    (n : nat) :
  zip_with f (repeat a n) (repeat b n) = repeat (f a b) n.
Proof.
  induction n as [|n IH]; simpl; [reflexivity|]. rewrite IH. reflexivity.
Qed.

(** X10: a 3D mask with an empty region axis flattens, without
    warning, to the grid on which every cell is missing. *)
Theorem flatten_3D_mask_no_region_layers (m : Xr.DataArray) :
  Xr.da_ndim m = 3%nat -> Xr.region m = Some [] -> Xr.layers m = [] ->
  flatten_3D_mask (IsDataArray m)
  = Ok ([], Xr.full (Xr.ny m) (Xr.nx m) None).
Proof.
  intros Hnd Hreg Hl. unfold flatten_3D_mask, Xr.has_region_coord.
  rewrite Hnd, Hreg. cbn [Nat.eqb negb].
  unfold Xr.sum_region, Xr.any_region, Xr.times_region, Xr.reduce. rewrite Hl.
  cbn [map zip_with fold_right].
  assert (W : Xr.grid_any
                (Xr.grid_map (fun c => 1 <? c) (Xr.full (Xr.ny m) (Xr.nx m) 0))
              = false).
  { unfold Xr.grid_any, Xr.grid_map, Xr.full.
    assert (R : forall j, existsb (fun b : bool => b)
                            (map (fun c => 1 <? c) (repeat 0 j)) = false)
      by (intros j; induction j as [|j IHj]; [reflexivity|exact IHj]).
    induction (Xr.ny m) as [|k IH]; [reflexivity|].
    cbn [repeat map existsb]. rewrite IH, R. reflexivity. }
  rewrite W. do 2 f_equal.
  unfold Xr.where_, Xr.grid_zip, Xr.grid_map, Xr.full.
  rewrite !map_repeat, zip_with_repeat, zip_with_repeat. reflexivity.
Qed.

Lemma flatten_3D_mask_no_region_layers_witness :
  flatten_3D_mask (IsDataArray (Xr.mk_DataArray 3 2 3 (Some []) [] false))
  = Ok ([], [[None; None; None]; [None; None; None]]).
Proof.
  apply (flatten_3D_mask_no_region_layers
           (Xr.mk_DataArray 3 2 3 (Some []) [] false)); reflexivity.
Defined.

(** X11: the checks of [flatten_3D_mask], in their order: an argument
    that is not a [DataArray], then a number of dimensions other than
    three, then the absence of a coordinate named region, each raise
    their [ValueError].  A three-dimensional array whose region
    coordinate is not the coordinate of an axis passes the three checks
    and the call still fails; with the coordinate of a region axis the
    call returns. *)
Theorem flatten_3D_mask_validation (m : Xr.DataArray) :
  flatten_3D_mask NotDataArray
  = Raise (ValueError "expected a xarray.DataArray")
  /\ (Xr.da_ndim m <> 3%nat ->
      flatten_3D_mask (IsDataArray m)
      = Raise (ValueError ("``mask_3D`` must have 3 dimensions, found "
                           ++ nat_to_string (Xr.da_ndim m))))
  /\ (Xr.da_ndim m = 3%nat -> Xr.has_region_coord m = false ->
      flatten_3D_mask (IsDataArray m)
      = Raise (ValueError
                 "``mask_3D`` must contain the dimension 'region'"))
  /\ (Xr.da_ndim m = 3%nat -> Xr.region m = None ->
      Xr.region_elsewhere m = true ->
      exists e, flatten_3D_mask (IsDataArray m) = Raise e)
  /\ (Xr.da_ndim m = 3%nat -> Xr.region m <> None ->
      exists r, flatten_3D_mask (IsDataArray m) = Ok r).
Proof.
  split; [reflexivity|]. cbn [flatten_3D_mask].
  unfold Xr.has_region_coord.
  destruct (Nat.eqb_spec (Xr.da_ndim m) 3) as [E|E]; cbn [negb].
  - split; [intros H; contradiction|].
    destruct (Xr.region m) as [ids|]; cbn [negb].
    + split; [intros _ H; discriminate H|].
      split; [intros _ H; discriminate H|].
      intros _ _. eexists. reflexivity.
    + destruct (Xr.region_elsewhere m); cbn [negb].
      * split; [intros _ H; discriminate H|].
        split; [intros _ _ _; eexists; reflexivity|].
        intros _ H. contradiction.
      * split; [intros _ _; reflexivity|].
        split; [intros _ _ H; discriminate H|].
        intros _ H. contradiction.
  - split; [intros _; reflexivity|].
    split; [intros H; contradiction|].
    split; [intros H; contradiction|].
    intros H. contradiction.
Qed.

Lemma flatten_3D_mask_validation_witness :
  flatten_3D_mask (IsDataArray (Xr.mk_DataArray 2 1 1 None [] false))
  = Raise (ValueError "``mask_3D`` must have 3 dimensions, found 2")
  /\ exists e,
       flatten_3D_mask
         (IsDataArray (Xr.mk_DataArray 3 1 1 None [[[true]]] true))
       = Raise e.
Proof.
  split.
  - destruct (flatten_3D_mask_validation
                (Xr.mk_DataArray 2 1 1 None [] false)) as [_ [H _]].
    apply H. cbn. discriminate.
  - destruct (flatten_3D_mask_validation
                (Xr.mk_DataArray 3 1 1 None [[[true]]] true))
      as [_ [_ [_ [H _]]]].
    apply H; reflexivity.
Defined.

End FlattenDisjoint.

(** ** Successful flattening and repeated snapping *)

Section FlattenSnap.

Import Shapely.

Lemma flatten_loop_ok (error : string) (rest : list Geometry)
    (polys ps : list Polygon) :
  flatten_loop error polys rest = Ok ps ->
  ps = (polys ++ flat_map members rest)%list.
Proof.
  revert polys. induction rest as [|g rest IH]; intros polys H.
  - cbn in H. injection H as <-. cbn. rewrite app_nil_r. reflexivity.
  - cbn [flatten_loop] in H. destruct g as [p|qs|t cs]; cbn [flat_map members].
    + rewrite (IH _ H), <- app_assoc. reflexivity.
    + rewrite (IH _ H), <- app_assoc. reflexivity.
    + destruct (String.eqb error "raise"); [discriminate|].
      apply (IH _ H).
Qed.

Lemma members_of_polygons (ps : list Polygon) :
  flat_map members (map GPolygon ps) = ps.
Proof.
  induction ps as [|p ps IH]; cbn; [reflexivity|]. rewrite IH. reflexivity.
Qed.

Lemma policy_of_ok (polygons : list Geometry) (error : string)
    (ps : list Polygon) :
  _flatten_polygons polygons error = Ok ps ->
  error = "raise"%string \/ error = "skip"%string.
Proof.
  unfold _flatten_polygons. cbn [existsb].
  destruct (String.eqb_spec error "raise") as [->|_]; [now left|].
  destruct (String.eqb_spec error "skip") as [->|_]; [now right|].
  discriminate.
Qed.

(** X12: when [_flatten_polygons] returns, under either policy, the
    result is the in-order concatenation of the members of the input,
    it is what the 'skip' policy returns, flattening the result again
    (as a list of polygons) changes nothing, and under 'skip' the
    flattening of a concatenation is the concatenation of the
    flattenings. *)
Theorem flatten_polygons_ok (polygons : list Geometry) (error : string)
    (ps : list Polygon) :
  _flatten_polygons polygons error = Ok ps ->
  ps = flat_map members polygons
  /\ _flatten_polygons polygons "skip" = Ok ps
  /\ _flatten_polygons (map GPolygon ps) error = Ok ps
  /\ forall more,
       _flatten_polygons (polygons ++ more) "skip"
       = Ok (ps ++ flat_map members more)%list.
Proof.
  intros H. pose proof (policy_of_ok _ _ _ H) as Hp.
  assert (E : ps = flat_map members polygons).
  { destruct Hp as [-> | ->]; apply (flatten_loop_ok _ polygons [] ps H). }
  split; [exact E|]. split; [|split].
  - rewrite E. apply (flatten_loop_skip polygons []).
  - destruct Hp as [-> | ->].
    + rewrite <- (members_of_polygons ps) at 2.
      apply (flatten_loop_raise_valid (map GPolygon ps) []).
      apply Forall_map, Forall_forall. intros p _. exact I.
    + rewrite <- (members_of_polygons ps) at 2.
      apply (flatten_loop_skip (map GPolygon ps) []).
  - intros more. rewrite E, <- flat_map_app.
    apply (flatten_loop_skip (polygons ++ more) []).
Qed.

Lemma flatten_polygons_ok_witness :
  let p := mk_Polygon [(0, 0); (1, 0); (1, 1); (0, 0)] [] in
  let polygons := [GMultiPolygon [p; p]; GPolygon p] in
  _flatten_polygons polygons "raise" = Ok [p; p; p]
  /\ _flatten_polygons (map GPolygon [p; p; p]) "raise" = Ok [p; p; p].
Proof.
  intros p polygons.
  assert (E : _flatten_polygons polygons "raise" = Ok [p; p; p])
    by reflexivity.
  split; [exact E|].
  destruct (flatten_polygons_ok polygons "raise" [p; p; p] E) as [_ [_ [H _]]].
  exact H.
Defined.

Lemma snap_coord_idempotent (to atol : Q) (col : bool) (c : Coord) :
  snap_coord to atol col (snap_coord to atol col c) = snap_coord to atol col c.
Proof.
  unfold snap_coord at 2.
  destruct (Np.isclose (get_column col c) to Np.default_rtol atol) eqn:E.
  - unfold snap_coord.
    assert (E' : Np.isclose (get_column col (set_column col c to)) to
                   Np.default_rtol atol = true).
    { unfold Np.isclose in *. apply Qle_bool_iff in E. apply Qle_bool_iff.
      assert (G : get_column col (set_column col c to) = to)
        by (destruct col; reflexivity).
      rewrite G. eapply Qle_trans; [|exact E].
      assert (Z0 : to - to == 0) by ring. rewrite Z0.
      apply Qabs_nonneg. }
    rewrite E', E. destruct col, c; reflexivity.
  - unfold snap_coord. rewrite E. reflexivity.
Qed.

Lemma map_geometry_compose (f h : Coord -> Coord) (g : Geometry) :
  map_geometry f (map_geometry h g) = map_geometry (fun c => f (h c)) g.
Proof.
  assert (P : forall p, map_polygon f (map_polygon h p)
                        = map_polygon (fun c => f (h c)) p).
  { intros p. unfold map_polygon. cbn [exterior interiors].
    rewrite !map_map. f_equal. apply map_ext. intros r. apply map_map. }
  destruct g as [p|ps|t cs]; cbn [map_geometry].
  - rewrite P. reflexivity.
  - rewrite map_map. f_equal. apply map_ext. exact P.
  - rewrite map_map. reflexivity.
Qed.

Lemma map_geometry_ext (f h : Coord -> Coord) (g : Geometry) :
  (forall c, f c = h c) -> map_geometry f g = map_geometry h g.
Proof.
  intros H.
  assert (P : forall p, map_polygon f p = map_polygon h p).
  { intros p. unfold map_polygon. f_equal; [apply map_ext, H|].
    apply map_ext. intros r. apply map_ext, H. }
  destruct g as [p|ps|t cs]; cbn [map_geometry].
  - rewrite P. reflexivity.
  - f_equal. apply map_ext. exact P.
  - f_equal. apply map_ext, H.
Qed.

(** X13: snapping is idempotent on both paths: a geometry returned
    by [_snap_polygon] is returned unchanged when snapped again with the
    same target, tolerance and axis, and so is the result of
    [_snap_polygon_shapely_18]. *)
Theorem snap_polygon_idempotent (g g' : Geometry) (to atol : Q) (xy_col : Z) :
  _snap_polygon g to atol xy_col = Ok g' ->
  _snap_polygon g' to atol xy_col = Ok g'
  /\ _snap_polygon_shapely_18
       (_snap_polygon_shapely_18 g to atol xy_col) to atol xy_col
     = _snap_polygon_shapely_18 g to atol xy_col.
Proof.
  intros H. split.
  - destruct (column_index xy_col) as [col|e] eqn:Ec.
    + rewrite (snap_polygon_map g to atol xy_col col Ec) in H.
      injection H as <-.
      rewrite (snap_polygon_map _ to atol xy_col col Ec).
      rewrite map_geometry_compose. f_equal.
      apply map_geometry_ext. intros c. apply snap_coord_idempotent.
    + unfold _snap_polygon in H. rewrite Ec in H. discriminate H.
  - rewrite !snap_polygon_shapely_18_map, map_geometry_compose.
    apply map_geometry_ext. intros c. apply snap_coord_idempotent.
Qed.

Lemma snap_polygon_idempotent_witness :
  let g := GPolygon (mk_Polygon
             [(0, -89.9999995); (10, -89.9); (10, -80); (0, -89.9999995)]
             []) in
  let g' := GPolygon (mk_Polygon
             [(0, -90); (10, -89.9); (10, -80); (0, -90)] []) in
  _snap_polygon g (-90) (1 # 1000000) 1 = Ok g'
  /\ _snap_polygon g' (-90) (1 # 1000000) 1 = Ok g'.
Proof.
  intros g g'.
  assert (E : _snap_polygon g (-90) (1 # 1000000) 1 = Ok g') by reflexivity.
  split; [exact E|].
  exact (proj1 (snap_polygon_idempotent g g' _ _ _ E)).
Defined.

End FlattenSnap.

(** ** The frame of the snapper *)

Section SnapFrame.

Import Shapely.

Lemma mapM_ok {A B : Type} (f : A -> result B) (l : list A) (r : list B) :
  mapM f l = Ok r ->
  List.length r = List.length l
  /\ forall k a b, (k < List.length l)%nat -> f (nth k l a) = Ok (nth k r b).
Proof.
  revert r. induction l as [|x l IH]; intros r H.
  - cbn in H. injection H as <-. split; [reflexivity|].
    intros k a b Hk. simpl in Hk. lia.
  - cbn [mapM] in H. destruct (f x) as [y|e] eqn:Ex; [|discriminate].
    cbn [bind] in H. destruct (mapM f l) as [ys|e]; [|discriminate].
    cbn [bind] in H. injection H as <-.
    destruct (IH ys eq_refl) as [L N]. split; [simpl; lia|].
    intros [|k] a b Hk; [exact Ex|]. apply N. simpl in Hk. lia.
Qed.

Lemma mapM_raise {A B : Type} (f : A -> result B) (l : list A) (x : A)
    (e : exn) :
  In x l -> (forall y, In y l -> f y = Raise e \/ exists b, f y = Ok b) ->
  f x = Raise e -> mapM f l = Raise e.
Proof.
  intros Hin Hall Hx. induction l as [|y l IH]; [contradiction|].
  cbn [mapM]. destruct (Hall y (or_introl eq_refl)) as [E|[b E]]; rewrite E.
  - reflexivity.
  - cbn [bind]. destruct Hin as [->|Hin]; [congruence|].
    rewrite IH; [reflexivity|exact Hin|].
    intros z Hz. apply Hall. now right.
Qed.

Lemma loc_in (df : DataFrame) (i : Z) :
  (In i (map fst df) -> exists g, loc df i = Ok g)
  /\ (~ In i (map fst df) ->
      loc df i = Raise (KeyError "label not found in the index")).
Proof.
  induction df as [|[j h] df [IH1 IH2]]; cbn [loc map fst].
  - split; [intros []|reflexivity].
  - destruct (Z.eqb_spec i j) as [->|Hne].
    + split; [intros _; eexists; reflexivity|].
      intros H. exfalso. apply H. now left.
    + split.
      * intros [H|H]; [congruence|]. apply IH1, H.
      * intros H. apply IH2. intros C. apply H. now right.
Qed.

Lemma set_geometry_keys (df : DataFrame) (i : Z) (g : Geometry) :
  map fst (set_geometry df i g) = map fst df.
Proof.
  induction df as [|[j h] df IH]; [reflexivity|]. cbn [set_geometry].
  destruct (i =? j)%Z; cbn [map fst]; [reflexivity|]. rewrite IH. reflexivity.
Qed.

Lemma loc_set_geometry (df : DataFrame) (i j : Z) (g : Geometry) :
  loc (set_geometry df i g) j
  = if (j =? i)%Z
    then match loc df i with Ok _ => Ok g | Raise e => Raise e end
    else loc df j.
Proof.
  induction df as [|[k h] df IH]; cbn [set_geometry loc].
  - destruct (j =? i)%Z; reflexivity.
  - destruct (Z.eqb_spec i k) as [->|Hik]; cbn [loc].
    + destruct (Z.eqb_spec j k) as [->|Hjk]; reflexivity.
    + destruct (Z.eqb_spec j k) as [->|Hjk].
      * destruct (Z.eqb_spec k i) as [->|_]; [congruence|reflexivity].
      * exact IH.
Qed.

Lemma set_geometries_keys (idx : list Z) (ps : list Geometry) :
  forall df, map fst (set_geometries df idx ps) = map fst df.
Proof.
  unfold set_geometries. revert ps.
  induction idx as [|i idx IH]; intros [|p ps] df; try reflexivity.
  cbn [combine fold_left fst snd]. rewrite IH. apply set_geometry_keys.
Qed.

Lemma loc_set_geometries (idx : list Z) (ps : list Geometry) :
  NoDup idx -> List.length ps = List.length idx ->
  forall df,
    (forall i, In i idx -> exists g, loc df i = Ok g) ->
    (forall j, ~ In j idx -> loc (set_geometries df idx ps) j = loc df j)
    /\ (forall k d, (k < List.length idx)%nat ->
          loc (set_geometries df idx ps) (nth k idx 0%Z) = Ok (nth k ps d)).
Proof.
  unfold set_geometries. intros Hnd. revert ps.
  induction Hnd as [|i idx Hi Hnd IH]; intros [|p ps] Hlen df Hdf;
    try discriminate Hlen.
  - split; [reflexivity|]. intros k d Hk. simpl in Hk. lia.
  - cbn [combine fold_left fst snd].
    assert (Hdf' : forall i', In i' idx ->
              exists g, loc (set_geometry df i p) i' = Ok g).
    { intros i' Hi'. rewrite loc_set_geometry.
      destruct (Z.eqb_spec i' i) as [->|_]; [contradiction|].
      apply Hdf. now right. }
    destruct (IH ps ltac:(simpl in Hlen; lia) _ Hdf') as [F1 F2].
    split.
    + intros j Hj. rewrite F1 by (intros C; apply Hj; now right).
      rewrite loc_set_geometry.
      destruct (Z.eqb_spec j i) as [->|_]; [|reflexivity].
      exfalso. apply Hj. now left.
    + intros [|k] d Hk; cbn [nth].
      * rewrite F1 by exact Hi. rewrite loc_set_geometry, Z.eqb_refl.
        destruct (Hdf i (or_introl eq_refl)) as [g ->]. reflexivity.
      * apply F2. simpl in Hk. lia.
Qed.

Lemma snap_frame_gen (v : bool) (df df' : DataFrame) (idx : list Z)
    (to atol : Q) (xy_col : Z) :
  xy_col = 0%Z \/ xy_col = 1%Z ->
  NoDup idx ->
  _snap v df idx to atol xy_col = Ok df' ->
  map fst df' = map fst df
  /\ (forall j, ~ In j idx -> loc df' j = loc df j)
  /\ (forall i, In i idx ->
        exists g, loc df i = Ok g
                  /\ loc df' i
                     = Ok (map_geometry
                             (snap_coord to atol (negb (xy_col =? 0)%Z)) g)).
Proof.
  intros Hxy Hnd H. unfold _snap in H.
  destruct (mapM (loc df) idx) as [polygons|e] eqn:Em; [|discriminate].
  cbn [bind] in H. destruct (mapM_ok _ _ _ Em) as [Lp Np].
  assert (Es : forall g0, _snap_polygon g0 to atol xy_col
                 = Ok (map_geometry
                         (snap_coord to atol (negb (xy_col =? 0)%Z)) g0)).
  { intros g0. apply snap_polygon_map. destruct Hxy as [-> | ->]; reflexivity. }
  assert (Hdf : forall i, In i idx -> exists g, loc df i = Ok g).
  { intros i Hi. destruct (In_nth _ _ 0%Z Hi) as [k [Hk <-]].
    eexists. apply (Np k 0%Z (GOther "" [])). exact Hk. }
  set (f := map_geometry (snap_coord to atol (negb (xy_col =? 0)%Z))) in *.
  assert (Hres : df' = set_geometries df idx (map f polygons)).
  { destruct v.
    - rewrite (mapM_total _ f polygons Es) in H. cbn [bind] in H.
      injection H as <-. reflexivity.
    - injection H as <-. f_equal. apply map_ext. intros g0.
      apply snap_polygon_shapely_18_map. }
  subst df'.
  destruct (loc_set_geometries idx (map f polygons) Hnd
              ltac:(rewrite length_map; exact Lp) df Hdf) as [F1 F2].
  split; [apply set_geometries_keys|]. split; [exact F1|].
  intros i Hi. destruct (In_nth _ _ 0%Z Hi) as [k [Hk <-]].
  exists (nth k polygons (GOther "" [])).
  split; [apply Np; exact Hk|].
  rewrite (F2 k (f (GOther "" [])) Hk). rewrite map_nth. reflexivity.
Qed.

(** X14: for an axis selector 0 or 1 and distinct labels [idx], a
    successful [_snap] keeps the index of the frame (same labels, same
    order), leaves the geometry of every row outside [idx] as it was,
    and gives every row of [idx] its own geometry with every vertex
    snapped, on either side of the version test. *)
Theorem snap_frame (v : bool) (df df' : DataFrame) (idx : list Z)
    (to atol : Q) (xy_col : Z) :
  xy_col = 0%Z \/ xy_col = 1%Z ->
  NoDup idx ->
  _snap v df idx to atol xy_col = Ok df' ->
  map fst df' = map fst df
  /\ (forall j, ~ In j idx -> loc df' j = loc df j)
  /\ (forall i, In i idx ->
        exists g, loc df i = Ok g
                  /\ loc df' i
                     = Ok (map_geometry
                             (snap_coord to atol (negb (xy_col =? 0)%Z)) g)).
Proof. exact (snap_frame_gen v df df' idx to atol xy_col). Qed.

(** X15: [_snap] raises a [KeyError], on either side of the version
    test, as soon as one label of [idx] is not in the index of the
    frame. *)
Theorem snap_missing_label (v : bool) (df : DataFrame) (idx : list Z)
    (to atol : Q) (xy_col : Z) (i : Z) :
  In i idx -> ~ In i (map fst df) ->
  exists msg, _snap v df idx to atol xy_col = Raise (KeyError msg).
Proof.
  intros Hi Hn. eexists. unfold _snap.
  rewrite (mapM_raise (loc df) idx i (KeyError "label not found in the index")).
  - reflexivity.
  - exact Hi.
  - intros y _. destruct (in_dec Z.eq_dec y (map fst df)) as [Hy|Hy].
    + right. apply loc_in, Hy.
    + left. apply loc_in, Hy.
  - apply loc_in, Hn.
Qed.

Lemma snap_frame_witness :
  let p := GPolygon (mk_Polygon
             [(0, -89.9999995); (10, -89.9); (10, -80); (0, -89.9999995)]
             []) in
  let df := [(4%Z, p); (7%Z, p)] in
  exists df',
    _snap true df [7%Z] (-90) (1 # 1000000) 1 = Ok df'
    /\ map fst df' = [4%Z; 7%Z]
    /\ loc df' 4 = Ok p.
Proof.
  intros p df.
  assert (E : exists df', _snap true df [7%Z] (-90) (1 # 1000000) 1 = Ok df')
    by (eexists; reflexivity).
  destruct E as [df' E]. exists df'. split; [exact E|].
  destruct (snap_frame true df df' [7%Z] (-90) (1 # 1000000) 1) as [K [F _]].
  - right. reflexivity.
  - constructor; [intros []|constructor].
  - exact E.
  - split; [exact K|]. rewrite F; [reflexivity|].
    intros [C|[]]. discriminate C.
Defined.

Lemma snap_missing_label_witness :
  exists msg,
    _snap false [(4%Z, GOther "Point" [(0, 0)])] [4%Z; 5%Z] 180 (1 # 10) 0
    = Raise (KeyError msg).
Proof.
  apply (snap_missing_label false _ [4%Z; 5%Z] 180 (1 # 10) 0 5%Z).
  - simpl. tauto.
  - simpl. intros [C|[]]. discriminate C.
Defined.

Lemma snap_coord_settled (to atol : Q) (col : bool) (c : Coord) :
  Np.isclose (get_column col (snap_coord to atol col c)) to
    Np.default_rtol atol = true ->
  get_column col (snap_coord to atol col c) = to.
Proof.
  unfold snap_coord.
  destruct (Np.isclose (get_column col c) to Np.default_rtol atol) eqn:E.
  - intros _. destruct col, c; reflexivity.
  - rewrite E. discriminate.
Qed.

(** X16: after [_snap_to_90S] no vertex of a selected row is merely
    close to the pole: a vertex of the new geometry whose y value is
    within the tolerance of -90 is exactly at -90; likewise after
    [_snap_to_180E] for x values and 180. *)
Theorem snap_to_targets (v : bool) (df df' : DataFrame) (idx : list Z)
    (atol : Q) (i : Z) :
  NoDup idx -> In i idx ->
  (_snap_to_90S v df idx atol = Ok df' ->
   exists g, loc df' i = Ok g
     /\ forall c, In c (get_coordinates g) ->
          Np.isclose (snd c) (-90) Np.default_rtol atol = true ->
          snd c = -90)
  /\ (_snap_to_180E v df idx atol = Ok df' ->
      exists g, loc df' i = Ok g
        /\ forall c, In c (get_coordinates g) ->
             Np.isclose (fst c) 180 Np.default_rtol atol = true ->
             fst c = 180).
Proof.
  intros Hnd Hi. unfold _snap_to_90S, _snap_to_180E. split; intros H.
  - destruct (snap_frame_gen v df df' idx (-90) atol 1 (or_intror eq_refl)
                Hnd H) as [_ [_ F]].
    destruct (F i Hi) as [g [_ E]]. eexists. split; [exact E|].
    intros c Hc. rewrite get_coordinates_map in Hc.
    apply in_map_iff in Hc. destruct Hc as [c0 [<- _]].
    apply (snap_coord_settled (-90) atol true c0).
  - destruct (snap_frame_gen v df df' idx 180 atol 0 (or_introl eq_refl) Hnd H)
      as [_ [_ F]].
    destruct (F i Hi) as [g [_ E]]. eexists. split; [exact E|].
    intros c Hc. rewrite get_coordinates_map in Hc.
    apply in_map_iff in Hc. destruct Hc as [c0 [<- _]].
    apply (snap_coord_settled 180 atol false c0).
Qed.

Lemma snap_to_targets_witness :
  let p := GPolygon (mk_Polygon
             [(0, -89.9999995); (10, -89.9); (10, -80); (0, -89.9999995)]
             []) in
  exists df' g,
    _snap_to_90S true [(4%Z, p)] [4%Z] (1 # 1000000) = Ok df'
    /\ loc df' 4 = Ok g
    /\ forall c, In c (get_coordinates g) ->
         Np.isclose (snd c) (-90) Np.default_rtol (1 # 1000000) = true ->
         snd c = -90.
Proof.
  intros p.
  assert (E : exists df',
            _snap_to_90S true [(4%Z, p)] [4%Z] (1 # 1000000) = Ok df')
    by (eexists; reflexivity).
  destruct E as [df' E]. exists df'.
  destruct (snap_to_targets true [(4%Z, p)] df' [4%Z] (1 # 1000000) 4%Z)
    as [H _].
  - constructor; [intros []|constructor].
  - now left.
  - destruct (H E) as [g [Hg Hc]]. exists g.
    split; [exact E|]. split; [exact Hg|exact Hc].
Defined.

End SnapFrame.

(** ** Total bounds *)

Section TotalBounds.

Import Shapely.

Lemma mapM_total_in {A B : Type} (f : A -> result B) (h : A -> B)
    (l : list A) :
  (forall a, In a l -> f a = Ok (h a)) -> mapM f l = Ok (map h l).
Proof.
  induction l as [|a l IH]; intros H; [reflexivity|].
  cbn [mapM map]. rewrite (H a (or_introl eq_refl)). cbn [bind].
  rewrite IH by (intros b Hb; apply H; now right). reflexivity.
Qed.

Lemma array_column_rows (rows : list (list Q)) (n j : nat) :
  rows <> [] -> Forall (fun r => List.length r = n) rows -> (j < n)%nat ->
  array_column rows j = Ok (map (fun r => nth j r 0) rows).
Proof.
  intros Hne Hall Hj. destruct rows as [|r rows]; [congruence|].
  unfold array_column.
  assert (Hr : List.length r = n) by (inversion Hall; assumption).
  rewrite Forall_forall in Hall.
  replace (forallb _ (r :: rows)) with true.
  2:{ symmetry. apply forallb_forall. intros r' Hr'.
      rewrite (Hall r' Hr'), Hr. apply Nat.eqb_refl. }
  apply mapM_total_in. intros r' Hr'.
  destruct (nth_error r' j) as [v|] eqn:E.
  - rewrite (nth_error_nth _ _ _ E). reflexivity.
  - apply nth_error_None in E. rewrite (Hall r' Hr') in E. lia.
Qed.

Lemma array_min_spec (a : list Q) :
  a <> [] -> exists m, array_min a = Ok m /\ is_minimum m a.
Proof.
  destruct a as [|x t]; [congruence|]. intros _.
  eexists. split; [reflexivity|]. apply fold_Qmin_spec.
Qed.

Lemma array_max_spec (a : list Q) :
  a <> [] -> exists m, array_max a = Ok m /\ is_maximum m a.
Proof.
  destruct a as [|x t]; [congruence|]. intros _.
  eexists. split; [reflexivity|]. apply fold_Qmax_spec.
Qed.

Lemma minimum_of_minima {A : Type} (part : A -> list Q) (low : A -> Q)
    (l : list A) (m : Q) :
  (forall a, In a l -> is_minimum (low a) (part a)) ->
  is_minimum m (map low l) -> is_minimum m (flat_map part l).
Proof.
  intros Hl [Hin Hall]. rewrite Forall_forall in Hall. split.
  - apply in_map_iff in Hin. destruct Hin as [a [<- Ha]].
    apply in_flat_map. exists a. split; [exact Ha|]. apply Hl, Ha.
  - apply Forall_forall. intros v Hv. apply in_flat_map in Hv.
    destruct Hv as [a [Ha Hv]]. destruct (Hl a Ha) as [_ Hlow].
    rewrite Forall_forall in Hlow.
    apply Qle_trans with (low a); [|apply Hlow, Hv].
    apply Hall, in_map, Ha.
Qed.

Lemma maximum_of_maxima {A : Type} (part : A -> list Q) (high : A -> Q)
    (l : list A) (m : Q) :
  (forall a, In a l -> is_maximum (high a) (part a)) ->
  is_maximum m (map high l) -> is_maximum m (flat_map part l).
Proof.
  intros Hl [Hin Hall]. rewrite Forall_forall in Hall. split.
  - apply in_map_iff in Hin. destruct Hin as [a [<- Ha]].
    apply in_flat_map. exists a. split; [exact Ha|]. apply Hl, Ha.
  - apply Forall_forall. intros v Hv. apply in_flat_map in Hv.
    destruct Hv as [a [Ha Hv]]. destruct (Hl a Ha) as [_ Hhigh].
    rewrite Forall_forall in Hhigh.
    apply Qle_trans with (high a); [apply Hhigh, Hv|].
    apply Hall, in_map, Ha.
Qed.

Lemma map_flat_map {A B C : Type} (f : B -> C) (g : A -> list B)
    (l : list A) :
  map f (flat_map g l) = flat_map (fun a => map f (g a)) l.
Proof.
  induction l as [|a l IH]; [reflexivity|].
  cbn [flat_map]. rewrite map_app, IH. reflexivity.
Qed.

Lemma bounds_spec (g : Geometry) :
  shell_coordinates g <> [] ->
  List.length (bounds g) = 4%nat
  /\ is_minimum (nth 0 (bounds g) 0) (map fst (shell_coordinates g))
  /\ is_minimum (nth 1 (bounds g) 0) (map snd (shell_coordinates g))
  /\ is_maximum (nth 2 (bounds g) 0) (map fst (shell_coordinates g))
  /\ is_maximum (nth 3 (bounds g) 0) (map snd (shell_coordinates g)).
Proof.
  unfold bounds. destruct (shell_coordinates g) as [|c cs]; [congruence|].
  intros _. cbn [nth map List.length].
  split; [reflexivity|].
  split; [apply fold_Qmin_spec|]. split; [apply fold_Qmin_spec|].
  split; [apply fold_Qmax_spec|apply fold_Qmax_spec].
Qed.

(** X17: the legacy path of [_total_bounds] raises an [IndexError] on
    an empty collection, and on a non-empty collection of non-empty
    geometries it returns [xmin, ymin, xmax, ymax] where each bound is
    attained by a shell vertex of the collection and bounds all of
    them. *)
Theorem total_bounds_spec
    (shapely_total_bounds : list Geometry -> list Q)
    (polygons : list Geometry) :
  (polygons = [] ->
   exists msg,
     _total_bounds false shapely_total_bounds polygons
     = Raise (IndexError msg))
  /\ (polygons <> [] ->
      (forall g, In g polygons -> shell_coordinates g <> []) ->
      exists xmin ymin xmax ymax,
        _total_bounds false shapely_total_bounds polygons
        = Ok [xmin; ymin; xmax; ymax]
        /\ is_minimum xmin (shell_xs polygons)
        /\ is_minimum ymin (shell_ys polygons)
        /\ is_maximum xmax (shell_xs polygons)
        /\ is_maximum ymax (shell_ys polygons)).
Proof.
  split.
  - intros ->. eexists. reflexivity.
  - intros Hne Hall. unfold _total_bounds.
    assert (Hrows : map bounds polygons <> [])
      by (destruct polygons; [congruence|discriminate]).
    assert (Hlen : Forall (fun r => List.length r = 4%nat)
                     (map bounds polygons)).
    { apply Forall_forall. intros r Hr. apply in_map_iff in Hr.
      destruct Hr as [g [<- Hg]]. apply bounds_spec, Hall, Hg. }
    assert (Hcol : forall j, (j < 4)%nat ->
              map (fun r => nth j r 0) (map bounds polygons) <> [])
      by (intros j _; destruct polygons; [congruence|discriminate]).
    rewrite (array_column_rows _ 4 0 Hrows Hlen) by lia. cbn [bind].
    destruct (array_min_spec _ (Hcol 0%nat ltac:(lia))) as [xmin [E0 M0]].
    rewrite E0. cbn [bind].
    rewrite (array_column_rows _ 4 1 Hrows Hlen) by lia. cbn [bind].
    destruct (array_min_spec _ (Hcol 1%nat ltac:(lia))) as [ymin [E1 M1]].
    rewrite E1. cbn [bind].
    rewrite (array_column_rows _ 4 2 Hrows Hlen) by lia. cbn [bind].
    destruct (array_max_spec _ (Hcol 2%nat ltac:(lia))) as [xmax [E2 M2]].
    rewrite E2. cbn [bind].
    rewrite (array_column_rows _ 4 3 Hrows Hlen) by lia. cbn [bind].
    destruct (array_max_spec _ (Hcol 3%nat ltac:(lia))) as [ymax [E3 M3]].
    rewrite E3. cbn [bind].
    exists xmin, ymin, xmax, ymax. split; [reflexivity|].
    rewrite map_map in M0, M1, M2, M3.
    unfold shell_xs, shell_ys. rewrite !map_flat_map.
    split; [|split; [|split]].
    + apply (minimum_of_minima _ (fun g => nth 0 (bounds g) 0));
        [|exact M0]. intros g Hg. apply bounds_spec, Hall, Hg.
    + apply (minimum_of_minima _ (fun g => nth 1 (bounds g) 0));
        [|exact M1]. intros g Hg. apply bounds_spec, Hall, Hg.
    + apply (maximum_of_maxima _ (fun g => nth 2 (bounds g) 0));
        [|exact M2]. intros g Hg. apply bounds_spec, Hall, Hg.
    + apply (maximum_of_maxima _ (fun g => nth 3 (bounds g) 0));
        [|exact M3]. intros g Hg. apply bounds_spec, Hall, Hg.
Qed.

Lemma total_bounds_spec_witness :
  exists xmin ymin xmax ymax,
    _total_bounds false (fun _ => [])
      [GPolygon (mk_Polygon [(0, 0); (2, 0); (2, 1); (0, 0)] []);
       GPolygon (mk_Polygon [(5, -3); (6, -3); (6, 4); (5, -3)] [])]
    = Ok [xmin; ymin; xmax; ymax]
    /\ xmin == 0 /\ ymin == -3 /\ xmax == 6 /\ ymax == 4.
Proof.
  destruct (total_bounds_spec (fun _ => [])
      [GPolygon (mk_Polygon [(0, 0); (2, 0); (2, 1); (0, 0)] []);
       GPolygon (mk_Polygon [(5, -3); (6, -3); (6, 4); (5, -3)] [])])
    as [_ H].
  destruct H as [xmin [ymin [xmax [ymax [E _]]]]].
  - discriminate.
  - intros g [<-|[<-|[]]]; discriminate.
  - exists xmin, ymin, xmax, ymax. split; [exact E|].
    vm_compute in E. injection E as <- <- <- <-.
    repeat split; reflexivity.
Defined.

End TotalBounds.

(** ** Names and abbreviations *)

Section Names.

Local Open Scope Z_scope.

Lemma dict_get_set {V : Type} (d : Py.dict V) (k k' : Z) (v : V) :
  Py.dict_get (Py.dict_set d k v) k'
  = if k' =? k then Some v else Py.dict_get d k'.
Proof.
  induction d as [|[j w] d IH]; cbn [Py.dict_set Py.dict_get].
  - destruct (k' =? k); reflexivity.
  - destruct (Z.eqb_spec k j) as [->|Hkj]; cbn [Py.dict_get].
    + destruct (k' =? j); reflexivity.
    + destruct (Z.eqb_spec k' j) as [->|Hk'j].
      * destruct (Z.eqb_spec j k) as [->|_]; [congruence|reflexivity].
      * exact IH.
Qed.

Lemma dict_get_fold {V : Type} (items : list (Z * V)) :
  forall (d : Py.dict V) (k : Z),
    Py.dict_get
      (fold_left (fun d kv => Py.dict_set d (fst kv) (snd kv)) items d) k
    = match Py.dict_get (rev items) k with
      | Some v => Some v
      | None => Py.dict_get d k
      end.
Proof.
  induction items as [|[j w] items IH]; intros d k; [reflexivity|].
  cbn [fold_left fst snd rev]. rewrite IH, dict_get_set.
  assert (A : forall (l : list (Z * V)),
            Py.dict_get (l ++ [(j, w)]) k
            = match Py.dict_get l k with
              | Some v => Some v
              | None => if k =? j then Some w else None
              end).
  { induction l as [|[a b] l IHl]; cbn [app Py.dict_get]; [reflexivity|].
    destruct (k =? a); [reflexivity|exact IHl]. }
  rewrite A. destruct (Py.dict_get (rev items) k); [reflexivity|].
  destruct (k =? j); reflexivity.
Qed.

(** The items of a comprehension: the last item of a key is the one
    that is kept. *)
Lemma dict_of_items_get {V : Type} (items : list (Z * V)) (k : Z) :
  Py.dict_get (Py.dict_of_items items) k = Py.dict_get (rev items) k.
Proof.
  unfold Py.dict_of_items. rewrite dict_get_fold.
  destruct (Py.dict_get (rev items) k); reflexivity.
Qed.

Lemma dict_get_graph {V : Type} (f : Z -> V) (l : list Z) (k : Z) :
  (In k l -> Py.dict_get (map (fun n => (n, f n)) l) k = Some (f k))
  /\ (~ In k l -> Py.dict_get (map (fun n => (n, f n)) l) k = None).
Proof.
  induction l as [|j l [IH1 IH2]]; cbn [map Py.dict_get].
  - split; [intros []|reflexivity].
  - destruct (Z.eqb_spec k j) as [->|Hne].
    + split; [reflexivity|]. intros H. exfalso. apply H. now left.
    + split.
      * intros [H|H]; [congruence|]. apply IH1, H.
      * intros H. apply IH2. intros C. apply H. now right.
Qed.

Lemma numbered_string_get (numbers : list Z) (s : string) (k : Z) :
  (In k numbers ->
   Py.dict_get (_create_dict_of_numbered_string numbers s) k
   = Some (s ++ Py.str k)%string)
  /\ (~ In k numbers ->
      Py.dict_get (_create_dict_of_numbered_string numbers s) k = None).
Proof.
  unfold _create_dict_of_numbered_string.
  rewrite dict_of_items_get, <- map_rev.
  destruct (dict_get_graph (fun n => (s ++ Py.str n)%string) (rev numbers) k)
    as [G1 G2].
  split; intros H.
  - apply G1. apply in_rev in H. exact H.
  - apply G2. intros C. apply H. apply in_rev. exact C.
Qed.

Lemma str_inj (n m : Z) : Py.str n = Py.str m -> n = m.
Proof.
  unfold Py.str. intros H. apply DecimalZ.to_int_inj.
  assert (N : forall z, Z.to_int z <> Decimal.Pos Decimal.Nil
                        /\ Z.to_int z <> Decimal.Neg Decimal.Nil).
  { intros [|p|p]; cbn; split; try discriminate;
      intros C; injection C as C;
      exact (DecimalPos.Unsigned.to_uint_nonnil p C). }
  assert (S : Some (Z.to_int n) = Some (Z.to_int m)).
  { rewrite <- (NilZero.isi (Z.to_int n)) by apply N.
    rewrite <- (NilZero.isi (Z.to_int m)) by apply N.
    rewrite H. reflexivity. }
  congruence.
Qed.

Lemma append_inj (s a b : string) :
  (s ++ a)%string = (s ++ b)%string -> a = b.
Proof.
  induction s as [|c s IH]; cbn; [tauto|].
  intros H. injection H as H. apply IH, H.
Qed.

(** X18: given a string, or [None] and a default, as values,
    [_sanitize_names_abbrevs] names every number [n] of [numbers] by
    the string followed by [str(n)], names no other number, and gives
    different numbers different names. *)
Theorem numbered_names (numbers : list Z) (values : names_arg)
    (default prefix : string) :
  values = VStr prefix \/ (values = VNone /\ prefix = default) ->
  exists d,
    _sanitize_names_abbrevs numbers values default = Ok d
    /\ (forall n, In n numbers ->
          Py.dict_get d n = Some (prefix ++ Py.str n)%string)
    /\ (forall n, ~ In n numbers -> Py.dict_get d n = None)
    /\ (forall n m, In n numbers -> In m numbers ->
          Py.dict_get d n = Py.dict_get d m -> n = m).
Proof.
  intros H.
  exists (_create_dict_of_numbered_string numbers prefix).
  split; [destruct H as [->|[-> ->]]; reflexivity|].
  split; [intros n; apply numbered_string_get|].
  split; [intros n; apply numbered_string_get|].
  intros n m Hn Hm E.
  destruct (numbered_string_get numbers prefix n) as [En _].
  destruct (numbered_string_get numbers prefix m) as [Em _].
  rewrite (En Hn), (Em Hm) in E. injection E as E.
  apply str_inj. exact (append_inj _ _ _ E).
Qed.

Lemma numbered_names_witness :
  exists d,
    _sanitize_names_abbrevs [3; -1; 12] VNone "Region" = Ok d
    /\ Py.dict_get d (-1) = Some "Region-1"%string
    /\ Py.dict_get d 12 = Some "Region12"%string
    /\ Py.dict_get d 4 = None.
Proof.
  destruct (numbered_names [3; -1; 12] VNone "Region" "Region")
    as [d [E [H1 [H2 _]]]].
  - right. split; reflexivity.
  - exists d. split; [exact E|].
    split; [apply (H1 (-1)); simpl; tauto|].
    split; [apply (H1 12); simpl; tauto|].
    apply H2. simpl. lia.
Defined.

Lemma dict_get_combine_last (ks : list Z) (vs : list string) :
  List.length ks = List.length vs ->
  forall k,
    (k < List.length ks)%nat ->
    (forall k', (k < k')%nat -> (k' < List.length ks)%nat ->
                nth k' ks 0 <> nth k ks 0) ->
    Py.dict_get (rev (combine ks vs)) (nth k ks 0)
    = Some (nth k vs EmptyString).
Proof.
  revert vs. induction ks as [|j ks IH]; intros [|w vs] Hlen k Hk Hlast;
    try discriminate Hlen; [simpl in Hk; lia|].
  cbn [combine rev].
  assert (A : forall (l : list (Z * string)) q,
            Py.dict_get (l ++ [(j, w)]) q
            = match Py.dict_get l q with
              | Some v => Some v
              | None => if q =? j then Some w else None
              end).
  { induction l as [|[a b] l IHl]; intros q; cbn [app Py.dict_get];
      [reflexivity|]. destruct (q =? a); [reflexivity|apply IHl]. }
  rewrite A. destruct k as [|k]; cbn [nth].
  - assert (N : Py.dict_get (rev (combine ks vs)) j = None).
    { destruct (Py.dict_get (rev (combine ks vs)) j) as [v|] eqn:E;
        [|reflexivity]. exfalso.
      assert (Hin : In j ks).
      { clear - E. assert (G : forall (l : list (Z * string)) q v,
                    Py.dict_get l q = Some v -> In q (map fst l)).
        { induction l as [|[a b] l IHl]; intros q v0; cbn [Py.dict_get];
            [discriminate|].
          destruct (Z.eqb_spec q a) as [->|_]; [intros _; now left|].
          intros H. right. eapply IHl, H. }
        apply G in E. rewrite map_rev in E. apply in_rev in E.
        clear - E. revert vs E.
        induction ks as [|a ks IHk]; intros [|b vs] E; cbn in E;
          try contradiction.
        destruct E as [<-|E]; [now left|]. right. eapply IHk, E. }
      destruct (In_nth _ _ 0 Hin) as [i [Hi Ei]].
      apply (Hlast (S i)); [lia|simpl; lia|]. cbn [nth]. exact Ei. }
    rewrite N, Z.eqb_refl. reflexivity.
  - rewrite (IH vs); [reflexivity| simpl in Hlen; lia | simpl in Hk; lia |].
    intros k' H1 H2. apply (Hlast (S k')); [lia|simpl; lia].
Qed.

(** X19: given a dict or a sequence as values,
    [_sanitize_names_abbrevs] raises the [ValueError] exactly when its
    length differs from that of [numbers]; a dict of the right length is
    returned as it is, whatever its keys, and a sequence is matched to
    the numbers by position, the last position of a repeated number
    winning, with no entry for any other number. *)
Theorem sanitize_names_values (numbers : list Z) (v : dict_or_seq)
    (default : string) :
  (List.length numbers <> len_values v ->
   _sanitize_names_abbrevs numbers (VOther v) default
   = Raise (ValueError "`numbers` and `values` do not have the same length."))
  /\ (List.length numbers = len_values v ->
      exists d,
        _sanitize_names_abbrevs numbers (VOther v) default = Ok d
        /\ match v with
           | IsDict d0 => d = d0
           | IsSeq l =>
               (forall k, (k < List.length numbers)%nat ->
                  (forall k', (k < k')%nat ->
                              (k' < List.length numbers)%nat ->
                              nth k' numbers 0 <> nth k numbers 0) ->
                  Py.dict_get d (nth k numbers 0)
                  = Some (nth k l EmptyString))
               /\ (forall n, ~ In n numbers -> Py.dict_get d n = None)
           end).
Proof.
  unfold _sanitize_names_abbrevs. split; intros H.
  - apply Nat.eqb_neq in H. rewrite H. reflexivity.
  - pose proof H as H'. apply Nat.eqb_eq in H'. rewrite H'. cbn [negb].
    eexists. split; [reflexivity|].
    destruct v as [d0|l]; [reflexivity|]. cbn [_maybe_to_dict].
    cbn [len_values] in H. split.
    + intros k Hk Hlast. rewrite dict_of_items_get.
      apply dict_get_combine_last; assumption.
    + intros n Hn. rewrite dict_of_items_get.
      destruct (Py.dict_get (rev (combine numbers l)) n) as [w|] eqn:E;
        [|reflexivity]. exfalso. apply Hn.
      assert (G : forall (l0 : list (Z * string)) q w0,
                Py.dict_get l0 q = Some w0 -> In (q, w0) l0).
      { induction l0 as [|[a b] l0 IHl]; intros q w0; cbn [Py.dict_get];
          [discriminate|].
        destruct (Z.eqb_spec q a) as [->|_].
        - intros E0. injection E0 as ->. now left.
        - intros E0. right. apply IHl, E0. }
      apply G in E. apply in_rev in E. apply in_combine_l in E. exact E.
Qed.

Lemma sanitize_names_values_witness :
  _sanitize_names_abbrevs [1; 2] (VOther (IsSeq ["a"; "b"; "c"]%string))
    "r"
  = Raise (ValueError "`numbers` and `values` do not have the same length.")
  /\ exists d,
       _sanitize_names_abbrevs [7; 8; 7]
         (VOther (IsSeq ["a"; "b"; "c"]%string)) "r" = Ok d
       /\ Py.dict_get d 7 = Some "c"%string
       /\ Py.dict_get d 8 = Some "b"%string.
Proof.
  split.
  - apply (sanitize_names_values [1; 2] (IsSeq ["a"; "b"; "c"]%string) "r").
    simpl. lia.
  - destruct (sanitize_names_values [7; 8; 7]
                (IsSeq ["a"; "b"; "c"]%string) "r") as [_ H].
    destruct (H eq_refl) as [d [E [G _]]].
    exists d. split; [exact E|]. split.
    + apply (G 2%nat); [simpl; lia|]. intros k' H1 H2. simpl in H2. lia.
    + apply (G 1%nat); [simpl; lia|]. intros k' H1 H2. simpl in H2.
      assert (k' = 2%nat) by lia. subst. simpl. lia.
Defined.

End Names.

(** ** Conventions of the longitude normalizer *)

Section WrapBases.

Lemma congruent_same_turn (a b lo : Q) :
  congruent360 a b -> lo <= a -> a < lo + 360 -> lo <= b -> b < lo + 360 ->
  a == b.
Proof.
  intros [k Hk] A1 A2 B1 B2.
  assert (K : k = 0%Z).
  { assert (L : inject_Z (-1) < inject_Z k).
    { change (inject_Z (-1)) with (-1). lra. }
    assert (U : inject_Z k < inject_Z 1).
    { change (inject_Z 1) with 1. lra. }
    rewrite <- Zlt_Qlt in L, U. lia. }
  subst k. change (inject_Z 0) with 0 in Hk. lra.
Qed.

Lemma wrap180_elt_small (x : Q) : in_180_180 x -> wrap180_elt x = x.
Proof.
  intros [H1 H2]. unfold wrap180_elt.
  replace (Np.Qltb x (-180)) with false
    by (symmetry; apply Qltb_false_iff; lra).
  replace (Qle_bool 180 x) with false
    by (symmetry; apply Qle_bool_false_iff; lra).
  reflexivity.
Qed.

Lemma wrapAngle180_small (lon : list Q) :
  Forall in_180_180 lon -> _wrapAngle180 lon = lon.
Proof.
  intros H. rewrite wrapAngle180_map.
  induction H as [|x t Hx Ht IH]; [reflexivity|].
  cbn [map]. rewrite IH, (wrap180_elt_small x Hx). reflexivity.
Qed.

Lemma wrapAngle360_small (lon : list Q) :
  Forall in_0_360 lon -> Forall2 Qeq (_wrapAngle360 lon) lon.
Proof.
  intros H. unfold _wrapAngle360.
  induction H as [|x t Hx Ht IH]; [constructor|].
  cbn [map]. constructor; [apply mod_small, Hx|exact IH].
Qed.

Lemma InA_Forall2_Qeq (l l' : list Q) (x x' : Q) :
  Forall2 Qeq l l' -> x == x' -> InA Qeq x l -> InA Qeq x' l'.
Proof.
  intros F E. induction F as [|y y' l l' Hy F IH]; intros H.
  - inversion H.
  - apply InA_cons in H. apply InA_cons. destruct H as [H|H].
    + left. rewrite <- E, H. exact Hy.
    + right. apply IH, H.
Qed.

Lemma NoDupA_Forall2_Qeq (l l' : list Q) :
  Forall2 Qeq l l' -> NoDupA Qeq l -> NoDupA Qeq l'.
Proof.
  intros F. induction F as [|y y' l l' Hy F IH]; intros H; [constructor|].
  inversion H as [|a b Ha Hb]; subst. constructor; [|apply IH, Hb].
  intros C. apply Ha.
  apply (InA_Forall2_Qeq l' l y' y); [|symmetry; exact Hy|exact C].
  clear - F. induction F; constructor; [symmetry; assumption|assumption].
Qed.

Lemma Forall2_Qeq_trans (a b c : list Q) :
  Forall2 Qeq a b -> Forall2 Qeq b c -> Forall2 Qeq a c.
Proof.
  intros F. revert c. induction F as [|x y a b Hxy F IH]; intros c G.
  - inversion G. constructor.
  - inversion G as [|y' z b' c' Hyz G']; subst.
    constructor; [rewrite Hxy; exact Hyz|apply IH, G'].
Qed.

(** On one axis and with a given base, [_wrapAngle] succeeds when the
    wrapped values are pairwise distinct or the grid is unstructured. *)
Lemma wrapAngle_given (lon : list Q) (n : Z) (u : bool) :
  u = true \/ NoDupA Qeq (wrap_to n lon) ->
  _wrapAngle (Np.Seq lon) (WNum n) u = Ok (Np.mk_ndarray 1 (wrap_to n lon)).
Proof.
  intros H. unfold _wrapAngle.
  cbn [Np.asarray Np.flat Np.ndim infer_wrap_lon bind].
  destruct u.
  - reflexivity.
  - destruct H as [H|H]; [discriminate|].
    destruct (check_unique_spec (wrap_to n lon)) as [C _].
    rewrite (C H). reflexivity.
Qed.

Lemma wrap_to_180 (lon : list Q) : wrap_to 180 lon = _wrapAngle180 lon.
Proof. reflexivity. Qed.

Lemma wrap_to_360 (lon : list Q) : wrap_to 360 lon = _wrapAngle360 lon.
Proof. reflexivity. Qed.

Lemma wrap_to_other (n : Z) (lon : list Q) :
  n <> 180%Z -> n <> 360%Z -> wrap_to n lon = lon.
Proof.
  intros H1 H2. unfold wrap_to.
  apply Z.eqb_neq in H1, H2. rewrite H1, H2. reflexivity.
Qed.

(** X20: with a given base, [_wrapAngle] returns one-dimensional
    data that already lies in the range of that base unchanged
    (provided the values are pairwise distinct or the grid is
    unstructured): in [-180, 180[ for base 180, in [0, 360[ for base
    360; and a base other than 180 and 360 (such as [False]) never
    changes the data. *)
Theorem wrapAngle_in_range_unchanged (lon : list Q) (u : bool) :
  u = true \/ NoDupA Qeq lon ->
  (Forall in_180_180 lon ->
   _wrapAngle (Np.Seq lon) (WNum 180) u = Ok (Np.mk_ndarray 1 lon))
  /\ (Forall in_0_360 lon ->
      exists r, _wrapAngle (Np.Seq lon) (WNum 360) u = Ok r
                /\ Np.ndim r = 1%nat /\ Forall2 Qeq (Np.flat r) lon)
  /\ (forall n, n <> 180%Z -> n <> 360%Z ->
      _wrapAngle (Np.Seq lon) (WNum n) u = Ok (Np.mk_ndarray 1 lon)).
Proof.
  intros H. split; [|split].
  - intros R. rewrite wrapAngle_given; rewrite wrap_to_180, wrapAngle180_small;
      try assumption; reflexivity.
  - intros R. exists (Np.mk_ndarray 1 (wrap_to 360 lon)).
    split; [|split; [reflexivity|]].
    + apply wrapAngle_given. destruct H as [H|H]; [now left|right].
      rewrite wrap_to_360.
      apply (NoDupA_Forall2_Qeq lon); [|exact H].
      pose proof (wrapAngle360_small lon R) as F.
      clear - F. induction F; constructor; [symmetry; assumption|assumption].
    + cbn [Np.flat]. rewrite wrap_to_360. apply wrapAngle360_small, R.
  - intros n H1 H2. rewrite wrapAngle_given; rewrite wrap_to_other;
      try assumption; reflexivity.
Qed.

Lemma wrapAngle_in_range_unchanged_witness :
  _wrapAngle (Np.Seq [-180; 0; 179]) (WNum 180) false
  = Ok (Np.mk_ndarray 1 [-180; 0; 179]).
Proof.
  destruct (wrapAngle_in_range_unchanged [-180; 0; 179] false) as [H _];
    [|apply H].
  - right.
    repeat (apply NoDupA_cons;
            [intros C;
             repeat (apply InA_cons in C; destruct C as [C|C];
                     [vm_compute in C; discriminate C|]);
             inversion C|]).
    apply NoDupA_nil.
  - repeat (apply Forall_cons;
            [split; vm_compute; first [discriminate|reflexivity]|]).
    apply Forall_nil.
Defined.

Lemma wrap360_then_180 (x : Q) :
  in_180_180 x -> wrap180_elt (Np.mod_ x 360) == x.
Proof.
  intros [H1 H2].
  apply (congruent_same_turn _ _ (-180)).
  - apply congruent360_trans with (Np.mod_ x 360);
      [apply wrap180_elt_congruent|apply mod_congruent].
  - apply wrap180_elt_range.
  - destruct (wrap180_elt_range (Np.mod_ x 360)). lra.
  - exact H1.
  - lra.
Qed.

Lemma wrap180_then_360 (x : Q) :
  in_0_360 x -> Np.mod_ (wrap180_elt x) 360 == x.
Proof.
  intros [H1 H2].
  apply (congruent_same_turn _ _ 0).
  - apply congruent360_trans with (wrap180_elt x);
      [apply mod_congruent|apply wrap180_elt_congruent].
  - apply mod_range.
  - destruct (mod_range (wrap180_elt x)). lra.
  - exact H1.
  - lra.
Qed.

Lemma NoDupA_map_inj (f : Q -> Q) (lon : list Q) (P : Q -> Prop) :
  (forall x y, P x -> P y -> f x == f y -> x == y) ->
  Forall P lon -> NoDupA Qeq lon -> NoDupA Qeq (map f lon).
Proof.
  intros Hinj HP Hnd. induction Hnd as [|x t Hx Hnd IH]; [constructor|].
  inversion HP as [|a b Pa Pb]; subst. cbn [map].
  constructor; [|apply IH, Pb].
  intros C. apply Hx. apply InA_alt in C. destruct C as [z [Ez Hz]].
  apply in_map_iff in Hz. destruct Hz as [y [<- Hy]].
  apply InA_alt. exists y. split; [|exact Hy].
  apply Hinj; [exact Pa| |exact Ez].
  rewrite Forall_forall in Pb. apply Pb, Hy.
Qed.

Lemma congruent360_sym (a b : Q) : congruent360 a b -> congruent360 b a.
Proof.
  intros [k Hk]. exists (- k)%Z. rewrite inject_Z_opp. lra.
Qed.

Lemma congruent360_eq (a b : Q) : a == b -> congruent360 a b.
Proof.
  intros E. exists 0%Z. change (inject_Z 0) with 0. lra.
Qed.

Lemma Forall2_Qeq_sym (a b : list Q) : Forall2 Qeq a b -> Forall2 Qeq b a.
Proof.
  intros F. induction F; constructor; [symmetry; assumption|assumption].
Qed.

(** X21: in exact arithmetic, converting pairwise distinct
    longitudes of [-180, 180[ to base 360 and back to base 180 succeeds
    at both steps and gives back the original values, and so does the
    conversion of longitudes of [0, 360[ to base 180 and back. *)
Theorem wrapAngle_round_trip (lon : list Q) :
  NoDupA Qeq lon ->
  (Forall in_180_180 lon ->
   exists r r',
     _wrapAngle (Np.Seq lon) (WNum 360) false = Ok r
     /\ Forall in_0_360 (Np.flat r)
     /\ _wrapAngle (Np.Seq (Np.flat r)) (WNum 180) false = Ok r'
     /\ Forall2 Qeq (Np.flat r') lon)
  /\ (Forall in_0_360 lon ->
      exists r r',
        _wrapAngle (Np.Seq lon) (WNum 180) false = Ok r
        /\ Forall in_180_180 (Np.flat r)
        /\ _wrapAngle (Np.Seq (Np.flat r)) (WNum 360) false = Ok r'
        /\ Forall2 Qeq (Np.flat r') lon).
Proof.
  intros Hnd. split; intros R.
  - assert (F : Forall2 Qeq (_wrapAngle180 (_wrapAngle360 lon)) lon).
    { rewrite wrapAngle180_map. unfold _wrapAngle360. clear Hnd.
      induction R as [|x t Hx Ht IH]; [constructor|].
      cbn [map]. constructor; [apply wrap360_then_180, Hx|exact IH]. }
    exists (Np.mk_ndarray 1 (_wrapAngle360 lon)),
           (Np.mk_ndarray 1 (_wrapAngle180 (_wrapAngle360 lon))).
    cbn [Np.flat]. split; [|split; [|split]].
    + apply wrapAngle_given. right. rewrite wrap_to_360.
      unfold _wrapAngle360.
      apply (NoDupA_map_inj _ lon in_180_180); [|exact R|exact Hnd].
      intros x y [X1 X2] [Y1 Y2] E.
      apply (congruent_same_turn x y (-180)); try lra.
      apply congruent360_trans with (Np.mod_ x 360);
        [apply congruent360_sym, mod_congruent|].
      apply congruent360_trans with (Np.mod_ y 360);
        [apply congruent360_eq, E|apply mod_congruent].
    + unfold _wrapAngle360. apply Forall_forall. intros v Hv.
      apply in_map_iff in Hv. destruct Hv as [x [<- _]]. apply mod_range.
    + apply wrapAngle_given. right. rewrite wrap_to_180.
      apply (NoDupA_Forall2_Qeq lon); [apply Forall2_Qeq_sym, F|exact Hnd].
    + exact F.
  - assert (F : Forall2 Qeq (_wrapAngle360 (_wrapAngle180 lon)) lon).
    { rewrite wrapAngle180_map. unfold _wrapAngle360. rewrite map_map.
      clear Hnd. induction R as [|x t Hx Ht IH]; [constructor|].
      cbn [map]. constructor; [apply wrap180_then_360, Hx|exact IH]. }
    exists (Np.mk_ndarray 1 (_wrapAngle180 lon)),
           (Np.mk_ndarray 1 (_wrapAngle360 (_wrapAngle180 lon))).
    cbn [Np.flat]. split; [|split; [|split]].
    + apply wrapAngle_given. right. rewrite wrap_to_180, wrapAngle180_map.
      apply (NoDupA_map_inj _ lon in_0_360); [|exact R|exact Hnd].
      intros x y [X1 X2] [Y1 Y2] E.
      apply (congruent_same_turn x y 0); try lra.
      apply congruent360_trans with (wrap180_elt x);
        [apply congruent360_sym, wrap180_elt_congruent|].
      apply congruent360_trans with (wrap180_elt y);
        [apply congruent360_eq, E|apply wrap180_elt_congruent].
    + rewrite wrapAngle180_map. apply Forall_forall. intros v Hv.
      apply in_map_iff in Hv. destruct Hv as [x [<- _]].
      apply wrap180_elt_range.
    + apply wrapAngle_given. right. rewrite wrap_to_360.
      apply (NoDupA_Forall2_Qeq lon); [apply Forall2_Qeq_sym, F|exact Hnd].
    + exact F.
Qed.

Lemma wrapAngle_round_trip_witness :
  exists r r',
    _wrapAngle (Np.Seq [-170; -10; 0; 20]) (WNum 360) false = Ok r
    /\ Forall in_0_360 (Np.flat r)
    /\ _wrapAngle (Np.Seq (Np.flat r)) (WNum 180) false = Ok r'
    /\ Forall2 Qeq (Np.flat r') [-170; -10; 0; 20].
Proof.
  apply (wrapAngle_round_trip [-170; -10; 0; 20]).
  - repeat (apply NoDupA_cons;
            [intros C;
             repeat (apply InA_cons in C; destruct C as [C|C];
                     [vm_compute in C; discriminate C|]);
             inversion C|]).
    apply NoDupA_nil.
  - repeat (apply Forall_cons;
            [split; vm_compute; first [discriminate|reflexivity]|]).
    apply Forall_nil.
Defined.

Lemma rint_floor (y : Q) :
  (Qfloor y <= Np.rint y <= Qfloor y + 1)%Z
  /\ (y == inject_Z (Qfloor y) -> Np.rint y = Qfloor y).
Proof.
  unfold Np.rint.
  destruct (Qcompare_spec (y - inject_Z (Qfloor y)) (1 # 2)) as [E|E|E].
  - split; [destruct (Z.even (Qfloor y)); lia|]. intros C. lra.
  - split; [lia|reflexivity].
  - split; [lia|]. intros C. lra.
Qed.

Lemma rint_ge (y : Q) (k : Z) : inject_Z k <= y -> (k <= Np.rint y)%Z.
Proof.
  intros H. destruct (rint_floor y) as [[L _] _].
  destruct (floor_bounds y) as [_ F].
  assert (A : inject_Z k < inject_Z (Qfloor y + 1))
    by (rewrite inject_Z_plus; change (inject_Z 1) with 1; lra).
  rewrite <- Zlt_Qlt in A. lia.
Qed.

Lemma rint_le (y : Q) (k : Z) : y <= inject_Z k -> (Np.rint y <= k)%Z.
Proof.
  intros H. destruct (rint_floor y) as [[_ U] E].
  destruct (floor_bounds y) as [F _].
  assert (A : inject_Z (Qfloor y) <= inject_Z k) by lra.
  rewrite <- Zle_Qle in A.
  destruct (Z.eq_dec (Qfloor y) k) as [D|D]; [|lia].
  rewrite E; [lia|]. rewrite D in *. lra.
Qed.

Lemma round6_ge (x : Q) (k : Z) :
  inject_Z k / 1000000 <= x -> inject_Z k / 1000000 <= Np.round x 6.
Proof.
  intros H. unfold Np.round.
  change (inject_Z (10 ^ Z.of_nat 6)) with 1000000.
  unfold Qdiv in *. change (/ 1000000) with (1 # 1000000) in *.
  assert (A : (k <= Np.rint (x * 1000000))%Z) by (apply rint_ge; lra).
  rewrite Zle_Qle in A. lra.
Qed.

Lemma round6_le (x : Q) (k : Z) :
  x <= inject_Z k / 1000000 -> Np.round x 6 <= inject_Z k / 1000000.
Proof.
  intros H. unfold Np.round.
  change (inject_Z (10 ^ Z.of_nat 6)) with 1000000.
  unfold Qdiv in *. change (/ 1000000) with (1 # 1000000) in *.
  assert (A : (Np.rint (x * 1000000) <= k)%Z) by (apply rint_le; lra).
  rewrite Zle_Qle in A. lra.
Qed.

Lemma infer_to_360 (lon : list Q) :
  lon <> [] -> Forall (fun v => v <= 180) lon ->
  infer_wrap_lon lon WTrue = Ok 360%Z.
Proof.
  intros Hne Hall. destruct lon as [|x t]; [congruence|].
  unfold infer_wrap_lon, Np.nanmin, Np.nanmax, _is_180. cbn [bind].
  destruct (fold_Qmax_spec t x) as [Hin _].
  rewrite Forall_forall in Hall. pose proof (Hall _ Hin) as Hmx.
  assert (R : Np.round (fold_left Np.Qmax t x) 6 <= 180).
  { pose proof (round6_le (fold_left Np.Qmax t x) 180000000) as B.
    unfold Qdiv in B. change (/ 1000000) with (1 # 1000000) in B.
    change (inject_Z 180000000) with 180000000 in B. lra. }
  replace (Np.Qltb 180 (Np.round (fold_left Np.Qmax t x) 6)) with false
    by (symmetry; apply Qltb_false_iff; exact R).
  rewrite andb_false_r. cbn [bind].
  replace (Qle_bool (Np.round (fold_left Np.Qmax t x) 6) 180) with true
    by (symmetry; apply Qle_bool_iff; exact R).
  reflexivity.
Qed.

Lemma infer_to_180 (lon : list Q) :
  Forall (fun v => 0 <= v) lon ->
  Exists (fun v => 180 + (1 # 1000000) <= v) lon ->
  infer_wrap_lon lon WTrue = Ok 180%Z.
Proof.
  intros Hall Hex. destruct lon as [|x t]; [inversion Hex|].
  unfold infer_wrap_lon, Np.nanmin, Np.nanmax, _is_180. cbn [bind].
  destruct (fold_Qmin_spec t x) as [Hin _].
  destruct (fold_Qmax_spec t x) as [_ Hmax].
  rewrite Forall_forall in Hall, Hmax. pose proof (Hall _ Hin) as Hmn.
  apply Exists_exists in Hex. destruct Hex as [v [Hv Hbig]].
  pose proof (Hmax v Hv) as Hmx.
  assert (R0 : 0 <= Np.round (fold_left Np.Qmin t x) 6).
  { pose proof (round6_ge (fold_left Np.Qmin t x) 0) as B.
    unfold Qdiv in B. change (/ 1000000) with (1 # 1000000) in B.
    change (inject_Z 0) with 0 in B. lra. }
  assert (R1 : 180 < Np.round (fold_left Np.Qmax t x) 6).
  { pose proof (round6_ge (fold_left Np.Qmax t x) 180000001) as B.
    unfold Qdiv in B. change (/ 1000000) with (1 # 1000000) in B.
    change (inject_Z 180000001) with 180000001 in B. lra. }
  replace (Np.Qltb (Np.round (fold_left Np.Qmin t x) 6) 0) with false
    by (symmetry; apply Qltb_false_iff; exact R0).
  cbn [andb bind].
  replace (Qle_bool (Np.round (fold_left Np.Qmax t x) 6) 180) with false
    by (symmetry; apply Qle_bool_false_iff; exact R1).
  reflexivity.
Qed.

Lemma wrapAngle_inferred (lon : list Q) (n : Z) (u : bool) :
  infer_wrap_lon lon WTrue = Ok n ->
  _wrapAngle (Np.Seq lon) WTrue u = _wrapAngle (Np.Seq lon) (WNum n) u.
Proof.
  intros H. unfold _wrapAngle. cbn [Np.asarray Np.flat Np.ndim].
  rewrite H. reflexivity.
Qed.

(** X22: the inference of [wrap_lon=True] does what the docstring
    says on data of one convention: non-empty longitudes that are all
    at most 180 are wrapped to base 360, and non-negative longitudes one
    of which is at least 180.000001 are wrapped to base 180. *)
Theorem wrapAngle_other_base (lon : list Q) (u : bool) :
  (lon <> [] -> Forall (fun v => v <= 180) lon ->
   _wrapAngle (Np.Seq lon) WTrue u = _wrapAngle (Np.Seq lon) (WNum 360) u)
  /\ (Forall (fun v => 0 <= v) lon ->
      Exists (fun v => 180 + (1 # 1000000) <= v) lon ->
      _wrapAngle (Np.Seq lon) WTrue u
      = _wrapAngle (Np.Seq lon) (WNum 180) u).
Proof.
  split.
  - intros Hne Hall. apply wrapAngle_inferred, infer_to_360; assumption.
  - intros Hall Hex. apply wrapAngle_inferred, infer_to_180; assumption.
Qed.

Lemma wrapAngle_other_base_witness :
  _wrapAngle (Np.Seq [0; 90; 270]) WTrue false
  = _wrapAngle (Np.Seq [0; 90; 270]) (WNum 180) false.
Proof.
  destruct (wrapAngle_other_base [0; 90; 270] false) as [_ H]. apply H.
  - repeat (apply Forall_cons; [vm_compute; discriminate|]). apply Forall_nil.
  - apply Exists_cons_tl, Exists_cons_tl, Exists_cons_hd.
    vm_compute. discriminate.
Defined.

(** X23: a scalar longitude is always accepted: whatever the base
    or the inference, [_wrapAngle] returns a one-element
    one-dimensional array whose value is congruent to the scalar
    modulo 360. *)
Theorem wrapAngle_scalar (x : Q) (w : wrap_arg) (u : bool) :
  exists v,
    _wrapAngle (Np.Scalar x) w u = Ok (Np.mk_ndarray 1 [v])
    /\ congruent360 v x.
Proof.
  assert (U : forall n v, check_unique n u [v] = Ok tt).
  { intros n v. unfold check_unique.
    destruct ((n =? 1)%nat && negb u); reflexivity. }
  assert (W : forall n, exists v, wrap_to n [x] = [v] /\ congruent360 v x).
  { intros n. unfold wrap_to.
    destruct (n =? 180)%Z eqn:E1.
    - apply Z.eqb_eq in E1. subst n. cbn [Z.eqb Pos.eqb].
      rewrite wrapAngle180_map. cbn [map]. eexists.
      split; [reflexivity|apply wrap180_elt_congruent].
    - destruct (n =? 360)%Z.
      + cbn [_wrapAngle360 map]. eexists.
        split; [reflexivity|apply mod_congruent].
      + exists x. split; [reflexivity|]. exists 0%Z.
        change (inject_Z 0) with 0. lra. }
  assert (I : exists n, infer_wrap_lon [x] w = Ok n).
  { destruct w as [|n]; [|eexists; reflexivity].
    unfold infer_wrap_lon, Np.nanmin, Np.nanmax, _is_180.
    cbn [fold_left bind].
    destruct (Np.Qltb (Np.round x 6) 0) eqn:E0.
    - apply Qltb_iff in E0.
      replace (Np.Qltb 180 (Np.round x 6)) with false
        by (symmetry; apply Qltb_false_iff; lra).
      cbn [andb bind]. eexists. reflexivity.
    - cbn [andb bind]. eexists. reflexivity. }
  destruct I as [n I]. destruct (W n) as [v [Ev Cv]].
  exists v. split; [|exact Cv].
  unfold _wrapAngle. cbn [Np.asarray Np.flat Np.ndim].
  rewrite I. cbn [bind]. rewrite Ev, U. reflexivity.
Qed.

End WrapBases.
